(** * Universe: the WebSocket client scripts

    A shallow embedding of the three client scripts of the repository,

      - [test-ws-simple.py]             (module [WsSimple]),
      - [test-create-particle-debug.py] (module [CreateParticleDebug]),
      - [test-create-particle.py]       (module [CreateParticle]),

    together with the part of Python they rely on: the [json] codec
    ([json.dumps], [json.loads]), subscripting, [dict.get], [len], and the
    [websockets] connection seen through [send], [recv] and
    [asyncio.wait_for].  The second half of the file states and proves the
    properties of the specification against these definitions, and then
    further properties of the scripts and of the codec. *)

From Stdlib Require Import Ascii String List Bool Arith NArith ZArith Lia.
From Stdlib Require DecimalN DecimalZ DecimalPos DecimalFacts.
Import ListNotations.

Local Open Scope N_scope.
Local Open Scope list_scope.

(** ** Text

    A Python [str] is a sequence of code points.  Frames travel as text. *)

Definition str : Type := list N.

Definition ch (a : ascii) : N := N_of_ascii a.
Arguments ch a%_char.

Definition lit (s : string) : str := map N_of_ascii (list_ascii_of_string s).
Arguments lit s%_string.

Definition QUOTE : N := 34.
Definition BACKSLASH : N := 92.

Fixpoint str_eqb (a b : str) : bool :=
  match a, b with
  | [], [] => true
  | x :: a', y :: b' => (x =? y) && str_eqb a' b'
  | _, _ => false
  end.

Fixpoint join (sep : str) (parts : list str) : str :=
  match parts with
  | [] => []
  | [p] => p
  | p :: more => p ++ sep ++ join sep more
  end.

(** [s.startswith(p)], returning what follows the prefix. *)
Fixpoint strip_prefix (p s : str) : option str :=
  match p, s with
  | [], _ => Some s
  | x :: p', y :: s' => if x =? y then strip_prefix p' s' else None
  | _ :: _, [] => None
  end.

(** ** Python values

    The values [json.loads] can produce.  Floats are kept abstract: the
    model fixes neither the rounding of [float(text)] nor the digits chosen
    by [float.__repr__]; both are operations of a [FloatModel]. *)

Class FloatModel : Type := {
  pyfloat : Type;
  float_of_str : str -> pyfloat;
  floatstr : pyfloat -> str
}.

Section Values.
Context {FM : FloatModel}.

Unset Elimination Schemes.
Inductive pyval : Type :=
| PyNone
| PyBool (b : bool)
| PyInt (z : Z)
| PyFloat (f : pyfloat)
| PyStr (s : str)
| PyList (xs : list pyval)
| PyDict (kvs : list (str * pyval)).
Set Elimination Schemes.

(** A [dict] keeps insertion order; assigning to a key that is present
    replaces the value where the key already stands. *)
Fixpoint dict_set (d : list (str * pyval)) (k : str) (v : pyval) : list (str * pyval) :=
  match d with
  | [] => [(k, v)]
  | (k', v') :: d' => if str_eqb k' k then (k', v) :: d' else (k', v') :: dict_set d' k v
  end.

(** [dict(pairs)] *)
Definition dict_of_pairs (pairs : list (str * pyval)) : list (str * pyval) :=
  fold_left (fun d kv => dict_set d (fst kv) (snd kv)) pairs [].

Fixpoint dict_lookup (d : list (str * pyval)) (k : str) : option pyval :=
  match d with
  | [] => None
  | (k', v) :: d' => if str_eqb k' k then Some v else dict_lookup d' k
  end.

End Values.

(** ** Exceptions and results *)

Inductive exn : Type :=
| JSONDecodeError
| KeyError
| TypeError
| AttributeError
| ValueError
| OverflowError
| ConnectionClosed
| TimeoutError.

Inductive result (A : Type) : Type :=
| Ok (a : A)
| Err (e : exn).
Arguments Ok {A} a.
Arguments Err {A} e.

(** ** The [json] codec

    Python's [json] module as the scripts call it: [json.dumps(obj)] and
    [json.loads(text)] with their default options, on text frames.  Limits
    of the interpreter (the recursion depth, the cap on the number of digits
    of an integer numeral) are not part of the model. *)

Module Json.

(** *** [json.dumps] with its default options
    ([ensure_ascii=True], separators [", "] and [": "]). *)

Definition hexdigit (d : N) : N := if d <? 10 then 48 + d else 87 + d.

Definition hex4 (n : N) : str :=
  [hexdigit (n / 4096 mod 16); hexdigit (n / 256 mod 16);
   hexdigit (n / 16 mod 16); hexdigit (n mod 16)].

Definition u_escape (n : N) : str := BACKSLASH :: ch "u" :: hex4 n.

(** The replacement [py_encode_basestring_ascii] makes for one code point:
    the short escapes of [ESCAPE_DCT], printable ASCII unchanged, and
    [\uXXXX] (a surrogate pair above the basic plane) for the rest. *)
Definition escape_char (c : N) : str :=
  if c =? QUOTE then [BACKSLASH; QUOTE]
  else if c =? BACKSLASH then [BACKSLASH; BACKSLASH]
  else if c =? 8 then [BACKSLASH; ch "b"]
  else if c =? 12 then [BACKSLASH; ch "f"]
  else if c =? 10 then [BACKSLASH; ch "n"]
  else if c =? 13 then [BACKSLASH; ch "r"]
  else if c =? 9 then [BACKSLASH; ch "t"]
  else if (32 <=? c) && (c <=? 126) then [c]
  else if c <? 0x10000 then u_escape c
  else
    let n := c - 0x10000 in
    u_escape (N.lor 0xd800 (N.land (N.shiftr n 10) 0x3ff))
      ++ u_escape (N.lor 0xdc00 (N.land n 0x3ff)).

Definition encode_basestring_ascii (s : str) : str :=
  QUOTE :: flat_map escape_char s ++ [QUOTE].

Definition digit_char (d : N) : N := 48 + d.

Fixpoint uint_chars (d : Decimal.uint) : str :=
  match d with
  | Decimal.Nil => []
  | Decimal.D0 d' => digit_char 0 :: uint_chars d'
  | Decimal.D1 d' => digit_char 1 :: uint_chars d'
  | Decimal.D2 d' => digit_char 2 :: uint_chars d'
  | Decimal.D3 d' => digit_char 3 :: uint_chars d'
  | Decimal.D4 d' => digit_char 4 :: uint_chars d'
  | Decimal.D5 d' => digit_char 5 :: uint_chars d'
  | Decimal.D6 d' => digit_char 6 :: uint_chars d'
  | Decimal.D7 d' => digit_char 7 :: uint_chars d'
  | Decimal.D8 d' => digit_char 8 :: uint_chars d'
  | Decimal.D9 d' => digit_char 9 :: uint_chars d'
  end.

(** [int.__repr__] *)
Definition int_repr (z : Z) : str :=
  match Z.to_int z with
  | Decimal.Pos d => uint_chars d
  | Decimal.Neg d => ch "-" :: uint_chars d
  end.

Section Codec.
Context {FM : FloatModel}.

Fixpoint dumps (v : pyval) : str :=
  match v with
  | PyNone => lit "null"
  | PyBool true => lit "true"
  | PyBool false => lit "false"
  | PyInt z => int_repr z
  | PyFloat f => floatstr f
  | PyStr s => encode_basestring_ascii s
  | PyList xs => ch "[" :: join (lit ", ") (map dumps xs) ++ [ch "]"]
  | PyDict kvs =>
      ch "{" :: join (lit ", ")
                  (map (fun kv => encode_basestring_ascii (fst kv) ++ lit ": " ++ dumps (snd kv)) kvs)
        ++ [ch "}"]
  end.

End Codec.

(** *** [json.loads]

    The scanner of [json.decoder] and [json.scanner].  Recursive descent
    is driven by a fuel counter; [loads] supplies enough of it for the whole
    text (lemma [JsonFacts.scan_once_fuel]), so that a failure of [loads] is
    always a failure to decode. *)

Inductive scan (A : Type) : Type :=
| Scanned (a : A) (rest : str)
| Malformed
| NoFuel.
Arguments Scanned {A} a rest.
Arguments Malformed {A}.
Arguments NoFuel {A}.

Definition scan_map {A B : Type} (f : A -> B) (r : scan A) : scan B :=
  match r with
  | Scanned a rest => Scanned (f a) rest
  | Malformed => Malformed
  | NoFuel => NoFuel
  end.

(** [WHITESPACE]: blanks, tabs, line feeds and carriage returns. *)
Definition is_ws (c : N) : bool :=
  (c =? 32) || (c =? 9) || (c =? 10) || (c =? 13).

Fixpoint skip_ws (s : str) : str :=
  match s with
  | c :: s' => if is_ws c then skip_ws s' else s
  | [] => []
  end.

Definition is_digit (c : N) : bool := (48 <=? c) && (c <=? 57).

Definition hexval (c : N) : option N :=
  if is_digit c then Some (c - 48)
  else if (97 <=? c) && (c <=? 102) then Some (c - 87)
  else if (65 <=? c) && (c <=? 70) then Some (c - 55)
  else None.

(** The four hexadecimal digits after [\u]. *)
Definition decode_uXXXX (s : str) : option (N * str) :=
  match s with
  | h1 :: h2 :: h3 :: h4 :: rest =>
      match hexval h1, hexval h2, hexval h3, hexval h4 with
      | Some a, Some b, Some c, Some d => Some (((a * 16 + b) * 16 + c) * 16 + d, rest)
      | _, _, _, _ => None
      end
  | _ => None
  end.

(** The table [BACKSLASH] of the decoder. *)
Definition unescape (esc : N) : option N :=
  if esc =? QUOTE then Some QUOTE
  else if esc =? BACKSLASH then Some BACKSLASH
  else if esc =? ch "/" then Some (ch "/")
  else if esc =? ch "b" then Some 8
  else if esc =? ch "f" then Some 12
  else if esc =? ch "n" then Some 10
  else if esc =? ch "r" then Some 13
  else if esc =? ch "t" then Some 9
  else None.

Definition is_high_surrogate (u : N) : bool := (0xd800 <=? u) && (u <=? 0xdbff).
Definition is_low_surrogate (u : N) : bool := (0xdc00 <=? u) && (u <=? 0xdfff).

Definition join_surrogates (hi lo : N) : N :=
  0x10000 + N.lor (N.shiftl (hi - 0xd800) 10) (lo - 0xdc00).

(** [scanstring] in strict mode, entered just after the opening quote. *)
Fixpoint scanstring_fuel (fuel : nat) (s : str) : scan str :=
  match fuel with
  | O => NoFuel
  | S fuel' =>
    match s with
    | [] => Malformed
    | c :: s1 =>
      if c =? QUOTE then Scanned [] s1
      else if c =? BACKSLASH then
        match s1 with
        | [] => Malformed
        | esc :: s2 =>
          if esc =? ch "u" then
            match decode_uXXXX s2 with
            | None => Malformed
            | Some (uni, s3) =>
              let single := scan_map (cons uni) (scanstring_fuel fuel' s3) in
              if is_high_surrogate uni then
                match s3 with
                | b :: u :: s4 =>
                  if (b =? BACKSLASH) && (u =? ch "u") then
                    match decode_uXXXX s4 with
                    | None => Malformed
                    | Some (uni2, s5) =>
                      if is_low_surrogate uni2
                      then scan_map (cons (join_surrogates uni uni2)) (scanstring_fuel fuel' s5)
                      else single
                    end
                  else single
                | _ => single
                end
              else single
            end
          else
            match unescape esc with
            | None => Malformed
            | Some c' => scan_map (cons c') (scanstring_fuel fuel' s2)
            end
        end
      else if c <? 32 then Malformed
      else scan_map (cons c) (scanstring_fuel fuel' s1)
    end
  end.

Definition scanstring (s : str) : scan str := scanstring_fuel (S (length s)) s.

Fixpoint span_digits (s : str) : str * str :=
  match s with
  | c :: s' =>
      if is_digit c then let (ds, rest) := span_digits s' in (c :: ds, rest)
      else ([], s)
  | [] => ([], [])
  end.

(** [NUMBER_RE]: an optional minus sign and either a lone zero or a
    nonzero digit with further digits; then optionally a point with at least
    one digit; then optionally [e] or [E], an optional sign and at least one
    digit.  [match_number] returns the three groups and what follows the
    match. *)
Definition match_integer (s : str) : option (str * str) :=
  let (sign, s0) :=
    match s with
    | c :: s' => if c =? ch "-" then ([c], s') else ([], s)
    | [] => ([], s)
    end in
  match s0 with
  | c :: s1 =>
      if c =? ch "0" then Some (sign ++ [c], s1)
      else if is_digit c then let (ds, rest) := span_digits s1 in Some (sign ++ c :: ds, rest)
      else None
  | [] => None
  end.

Definition match_frac (s : str) : str * str :=
  match s with
  | c :: s1 =>
      if c =? ch "." then
        match span_digits s1 with
        | ([], _) => ([], s)
        | (ds, rest) => (c :: ds, rest)
        end
      else ([], s)
  | [] => ([], s)
  end.

Definition match_exp (s : str) : str * str :=
  match s with
  | c :: s1 =>
      if (c =? ch "e") || (c =? ch "E") then
        let (sign, s2) :=
          match s1 with
          | g :: s' => if (g =? ch "-") || (g =? ch "+") then ([g], s') else ([], s1)
          | [] => ([], s1)
          end in
        match span_digits s2 with
        | ([], _) => ([], s)
        | (ds, rest) => (c :: sign ++ ds, rest)
        end
      else ([], s)
  | [] => ([], s)
  end.

Definition match_number (s : str) : option (str * str * str * str) :=
  match match_integer s with
  | None => None
  | Some (integer, s1) =>
      let (frac, s2) := match_frac s1 in
      let (exp, s3) := match_exp s2 in
      Some (integer, frac, exp, s3)
  end.

Fixpoint uint_of_chars (s : str) : Decimal.uint :=
  match s with
  | [] => Decimal.Nil
  | c :: s' =>
    let d := uint_of_chars s' in
    match c - 48 with
    | 0 => Decimal.D0 d
    | 1 => Decimal.D1 d
    | 2 => Decimal.D2 d
    | 3 => Decimal.D3 d
    | 4 => Decimal.D4 d
    | 5 => Decimal.D5 d
    | 6 => Decimal.D6 d
    | 7 => Decimal.D7 d
    | 8 => Decimal.D8 d
    | _ => Decimal.D9 d
    end
  end.

(** [int(integer)] on the first group of [NUMBER_RE]. *)
Definition int_of_str (s : str) : Z :=
  match s with
  | c :: s' =>
      if c =? ch "-" then Z.of_int (Decimal.Neg (uint_of_chars s'))
      else Z.of_int (Decimal.Pos (uint_of_chars s))
  | [] => 0%Z
  end.

Section Decoder.
Context {FM : FloatModel}.

Definition scan_number (s : str) : scan pyval :=
  match match_number s with
  | Some (integer, frac, exp, rest) =>
      match frac, exp with
      | [], [] => Scanned (PyInt (int_of_str integer)) rest
      | _, _ => Scanned (PyFloat (float_of_str (integer ++ frac ++ exp))) rest
      end
  | None =>
      match strip_prefix (lit "NaN") s with
      | Some rest => Scanned (PyFloat (float_of_str (lit "NaN"))) rest
      | None =>
      match strip_prefix (lit "Infinity") s with
      | Some rest => Scanned (PyFloat (float_of_str (lit "Infinity"))) rest
      | None =>
      match strip_prefix (lit "-Infinity") s with
      | Some rest => Scanned (PyFloat (float_of_str (lit "-Infinity"))) rest
      | None => Malformed
      end end end
  end.

(** [scan_once], with [JSONArray] as [parse_items] and the loop of
    [JSONObject] as [parse_pairs] (entered just after the opening quote of a
    key). *)
Fixpoint scan_once (fuel : nat) (s : str) {struct fuel} : scan pyval :=
  match fuel with
  | O => NoFuel
  | S fuel' =>
    match s with
    | [] => Malformed
    | c :: s1 =>
      if c =? QUOTE then scan_map PyStr (scanstring s1)
      else if c =? ch "{" then
        match skip_ws s1 with
        | c2 :: s2 =>
            if c2 =? ch "}" then Scanned (PyDict []) s2
            else if c2 =? QUOTE
            then scan_map (fun pairs => PyDict (dict_of_pairs pairs)) (parse_pairs fuel' s2)
            else Malformed
        | [] => Malformed
        end
      else if c =? ch "[" then
        match skip_ws s1 with
        | c2 :: s2 =>
            if c2 =? ch "]" then Scanned (PyList []) s2
            else scan_map PyList (parse_items fuel' (c2 :: s2))
        | [] => Malformed
        end
      else
        match strip_prefix (lit "null") s with
        | Some rest => Scanned PyNone rest
        | None =>
        match strip_prefix (lit "true") s with
        | Some rest => Scanned (PyBool true) rest
        | None =>
        match strip_prefix (lit "false") s with
        | Some rest => Scanned (PyBool false) rest
        | None => scan_number s
        end end end
    end
  end

with parse_items (fuel : nat) (s : str) {struct fuel} : scan (list pyval) :=
  match fuel with
  | O => NoFuel
  | S fuel' =>
    match scan_once fuel' s with
    | Scanned v s1 =>
        match skip_ws s1 with
        | c :: s2 =>
            if c =? ch "]" then Scanned [v] s2
            else if c =? ch ","
            then scan_map (cons v) (parse_items fuel' (skip_ws s2))
            else Malformed
        | [] => Malformed
        end
    | Malformed => Malformed
    | NoFuel => NoFuel
    end
  end

with parse_pairs (fuel : nat) (s : str) {struct fuel} : scan (list (str * pyval)) :=
  match fuel with
  | O => NoFuel
  | S fuel' =>
    match scanstring s with
    | Scanned key s1 =>
        match skip_ws s1 with
        | c :: s2 =>
            if c =? ch ":" then
              match scan_once fuel' (skip_ws s2) with
              | Scanned v s3 =>
                  match skip_ws s3 with
                  | d :: s4 =>
                      if d =? ch "}" then Scanned [(key, v)] s4
                      else if d =? ch "," then
                        match skip_ws s4 with
                        | q :: s5 =>
                            if q =? QUOTE
                            then scan_map (cons (key, v)) (parse_pairs fuel' s5)
                            else Malformed
                        | [] => Malformed
                        end
                      else Malformed
                  | [] => Malformed
                  end
              | Malformed => Malformed
              | NoFuel => NoFuel
              end
            else Malformed
        | [] => Malformed
        end
    | Malformed => Malformed
    | NoFuel => NoFuel
    end
  end.

(** [JSONDecoder.decode]: one value, surrounded by optional whitespace,
    and nothing else. *)
Definition loads (s : str) : result pyval :=
  match scan_once (2 * length s + 2) (skip_ws s) with
  | Scanned v rest =>
      match skip_ws rest with
      | [] => Ok v
      | _ :: _ => Err JSONDecodeError
      end
  | Malformed => Err JSONDecodeError
  | NoFuel => Err JSONDecodeError
  end.

(** *** Vocabulary for the properties *)

(** A Unicode scalar value: a code point that is not a surrogate. *)
Definition scalar_value (c : N) : Prop :=
  c < 0xd800 \/ (0xe000 <= c /\ c < 0x110000).

Definition string_ok (s : str) : Prop := Forall scalar_value s.

(** What may follow a value inside a document written by [dumps]. *)
Definition ends_value (rest : str) : Prop :=
  match rest with
  | [] => True
  | c :: _ => c = ch "," \/ c = ch "]" \/ c = ch "}"
  end.

(** A float whose rendering reads back as the same float, as is the case
    of every finite IEEE double under [float.__repr__] and [float()]. *)
Definition float_ok (f : pyfloat) : Prop :=
  forall fuel rest,
    ends_value rest ->
    scan_once (S fuel) (floatstr f ++ rest) = Scanned (PyFloat f) rest.

(** JSON-compatible values: strings of scalar values, floats that read
    back, and (as in every Python [dict]) distinct keys. *)
Fixpoint json_ok (v : pyval) : Prop :=
  match v with
  | PyNone | PyBool _ | PyInt _ => True
  | PyFloat f => float_ok f
  | PyStr s => string_ok s
  | PyList xs =>
      (fix all (xs : list pyval) : Prop :=
         match xs with
         | [] => True
         | x :: xs' => json_ok x /\ all xs'
         end) xs
  | PyDict kvs =>
      NoDup (map fst kvs) /\
      (fix all (kvs : list (str * pyval)) : Prop :=
         match kvs with
         | [] => True
         | kv :: kvs' => string_ok (fst kv) /\ json_ok (snd kv) /\ all kvs'
         end) kvs
  end.

(** *** Valid Envelopes *)




(** The number of values in a value, which bounds the fuel its text
    needs. *)
Fixpoint size (v : pyval) : nat :=
  match v with
  | PyList xs =>
      S ((fix weight (xs : list pyval) : nat :=
            match xs with
            | [] => O
            | x :: xs' => S (size x + weight xs')
            end) xs)
  | PyDict kvs =>
      S ((fix weight (kvs : list (str * pyval)) : nat :=
            match kvs with
            | [] => O
            | kv :: kvs' => S (size (snd kv) + weight kvs')
            end) kvs)
  | _ => 1%nat
  end.

(** The Envelope of the wire protocol: a [type] and an optional
    [payload]. *)
Definition envelope (type : str) (payload : option pyval) : pyval :=
  PyDict ((lit "type", PyStr type)
            :: match payload with
               | Some p => [(lit "payload", p)]
               | None => []
               end).

End Decoder.

End Json.

(** ** Python operations used by the scripts *)

Module Py.
Section Ops.
Context {FM : FloatModel}.

(** [obj[key]] with a string key *)
Definition subscript (obj : pyval) (key : str) : result pyval :=
  match obj with
  | PyDict d =>
      match dict_lookup d key with
      | Some v => Ok v
      | None => Err KeyError
      end
  | _ => Err TypeError
  end.

(** [obj.get(key, default)] *)
Definition get (obj : pyval) (key : str) (default : pyval) : result pyval :=
  match obj with
  | PyDict d =>
      match dict_lookup d key with
      | Some v => Ok v
      | None => Ok default
      end
  | _ => Err AttributeError
  end.

(** [len(obj)] *)
Definition len (obj : pyval) : result nat :=
  match obj with
  | PyStr s => Ok (length s)
  | PyList xs => Ok (length xs)
  | PyDict d => Ok (length d)
  | _ => Err TypeError
  end.

(** [obj == text] for a string literal [text] *)
Definition eq_str (obj : pyval) (text : str) : bool :=
  match obj with
  | PyStr s => str_eqb s text
  | _ => false
  end.

(** Formatting with [:.3f]: numbers are accepted, an [int] being converted
    to a float first, which raises [OverflowError] from [2**1024 - 2**970]
    on in absolute value; the rest is refused. *)
Definition format_3f (obj : pyval) : result pyval :=
  match obj with
  | PyInt z => if (Z.abs z <? 2 ^ 1024 - 2 ^ 970)%Z then Ok obj else Err OverflowError
  | PyFloat _ | PyBool _ => Ok obj
  | PyStr _ => Err ValueError
  | _ => Err TypeError
  end.

End Ops.
End Py.

(** ** The connection

    The server is an environment: the frames (and possibly the close) it
    will deliver, in order, each with the time in milliseconds at which it
    reaches the client.  An empty inbox is a server that stays silent and
    keeps the connection open.  Frames are text frames.  The clock moves
    only while the client waits: an expired wait takes exactly its timeout.
    The model starts once [websockets.connect] has produced the
    connection. *)

Module Ws.

Inductive event : Type :=
| Frame (text : str)
| Close.

(** What one wait on [recv] observed. *)
Inductive arrival : Type :=
| Got (text : str)
| Expired
| Closed.

Inductive action (line : Type) : Type :=
| Send (text : str)
| Await (bound : option N) (a : arrival)
| Sleep (ms : N)
| Print (l : line)
| Disconnect.
Arguments Send {line} text.
Arguments Await {line} bound a.
Arguments Sleep {line} ms.
Arguments Print {line} l.
Arguments Disconnect {line}.

Record world (line : Type) : Type := World {
  now : N;
  inbox : list (N * event);
  trace : list (action line)
}.
Arguments World {line} now inbox trace.
Arguments now {line} w.
Arguments inbox {line} w.
Arguments trace {line} w.

(** How a computation ends: with a value, with an exception, waiting for
    ever on a receive, or (for the loop of the listener) out of fuel. *)
Inductive outcome (A : Type) : Type :=
| Return (a : A)
| Raise (e : exn)
| Blocked
| OutOfFuel.
Arguments Return {A} a.
Arguments Raise {A} e.
Arguments Blocked {A}.
Arguments OutOfFuel {A}.

Section Monad.
Context {line : Type}.

Definition M (A : Type) : Type := world line -> outcome A * world line.

Definition ret {A : Type} (a : A) : M A := fun w => (Return a, w).

Definition bind {A B : Type} (m : M A) (k : A -> M B) : M B :=
  fun w =>
    match m w with
    | (Return a, w') => k a w'
    | (Raise e, w') => (Raise e, w')
    | (Blocked, w') => (Blocked, w')
    | (OutOfFuel, w') => (OutOfFuel, w')
    end.

Definition raise {A : Type} (e : exn) : M A := fun w => (Raise e, w).

Definition lift {A : Type} (r : result A) : M A :=
  match r with
  | Ok a => ret a
  | Err e => raise e
  end.

Definition exn_eqb (a b : exn) : bool :=
  match a, b with
  | JSONDecodeError, JSONDecodeError | KeyError, KeyError | TypeError, TypeError
  | AttributeError, AttributeError | ValueError, ValueError
  | OverflowError, OverflowError
  | ConnectionClosed, ConnectionClosed | TimeoutError, TimeoutError => true
  | _, _ => false
  end.

(** [try: m  except cls: handler] *)
Definition try_except {A : Type} (m : M A) (cls : exn) (handler : M A) : M A :=
  fun w =>
    match m w with
    | (Raise e, w') => if exn_eqb e cls then handler w' else (Raise e, w')
    | other => other
    end.

(** [try: m  except Exception as e: handler e] *)
Definition try_except_Exception {A : Type} (m : M A) (handler : exn -> M A) : M A :=
  fun w =>
    match m w with
    | (Raise e, w') => handler e w'
    | other => other
    end.

Definition emit (a : action line) : M unit :=
  fun w => (Return tt, World (now w) (inbox w) (trace w ++ [a])).

(** [print(...)] of a line.  The line is taken to be written: its text is
    assumed to be one that the output can encode, which on a UTF-8 output is
    a text without surrogate code points. *)
Definition print (l : line) : M unit := emit (Print l).

(** [async with websockets.connect(uri) as websocket: body]: the connection
    is released when the body returns and when it raises. *)
Definition async_with {A : Type} (body : M A) : M A :=
  fun w =>
    match body w with
    | (Return a, w') => (Return a, World (now w') (inbox w') (trace w' ++ [Disconnect]))
    | (Raise e, w') => (Raise e, World (now w') (inbox w') (trace w' ++ [Disconnect]))
    | other => other
    end.

(** [datetime.now()], in milliseconds *)
Definition clock : M N := fun w => (Return (now w), w).

Definition is_close (ev : event) : bool :=
  match ev with
  | Close => true
  | Frame _ => false
  end.

(** The close has reached the client, whether or not earlier frames are
    still unread. *)
Definition connection_closed (w : world line) : bool :=
  existsb (fun tev => is_close (snd tev) && (fst tev <=? now w)) (inbox w).

(** [await websocket.send(text)] *)
Definition send (text : str) : M unit :=
  fun w => if connection_closed w then (Raise ConnectionClosed, w) else emit (Send text) w.

(** Taking the event at the head of the inbox, which is there at time [t]. *)
Definition deliver (bound : option N) (t : N) (ev : event) (rest : list (N * event))
    (w : world line) : outcome str * world line :=
  match ev with
  | Frame text => (Return text, World (N.max (now w) t) rest (trace w ++ [Await bound (Got text)]))
  | Close => (Raise ConnectionClosed,
              World (N.max (now w) t) (inbox w) (trace w ++ [Await bound Closed]))
  end.

(** [await websocket.recv()]: waits until a frame or the close arrives. *)
Definition recv : M str :=
  fun w =>
    match inbox w with
    | [] => (Blocked, w)
    | (t, ev) :: rest => deliver None t ev rest w
    end.

(** [await asyncio.wait_for(websocket.recv(), timeout=seconds)] *)
Definition wait_for_recv (seconds : N) : M str :=
  fun w =>
    let expire := (Raise TimeoutError,
                   World (now w + 1000 * seconds) (inbox w)
                         (trace w ++ [Await (Some seconds) Expired])) in
    match inbox w with
    | [] => expire
    | (t, ev) :: rest =>
        if t <? now w + 1000 * seconds then deliver (Some seconds) t ev rest w else expire
    end.

(** [await asyncio.sleep(ms / 1000)] *)
Definition sleep (ms : N) : M unit :=
  fun w => (Return tt, World (now w + ms) (inbox w) (trace w ++ [Sleep ms])).



(** An action that is not a wait, or a wait bounded by [seconds]. *)
Definition bounded_by (seconds : N) (a : action line) : Prop :=
  match a with
  | Await bound _ => bound = Some seconds
  | _ => True
  end.

(** An action that is not a wait, or a wait without a bound. *)
Definition unbounded (a : action line) : Prop :=
  match a with
  | Await bound _ => bound = None
  | _ => True
  end.

(** [for x in xs: body x] *)
Fixpoint for_each {A : Type} (xs : list A) (body : A -> M unit) : M unit :=
  match xs with
  | [] => ret tt
  | x :: xs' => bind (body x) (fun _ => for_each xs' body)
  end.

End Monad.

Declare Scope ws_scope.
Delimit Scope ws_scope with ws.
Notation "x <- m ;; k" := (bind m (fun x => k))
  (at level 61, m at next level, right associativity) : ws_scope.
Notation "m ;; k" := (bind m (fun _ => k))
  (at level 61, right associativity) : ws_scope.

End Ws.

Import Ws.
Local Open Scope ws_scope.

(** A run starts at time 0 with an inbox chosen by the server and nothing
    done yet. *)
Definition fresh {line : Type} (server : list (N * event)) : world line :=
  World 0 server [].

(** [json.dumps({"type": "getSnapshot"})] is what every script sends to ask
    for a snapshot. *)
Definition get_snapshot_msg {FM : FloatModel} : pyval :=
  PyDict [(lit "type", PyStr (lit "getSnapshot"))].

(** ** [test-ws-simple.py] *)

Module WsSimple.
Section Script.
Context {FM : FloatModel}.

Inductive line : Type :=
| Connecting
| Connected
| RequestedSnapshot
| Listening (timeout : N)
| SnapshotReceived
| ParticlesLine (n : nat)
| SimulationTimeLine (v : pyval)
| TotalEnergyLine (v : pyval)
| OtherMessage (type : pyval) (data : pyval)
| Dot
| ReceivedSummary (message_count : nat) (timeout : N)
| ErrorLine (e : exn).

(** [timedelta.seconds] of a non-negative difference given in
    milliseconds: the seconds component, days taken out. *)
Definition timedelta_seconds (ms : N) : N := (ms / 1000) mod 86400.

(** Lines 28-40: the body of the inner [try] after the receive.  The
    counter is incremented once the frame has decoded; the value returned is
    the new counter. *)
Definition on_message (message : str) (message_count : nat) : M (line := line) nat :=
  data <- lift (Json.loads message) ;;
  let message_count := S message_count in
  type <- lift (Py.get data (lit "type") PyNone) ;;
  if Py.eq_str type (lit "snapshot") then
    payload <- lift (Py.get data (lit "payload") (PyDict [])) ;;
    particles <- lift (Py.get payload (lit "particles") (PyList [])) ;;
    metrics <- lift (Py.get payload (lit "metrics") (PyDict [])) ;;
    print SnapshotReceived ;;
    n <- lift (Py.len particles) ;;
    print (ParticlesLine n) ;;
    simulation_time <- lift (Py.get payload (lit "simulationTime") (PyInt 0)) ;;
    shown_time <- lift (Py.format_3f simulation_time) ;;
    print (SimulationTimeLine shown_time) ;;
    total_energy <- lift (Py.get metrics (lit "totalEnergy") (PyInt 0)) ;;
    shown_energy <- lift (Py.format_3f total_energy) ;;
    print (TotalEnergyLine shown_energy) ;;
    ret message_count
  else
    type' <- lift (Py.get data (lit "type") PyNone) ;;
    print (OtherMessage type' data) ;;
    ret message_count.

(** Lines 26-43: one turn of the loop.  [asyncio.TimeoutError] can only
    come from the receive, before the counter changes. *)
Definition attempt (message_count : nat) : M (line := line) nat :=
  try_except
    (message <- wait_for_recv 1 ;;
     on_message message message_count)
    TimeoutError
    (print Dot ;; ret message_count).

(** Lines 25-43: [while (datetime.now() - start_time).seconds < timeout]. *)
Fixpoint listen (fuel : nat) (timeout start_time : N) (message_count : nat)
    : M (line := line) nat :=
  match fuel with
  | O => fun w => (OutOfFuel, w)
  | S fuel' =>
      t <- clock ;;
      if timedelta_seconds (t - start_time) <? timeout then
        message_count' <- attempt message_count ;;
        listen fuel' timeout start_time message_count'
      else ret message_count
  end.

(** Every turn of the loop takes a frame from the inbox or lets a second
    pass, so this many turns are enough (fact [listen_enough_fuel]). *)
Definition turns (timeout : N) (w : world line) : nat :=
  length (inbox w) + N.to_nat timeout + 1.

Definition test_websocket : M (line := line) unit :=
  print Connecting ;;
  async_with
    (print Connected ;;
     send (Json.dumps get_snapshot_msg) ;;
     print RequestedSnapshot ;;
     try_except_Exception
       (let timeout := 10 in
        print (Listening timeout) ;;
        start_time <- clock ;;
        message_count <- (fun w => listen (turns timeout w) timeout start_time 0 w) ;;
        print (ReceivedSummary message_count timeout))
       (fun e => print (ErrorLine e))).

(** *** Vocabulary for the properties *)

Definition run (server : list (N * event)) : outcome unit * world line :=
  test_websocket (fresh server).
Definition outcome_of (server : list (N * event)) : outcome unit := fst (run server).
Definition trace_of (server : list (N * event)) : list (action line) := trace (snd (run server)).

(** What a run does before it starts to listen. *)
Definition preamble : list (action line) :=
  [Print Connecting; Print Connected; Send (Json.dumps get_snapshot_msg);
   Print RequestedSnapshot; Print (Listening 10)].

(** The actions of the listening loop: bounded waits and the lines printed
    for messages and timeouts, but neither the tally nor an error report. *)
Definition listening (a : action line) : Prop :=
  match a with
  | Await bound _ => bound = Some 1
  | Print (ReceivedSummary _ _) | Print (ErrorLine _) => False
  | Print _ => True
  | _ => False
  end.

(** Number of frames received in a list of actions. *)
Fixpoint frames_got (acts : list (action line)) : nat :=
  match acts with
  | [] => 0
  | Await _ (Got _) :: acts' => S (frames_got acts')
  | _ :: acts' => frames_got acts'
  end.

(** One second of silence, as the loop records it. *)
Definition silent_second : list (action line) := [Await (Some 1) Expired; Print Dot].

End Script.
End WsSimple.

(** ** [test-create-particle-debug.py] *)

Module CreateParticleDebug.
Section Script.
Context {FM : FloatModel}.

Inductive line : Type :=
| Connecting
| Connected
| CreatingProton
| Sending (msg : pyval)
| ListeningForResponses
| ReceivedLine (type : pyval)
| ErrorMessageLine (message : pyval)
| SnapshotLine (n : nat)
| NoMoreMessages.

Definition create_msg : pyval :=
  PyDict [(lit "type", PyStr (lit "createParticle"));
          (lit "payload",
           PyDict [(lit "type", PyStr (lit "proton"));
                   (lit "position",
                    PyDict [(lit "x", PyInt 5); (lit "y", PyInt 5); (lit "z", PyInt 5)])])].

(** Lines 31-36: what is done with one response. *)
Definition on_response (response : str) : M (line := line) unit :=
  data <- lift (Json.loads response) ;;
  type <- lift (Py.subscript data (lit "type")) ;;
  print (ReceivedLine type) ;;
  type <- lift (Py.subscript data (lit "type")) ;;
  if Py.eq_str type (lit "error") then
    payload <- lift (Py.get data (lit "payload") (PyDict [])) ;;
    message <- lift (Py.get payload (lit "message") (PyStr (lit "Unknown error"))) ;;
    print (ErrorMessageLine message)
  else
    type <- lift (Py.subscript data (lit "type")) ;;
    if Py.eq_str type (lit "snapshot") then
      payload <- lift (Py.subscript data (lit "payload")) ;;
      particles <- lift (Py.subscript payload (lit "particles")) ;;
      n <- lift (Py.len particles) ;;
      print (SnapshotLine n)
    else ret tt.

(** Lines 29-36: [for i in range(5)]. *)
Definition drain : M (line := line) unit :=
  for_each (seq 0 5)
    (fun i =>
       response <- wait_for_recv 1 ;;
       on_response response).

Definition test_create_particle : M (line := line) unit :=
  print Connecting ;;
  async_with
    (print Connected ;;
     print CreatingProton ;;
     print (Sending create_msg) ;;
     send (Json.dumps create_msg) ;;
     print ListeningForResponses ;;
     try_except drain TimeoutError (print NoMoreMessages)).

(** *** Vocabulary for the properties *)

Definition run (server : list (N * event)) : outcome unit * world line :=
  test_create_particle (fresh server).
Definition outcome_of (server : list (N * event)) : outcome unit := fst (run server).
Definition trace_of (server : list (N * event)) : list (action line) := trace (snd (run server)).

(** What a run does before it starts to drain the responses. *)
Definition preamble : list (action line) :=
  [Print Connecting; Print Connected; Print CreatingProton; Print (Sending create_msg);
   Send (Json.dumps create_msg); Print ListeningForResponses].

(** Receive attempts, attempts that timed out, and responses examined, in a
    list of actions. *)
Fixpoint awaits (acts : list (action line)) : nat :=
  match acts with
  | [] => 0
  | Await _ _ :: acts' => S (awaits acts')
  | _ :: acts' => awaits acts'
  end.

Fixpoint timeouts (acts : list (action line)) : nat :=
  match acts with
  | [] => 0
  | Await _ Expired :: acts' => S (timeouts acts')
  | _ :: acts' => timeouts acts'
  end.

Fixpoint examined (acts : list (action line)) : nat :=
  match acts with
  | [] => 0
  | Print (ReceivedLine _) :: acts' => S (examined acts')
  | _ :: acts' => examined acts'
  end.

End Script.
End CreateParticleDebug.

(** ** [test-create-particle.py] *)

Module CreateParticle.
Section Script.
Context {FM : FloatModel}.

Inductive line : Type :=
| Connecting
| Connected
| InitialCount (n : nat)
| CreatingProton
| NewCount (n : nat)
| ProtonCreated
| ProtonFailed
| CreatingNeutron
| FinalCount (n : nat)
| NeutronCreated
| NeutronFailed.

Definition create_msg (species : str) (x y z : Z) : pyval :=
  PyDict [(lit "type", PyStr (lit "createParticle"));
          (lit "payload",
           PyDict [(lit "type", PyStr species);
                   (lit "position",
                    PyDict [(lit "x", PyInt x); (lit "y", PyInt y); (lit "z", PyInt z)])])].

Definition test_create_particle : M (line := line) unit :=
  print Connecting ;;
  async_with
    (print Connected ;;
     (* Request initial snapshot *)
     send (Json.dumps get_snapshot_msg) ;;
     response <- recv ;;
     data <- lift (Json.loads response) ;;
     payload <- lift (Py.subscript data (lit "payload")) ;;
     particles <- lift (Py.subscript payload (lit "particles")) ;;
     initial_count <- lift (Py.len particles) ;;
     print (InitialCount initial_count) ;;
     (* Create a proton *)
     print CreatingProton ;;
     send (Json.dumps (create_msg (lit "proton") 5 5 5)) ;;
     (* Wait for snapshot update *)
     sleep 500 ;;
     (* Request new snapshot *)
     send (Json.dumps get_snapshot_msg) ;;
     response <- recv ;;
     data <- lift (Json.loads response) ;;
     payload <- lift (Py.subscript data (lit "payload")) ;;
     particles <- lift (Py.subscript payload (lit "particles")) ;;
     new_count <- lift (Py.len particles) ;;
     print (NewCount new_count) ;;
     (if (initial_count <? new_count)%nat
      then print ProtonCreated
      else print ProtonFailed) ;;
     (* Try creating a neutron *)
     print CreatingNeutron ;;
     send (Json.dumps (create_msg (lit "neutron") (-5) (-5) (-5))) ;;
     (* Wait for snapshot update *)
     sleep 500 ;;
     (* Request final snapshot *)
     send (Json.dumps get_snapshot_msg) ;;
     response <- recv ;;
     data <- lift (Json.loads response) ;;
     payload <- lift (Py.subscript data (lit "payload")) ;;
     particles <- lift (Py.subscript payload (lit "particles")) ;;
     final_count <- lift (Py.len particles) ;;
     print (FinalCount final_count) ;;
     (if (new_count <? final_count)%nat
      then print NeutronCreated
      else print NeutronFailed)).

(** *** Vocabulary for the properties *)

(** Lines 18, 39 and 65: [len(data['payload']['particles'])]. *)
Definition count_in (data : pyval) : result nat :=
  match Py.subscript data (lit "payload") with
  | Err e => Err e
  | Ok payload =>
    match Py.subscript payload (lit "particles") with
    | Err e => Err e
    | Ok particles => Py.len particles
    end
  end.

(** Lines 17-18, 38-39 and 64-65: the count read off one reply. *)
Definition particle_count (response : str) : result nat :=
  match Json.loads response with
  | Err e => Err e
  | Ok data => count_in data
  end.

(** A run against a given server: how it ends, and what was done. *)
Definition run (server : list (N * event)) : outcome unit * world line :=
  test_create_particle (fresh server).
Definition outcome_of (server : list (N * event)) : outcome unit := fst (run server).
Definition trace_of (server : list (N * event)) : list (action line) := trace (snd (run server)).

Definition ask : action line := Send (Json.dumps get_snapshot_msg).
Definition create_proton : action line :=
  Send (Json.dumps (create_msg (lit "proton") 5 5 5)).
Definition create_neutron : action line :=
  Send (Json.dumps (create_msg (lit "neutron") (-5) (-5) (-5))).

(** The trace of a run that reaches its end, given the three replies and
    the counts read off them. *)
Definition completed_trace (s0 s1 s2 : str) (c0 c1 c2 : nat) : list (action line) :=
  [Print Connecting; Print Connected;
   ask; Await None (Got s0); Print (InitialCount c0);
   Print CreatingProton; create_proton; Sleep 500;
   ask; Await None (Got s1); Print (NewCount c1);
   Print (if (c0 <? c1)%nat then ProtonCreated else ProtonFailed);
   Print CreatingNeutron; create_neutron; Sleep 500;
   ask; Await None (Got s2); Print (FinalCount c2);
   Print (if (c1 <? c2)%nat then NeutronCreated else NeutronFailed);
   Disconnect].

End Script.
End CreateParticle.

(** ** [json.dumps(obj, indent=n)]

    With an indentation the encoder puts every item of a non-empty array
    and every pair of a non-empty object on a line of its own, indented by
    [n] blanks for each level of nesting; the item separator is a comma
    without a blank, and the closing bracket stands on a line of its own at
    the level of the opening one.  Empty arrays and objects, and all other
    values, are written as they are without an indentation.  The debug
    scenario prints its request with [indent=2]. *)

Module JsonIndent.
Section Codec.
Context {FM : FloatModel}.

(** A line feed and the indentation of a level. *)
Definition newline_indent (indent level : nat) : str :=
  10 :: repeat 32 (indent * level).

(** [_iterencode] of [json.encoder], the encoder in use whenever an
    indentation is given, for a value that stands at nesting [level];
    [json.dumps(v, indent=n)] is [dumps n 0 v]. *)
Fixpoint dumps (indent level : nat) (v : pyval) : str :=
  match v with
  | PyNone => lit "null"
  | PyBool true => lit "true"
  | PyBool false => lit "false"
  | PyInt z => Json.int_repr z
  | PyFloat f => floatstr f
  | PyStr s => Json.encode_basestring_ascii s
  | PyList xs =>
      match xs with
      | [] => lit "[]"
      | _ :: _ =>
          ch "[" :: newline_indent indent (S level)
            ++ join (ch "," :: newline_indent indent (S level))
                 (map (dumps indent (S level)) xs)
            ++ newline_indent indent level ++ [ch "]"]
      end
  | PyDict kvs =>
      match kvs with
      | [] => lit "{}"
      | _ :: _ =>
          ch "{" :: newline_indent indent (S level)
            ++ join (ch "," :: newline_indent indent (S level))
                 (map (fun kv => Json.encode_basestring_ascii (fst kv) ++ lit ": "
                                   ++ dumps indent (S level) (snd kv)) kvs)
            ++ newline_indent indent level ++ [ch "}"]
      end
  end.

(** What may follow a value inside an indented document: the comma of the
    separator, or the line feed before the closing bracket. *)
Definition ends_item (rest : str) : Prop :=
  match rest with
  | [] => True
  | c :: _ => c = ch "," \/ c = 10
  end.

(** A float whose rendering reads back as the same float there. *)
Definition float_ok (f : pyfloat) : Prop :=
  forall fuel rest,
    ends_item rest ->
    Json.scan_once (S fuel) (floatstr f ++ rest) = Json.Scanned (PyFloat f) rest.

End Codec.
End JsonIndent.

(** ** Further vocabulary

    Counting in traces, and the text of a value on the wire. *)

Module Trace.
Section Counting.
Context {line : Type}.

(** Number of waits that ended on their timeout. *)
Fixpoint expired (acts : list (action line)) : nat :=
  match acts with
  | [] => 0
  | Await _ Expired :: acts' => S (expired acts')
  | _ :: acts' => expired acts'
  end.

(** A line written to the terminal. *)
Definition printed (a : action line) : Prop :=
  match a with
  | Print _ => True
  | _ => False
  end.

(** An action made while the connection is held. *)
Definition on_connection (a : action line) : Prop :=
  match a with
  | Disconnect => False
  | _ => True
  end.

(** The connection is released by the last action, and only by it. *)
Definition released (acts : list (action line)) : Prop :=
  exists front, acts = front ++ [Disconnect] /\ Forall on_connection front.

End Counting.
End Trace.

Module Wire.
Section Text.
Context {FM : FloatModel}.

(** A printable ASCII character. *)
Definition printable (c : N) : Prop := 32 <= c /\ c <= 126.

(** The floats that occur in a value. *)
Fixpoint floats_in (v : pyval) : list pyfloat :=
  match v with
  | PyFloat f => [f]
  | PyList xs => flat_map floats_in xs
  | PyDict kvs => flat_map (fun kv => floats_in (snd kv)) kvs
  | _ => []
  end.

(** White space, as [json.loads] skips it around and between values. *)
Definition blank (ws : str) : Prop := Forall (fun c => Json.is_ws c = true) ws.

(** A value that [print] can write inside a line to a UTF-8 output.
    [str()] of a string is the string itself, and a surrogate code point in
    it makes the write raise [UnicodeEncodeError]; [str()] of any other
    value is ASCII or escapes what it holds. *)
Definition writable (v : pyval) : Prop :=
  match v with
  | PyStr s => Json.string_ok s
  | _ => True
  end.

End Text.
End Wire.

(** ** Servers for closed examples *)

(** A float model for closed examples: a float is identified with the
    numeral that denotes it. *)
Definition numeral_floats : FloatModel :=
  {| pyfloat := str; float_of_str := fun s => s; floatstr := fun f => f |}.

(** A [snapshot] reply listing [n] particles. *)
Definition snapshot_frame (n : nat) : str :=
  Json.dumps (FM := numeral_floats)
    (Json.envelope (lit "snapshot")
       (Some (PyDict [(lit "particles", PyList (repeat (PyDict []) n));
                      (lit "simulationTime", @PyFloat numeral_floats (lit "0.25"))]))).

(** An [error] reply. *)
Definition error_frame : str :=
  Json.dumps (FM := numeral_floats)
    (Json.envelope (lit "error") (Some (PyDict [(lit "message", PyStr (lit "boom"))]))).

(** A server on which the first creation is not seen: the counts read are
    1, 1 and 2. *)
Definition stalled_server : list (N * event) :=
  [(10, Frame (snapshot_frame 1)); (600, Frame (snapshot_frame 1));
   (1200, Frame (snapshot_frame 2))].

(** A server on which both creations are seen: the counts read are 1, 2
    and 3. *)
Definition growing_server : list (N * event) :=
  [(10, Frame (snapshot_frame 1)); (600, Frame (snapshot_frame 2));
   (1200, Frame (snapshot_frame 3))].

(** A server whose only event, the close, comes after the window. *)
Definition late_server : list (N * event) := [(12000, Close)].


(** A [snapshot] Envelope without a payload, and one whose payload is
    [null]. *)
Definition bare_snapshot_frame : str :=
  Json.dumps (FM := numeral_floats) (Json.envelope (lit "snapshot") None).

Definition null_snapshot_frame : str :=
  Json.dumps (FM := numeral_floats) (Json.envelope (lit "snapshot") (Some PyNone)).

(** A value of every shape. *)
Definition mixed_value : pyval (FM := numeral_floats) :=
  PyList [PyInt (-12); PyStr [233; 10; 0x1f600]; PyNone; PyBool true; PyList [];
          PyDict [(lit "x", @PyFloat numeral_floats (lit "0.25"))]].

(** * Properties *)

(** ** How the primitives run

    One equation per primitive, for the first step of a sequence. *)

Module WsFacts.
Section Facts.
Context {line : Type}.
Implicit Types (w : world line).

Definition logged w (a : action line) : world line :=
  World (now w) (inbox w) (trace w ++ [a]).

Lemma bind_if_print {B : Type} (c : bool) (l1 l2 : line) (k : unit -> M B) w :
  bind (if c then print l1 else print l2) k w = k tt (logged w (Print (if c then l1 else l2))).
Proof. destruct c; reflexivity. Qed.

Lemma if_print (c : bool) (l1 l2 : line) w :
  (if c then print l1 else print l2) w = (Return tt, logged w (Print (if c then l1 else l2))).
Proof. destruct c; reflexivity. Qed.

Lemma print_run (l : line) w : print l w = (Return tt, logged w (Print l)).
Proof. reflexivity. Qed.

Lemma bind_ret {A B : Type} (a : A) (k : A -> M B) w :
  bind (ret a) k w = k a w.
Proof. reflexivity. Qed.

Lemma bind_print {B : Type} (l : line) (k : unit -> M B) w :
  bind (print l) k w = k tt (logged w (Print l)).
Proof. reflexivity. Qed.

Lemma bind_sleep {B : Type} (ms : N) (k : unit -> M B) w :
  bind (sleep ms) k w = k tt (World (now w + ms) (inbox w) (trace w ++ [Sleep ms])).
Proof. reflexivity. Qed.

Lemma bind_clock {B : Type} (k : N -> M B) w :
  bind clock k w = k (now w) w.
Proof. reflexivity. Qed.

Lemma bind_lift {A B : Type} (r : result A) (k : A -> M B) w :
  bind (lift r) k w = match r with Ok a => k a w | Err e => (Raise e, w) end.
Proof. destruct r; reflexivity. Qed.

Lemma bind_send {B : Type} (text : str) (k : unit -> M B) w :
  bind (send text) k w =
  if connection_closed w then (Raise ConnectionClosed, w) else k tt (logged w (Send text)).
Proof. unfold bind, send. destruct (connection_closed w); reflexivity. Qed.

Lemma bind_recv {B : Type} (k : str -> M B) w :
  bind recv k w =
  match inbox w with
  | [] => (Blocked, w)
  | (t, Frame text) :: rest =>
      k text (World (N.max (now w) t) rest (trace w ++ [Await None (Got text)]))
  | (t, Close) :: _ =>
      (Raise ConnectionClosed, World (N.max (now w) t) (inbox w) (trace w ++ [Await None Closed]))
  end.
Proof. unfold bind, recv, deliver. destruct (inbox w) as [|[t [text|]] rest]; reflexivity. Qed.

Lemma bind_wait_for_recv {B : Type} (seconds : N) (k : str -> M B) w :
  bind (wait_for_recv seconds) k w =
  let expire := (Raise TimeoutError,
                 World (now w + 1000 * seconds) (inbox w)
                       (trace w ++ [Await (Some seconds) Expired])) in
  match inbox w with
  | [] => expire
  | (t, ev) :: rest =>
      if t <? now w + 1000 * seconds then
        match ev with
        | Frame text =>
            k text (World (N.max (now w) t) rest
                          (trace w ++ [Await (Some seconds) (Got text)]))
        | Close =>
            (Raise ConnectionClosed,
             World (N.max (now w) t) (inbox w) (trace w ++ [Await (Some seconds) Closed]))
        end
      else expire
  end.
Proof.
  unfold bind, wait_for_recv, deliver.
  destruct (inbox w) as [|[t [text|]] rest]; try reflexivity;
    destruct (t <? now w + 1000 * seconds); reflexivity.
Qed.



(** A bounded wait resolves, within its bound, to a message, a timeout or
    the close. *)
Lemma wait_for_recv_resolves (seconds : N) w :
  ((exists text, fst (wait_for_recv seconds w) = Return text) \/
   fst (wait_for_recv seconds w) = Raise TimeoutError \/
   fst (wait_for_recv seconds w) = Raise ConnectionClosed) /\
  now (snd (wait_for_recv seconds w)) <= now w + 1000 * seconds.
Proof.
  unfold wait_for_recv, deliver.
  destruct (inbox w) as [|[t [text|]] rest]; cbn [fst snd now].
  - split; [now right; left | lia].
  - destruct (N.ltb_spec t (now w + 1000 * seconds)); cbn [fst snd now].
    + split; [left; now exists text | lia].
    + split; [now right; left | lia].
  - destruct (N.ltb_spec t (now w + 1000 * seconds)); cbn [fst snd now].
    + split; [now right; right | lia].
    + split; [now right; left | lia].
Qed.

Lemma exn_eqb_eq (a b : exn) : exn_eqb a b = true <-> a = b.
Proof. destruct a, b; cbn; split; congruence. Qed.

Lemma exn_eqb_neq (a b : exn) : a <> b -> exn_eqb a b = false.
Proof. destruct a, b; cbn; congruence. Qed.

Lemma bind_assoc {A B C : Type} (m : M A) (k : A -> M B) (h : B -> M C) w :
  bind (bind m k) h w = bind m (fun a => bind (k a) h) w.
Proof. unfold bind. destruct (m w) as [[a| | |] w']; reflexivity. Qed.

End Facts.
End WsFacts.

Create Rewrite HintDb ws.
#[export] Hint Rewrite @WsFacts.bind_ret @WsFacts.bind_print @WsFacts.bind_sleep @WsFacts.bind_clock
  @WsFacts.bind_lift @WsFacts.bind_send @WsFacts.bind_recv
  @WsFacts.bind_if_print @WsFacts.if_print @WsFacts.print_run @WsFacts.bind_wait_for_recv : ws.

(** Linear arithmetic with division and remainder by constants. *)
Ltac div_lia := zify; Z.to_euclidean_division_equations; lia.

(** Case analysis on how the computation recorded in hypothesis [B] goes
    on: the next primitive is run by its equation, and a test or a result
    the computation branches on is split into its cases. *)
Ltac ws_step B :=
  autorewrite with ws in B; cbn [now inbox trace app fst snd WsFacts.logged] in B;
  match type of B with
  | match ?x with _ => _ end = _ => destruct x eqn:?
  | (if ?c then _ else _) _ = _ => destruct c eqn:?
  | ret _ _ = _ => unfold ret in B
  | (_, _) = (_, _) => injection B as <- <-
  end.

(** ** Facts about values *)

Lemma str_eqb_eq (a b : str) : str_eqb a b = true <-> a = b.
Proof.
  revert b. induction a as [|x a IH]; intros [|y b]; cbn; split; try congruence; auto.
  - intros H. apply andb_true_iff in H. destruct H as [H1 H2].
    apply N.eqb_eq in H1. apply IH in H2. congruence.
  - intros [= -> ->]. apply andb_true_iff. split; [apply N.eqb_refl | now apply IH].
Qed.

Section ValueFacts.
Context {FM : FloatModel}.

(** Induction on values, through the lists of a [PyList] and a [PyDict]. *)
Lemma pyval_induction (P : pyval -> Prop) :
  P PyNone ->
  (forall b, P (PyBool b)) ->
  (forall z, P (PyInt z)) ->
  (forall f, P (PyFloat f)) ->
  (forall s, P (PyStr s)) ->
  (forall xs, Forall P xs -> P (PyList xs)) ->
  (forall kvs, Forall (fun kv => P (snd kv)) kvs -> P (PyDict kvs)) ->
  forall v, P v.
Proof.
  intros HN HB HI HF HS HL HD.
  fix IH 1.
  intros [ |b|z|f|s|xs|kvs];
    [exact HN | apply HB | apply HI | apply HF | apply HS | apply HL | apply HD].
  - induction xs as [|x xs IHxs]; constructor; [apply IH | exact IHxs].
  - induction kvs as [|[k v] kvs IHkvs]; constructor; [apply IH | exact IHkvs].
Qed.

Lemma dict_set_fresh (d : list (str * pyval)) (k : str) (v : pyval) :
  ~ In k (map fst d) -> dict_set d k v = d ++ [(k, v)].
Proof.
  induction d as [|[k' v'] d IH]; cbn; intros H; [reflexivity|].
  destruct (str_eqb k' k) eqn:E.
  - apply str_eqb_eq in E. tauto.
  - rewrite IH by tauto. reflexivity.
Qed.

(** A list of pairs with distinct keys is the [dict] made from it. *)
Lemma dict_of_distinct_pairs (kvs : list (str * pyval)) :
  NoDup (map fst kvs) -> dict_of_pairs kvs = kvs.
Proof.
  unfold dict_of_pairs.
  assert (G : forall acc,
             NoDup (map fst (acc ++ kvs)) ->
             fold_left (fun d kv => dict_set d (fst kv) (snd kv)) kvs acc = acc ++ kvs).
  { induction kvs as [|[k v] kvs IH]; intros acc H; cbn [fold_left].
    - now rewrite List.app_nil_r.
    - cbn [fst snd]. rewrite dict_set_fresh.
      + rewrite IH; rewrite <- List.app_assoc; [reflexivity | exact H].
      + rewrite map_app in H. cbn in H. apply NoDup_remove_2 in H.
        intros Hin. apply H. apply in_or_app. now left. }
  intros H. now apply (G []).
Qed.

End ValueFacts.

(** ** Facts about the codec *)

Module JsonFacts.
Import Json.
Section Facts.
Context {FM : FloatModel}.

(** The only way [loads] fails is [JSONDecodeError]. *)
Lemma loads_error (s : str) (e : exn) : loads s = Err e -> e = JSONDecodeError.
Proof.
  unfold loads.
  destruct (scan_once _ _) as [v rest| |]; [destruct (skip_ws rest)|..]; congruence.
Qed.

(** *** Fuel

    Scanning consumes its input: whatever is returned is shorter than what
    was given, and fuel above twice the length of the input never runs out.
    A failure of [loads] is therefore a failure of the decoder. *)

Definition consumes {A : Type} (r : scan A) (s : str) : Prop :=
  match r with
  | Scanned _ rest => (length rest < length s)%nat
  | Malformed => True
  | NoFuel => False
  end.

Lemma consumes_map {A B : Type} (f : A -> B) (r : scan A) (s : str) :
  consumes r s -> consumes (scan_map f r) s.
Proof. now destruct r. Qed.

Lemma consumes_longer {A : Type} (r : scan A) (s s' : str) :
  consumes r s -> (length s <= length s')%nat -> consumes r s'.
Proof. destruct r; cbn; auto; lia. Qed.

Lemma skip_ws_length (s : str) : (length (skip_ws s) <= length s)%nat.
Proof.
  induction s as [|c s IH]; cbn [skip_ws]; [lia|].
  destruct (is_ws c); cbn [length]; lia.
Qed.

Lemma decode_uXXXX_length (s : str) (u : N) (rest : str) :
  decode_uXXXX s = Some (u, rest) -> length s = (4 + length rest)%nat.
Proof.
  unfold decode_uXXXX.
  destruct s as [|h1 [|h2 [|h3 [|h4 s]]]]; try discriminate.
  destruct (hexval h1), (hexval h2), (hexval h3), (hexval h4); try discriminate.
  now intros [= _ <-].
Qed.

Lemma scanstring_fuel_enough (fuel : nat) (s : str) :
  (length s < fuel)%nat -> consumes (scanstring_fuel fuel s) s.
Proof.
  revert s. induction fuel as [|fuel IH]; intros s Hf; [lia|].
  cbn [scanstring_fuel].
  destruct s as [|c s1]; [exact I|]. cbn [length] in Hf.
  destruct (c =? QUOTE); [cbn; lia|].
  destruct (c =? BACKSLASH).
  - destruct s1 as [|esc s2]; [exact I|]. cbn [length] in Hf.
    destruct (esc =? ch "u").
    + destruct (decode_uXXXX s2) as [[uni s3]|] eqn:D; [|exact I].
      apply decode_uXXXX_length in D.
      assert (Single : consumes (scan_map (cons uni) (scanstring_fuel fuel s3))
                                (c :: esc :: s2)).
      { apply consumes_map. eapply consumes_longer; [apply IH; lia | cbn [length]; lia]. }
      cbv zeta. destruct (is_high_surrogate uni); [|exact Single].
      destruct s3 as [|b [|u s4]]; try exact Single.
      destruct ((b =? BACKSLASH) && (u =? ch "u")); [|exact Single].
      destruct (decode_uXXXX s4) as [[uni2 s5]|] eqn:D2; [|exact I].
      apply decode_uXXXX_length in D2. cbn [length] in D.
      destruct (is_low_surrogate uni2); [|exact Single].
      apply consumes_map. eapply consumes_longer; [apply IH; lia | cbn [length]; lia].
    + destruct (unescape esc); [|exact I].
      apply consumes_map. eapply consumes_longer; [apply IH; lia | cbn [length]; lia].
  - destruct (c <? 32); [exact I|].
    apply consumes_map. eapply consumes_longer; [apply IH; lia | cbn [length]; lia].
Qed.

Lemma scanstring_consumes (s : str) : consumes (scanstring s) (QUOTE :: s).
Proof.
  eapply consumes_longer; [apply scanstring_fuel_enough; lia | cbn [length]; lia].
Qed.

Lemma strip_prefix_length (p s rest : str) :
  strip_prefix p s = Some rest -> length s = (length p + length rest)%nat.
Proof.
  revert s. induction p as [|x p IH]; intros [|y s]; cbn [strip_prefix length];
    try discriminate; try (intros [= <-]; reflexivity).
  destruct (x =? y); [|discriminate]. intros H. apply IH in H. lia.
Qed.

Lemma span_digits_length (s : str) :
  length s = (length (fst (span_digits s)) + length (snd (span_digits s)))%nat.
Proof.
  induction s as [|c s IH]; [reflexivity|]. cbn [span_digits].
  destruct (is_digit c); [|reflexivity].
  destruct (span_digits s) as [ds rest]. cbn [fst snd length] in *. lia.
Qed.

Lemma match_integer_length (s integer rest : str) :
  match_integer s = Some (integer, rest) -> (length rest < length s)%nat.
Proof.
  unfold match_integer.
  assert (G : forall sign s0,
             match s0 with
             | [] => None
             | c :: s1 =>
                 if c =? ch "0" then Some (sign ++ [c], s1)
                 else if is_digit c
                      then let (ds, rest) := span_digits s1 in Some (sign ++ c :: ds, rest)
                      else None
             end = Some (integer, rest) -> (length rest < length s0)%nat).
  { intros sign [|c s1]; [discriminate|].
    destruct (c =? ch "0"); [intros [= _ <-]; cbn; lia|].
    destruct (is_digit c); [|discriminate].
    pose proof (span_digits_length s1) as L.
    destruct (span_digits s1) as [ds r]. intros [= _ <-]. cbn [fst snd length] in *. lia. }
  destruct s as [|c s']; [discriminate|].
  destruct (c =? ch "-"); intros H;
    [apply (G [c] s') in H | apply (G [] (c :: s')) in H]; cbn [length] in *; lia.
Qed.

Lemma match_frac_length (s : str) : (length (snd (match_frac s)) <= length s)%nat.
Proof.
  unfold match_frac. destruct s as [|c s1]; [cbn; lia|].
  destruct (c =? ch "."); [|cbn; lia].
  pose proof (span_digits_length s1) as L.
  destruct (span_digits s1) as [[|d ds] r]; cbn [fst snd length] in *; lia.
Qed.

Lemma match_exp_length (s : str) : (length (snd (match_exp s)) <= length s)%nat.
Proof.
  unfold match_exp. destruct s as [|c s1]; [cbn; lia|].
  destruct ((c =? ch "e") || (c =? ch "E")); [|cbn; lia].
  destruct s1 as [|g s']; [cbn; lia|].
  destruct ((g =? ch "-") || (g =? ch "+")).
  - pose proof (span_digits_length s') as L.
    destruct (span_digits s') as [[|d ds] r]; cbn [fst snd length] in *; lia.
  - pose proof (span_digits_length (g :: s')) as L.
    destruct (span_digits (g :: s')) as [[|d ds] r]; cbn [fst snd length] in *; lia.
Qed.

Lemma scan_number_consumes (s : str) : consumes (scan_number s) s.
Proof.
  unfold scan_number, match_number.
  destruct (match_integer s) as [[integer s1]|] eqn:M.
  - apply match_integer_length in M.
    pose proof (match_frac_length s1) as F.
    destruct (match_frac s1) as [frac s2]. cbn [snd] in F.
    pose proof (match_exp_length s2) as E.
    destruct (match_exp s2) as [exp s3]. cbn [snd] in E.
    destruct frac, exp; cbn; lia.
  - destruct (strip_prefix (lit "NaN") s) eqn:P1;
      [apply strip_prefix_length in P1; cbn in *; lia|].
    destruct (strip_prefix (lit "Infinity") s) eqn:P2;
      [apply strip_prefix_length in P2; cbn in *; lia|].
    destruct (strip_prefix (lit "-Infinity") s) eqn:P3;
      [apply strip_prefix_length in P3; cbn in *; lia|].
    exact I.
Qed.

Lemma scan_fuel_enough (fuel : nat) :
  (forall s, (2 * length s < fuel)%nat -> consumes (scan_once fuel s) s) /\
  (forall s, (2 * length s + 1 < fuel)%nat -> consumes (parse_items fuel s) s) /\
  (forall s, (2 * length s + 1 < fuel)%nat -> consumes (parse_pairs fuel s) (QUOTE :: s)).
Proof.
  induction fuel as [|fuel (IHv & IHi & IHp)]; [repeat split; intros; lia|].
  split; [|split]; intros s Hf.
  - cbn [scan_once]. destruct s as [|c s1]; [exact I|]. cbn [length] in Hf.
    destruct (c =? QUOTE).
    { apply consumes_map. eapply consumes_longer; [apply scanstring_consumes | cbn; lia]. }
    destruct (c =? ch "{").
    { pose proof (skip_ws_length s1) as L.
      destruct (skip_ws s1) as [|c2 s2]; [exact I|]. cbn [length] in L.
      destruct (c2 =? ch "}"); [cbn; lia|].
      destruct (c2 =? QUOTE); [|exact I].
      apply consumes_map. eapply consumes_longer; [apply IHp; lia | cbn [length]; lia]. }
    destruct (c =? ch "[").
    { pose proof (skip_ws_length s1) as L.
      destruct (skip_ws s1) as [|c2 s2]; [exact I|]. cbn [length] in L.
      destruct (c2 =? ch "]"); [cbn; lia|].
      apply consumes_map.
      eapply consumes_longer; [apply IHi; cbn [length]; lia | cbn [length]; lia]. }
    destruct (strip_prefix (lit "null") (c :: s1)) eqn:P1;
      [apply strip_prefix_length in P1; cbn in *; lia|].
    destruct (strip_prefix (lit "true") (c :: s1)) eqn:P2;
      [apply strip_prefix_length in P2; cbn in *; lia|].
    destruct (strip_prefix (lit "false") (c :: s1)) eqn:P3;
      [apply strip_prefix_length in P3; cbn in *; lia|].
    apply scan_number_consumes.
  - cbn [parse_items].
    assert (Hv : consumes (scan_once fuel s) s) by (apply IHv; lia).
    destruct (scan_once fuel s) as [v s1| |]; cbn [consumes] in Hv; try exact Hv.
    pose proof (skip_ws_length s1) as L.
    destruct (skip_ws s1) as [|c s2]; [exact I|]. cbn [length] in L.
    destruct (c =? ch "]"); [cbn; lia|].
    destruct (c =? ch ","); [|exact I].
    pose proof (skip_ws_length s2) as L2.
    apply consumes_map. eapply consumes_longer; [apply IHi; lia | lia].
  - cbn [parse_pairs].
    pose proof (scanstring_consumes s) as Hk.
    destruct (scanstring s) as [key s1| |]; cbn [consumes length] in Hk; try exact Hk.
    pose proof (skip_ws_length s1) as L.
    destruct (skip_ws s1) as [|c s2]; [exact I|]. cbn [length] in L.
    destruct (c =? ch ":"); [|exact I].
    pose proof (skip_ws_length s2) as L2.
    assert (Hv : consumes (scan_once fuel (skip_ws s2)) (skip_ws s2)) by (apply IHv; lia).
    destruct (scan_once fuel (skip_ws s2)) as [v s3| |]; cbn [consumes] in Hv; try exact Hv.
    pose proof (skip_ws_length s3) as L3.
    destruct (skip_ws s3) as [|d s4]; [exact I|]. cbn [length] in L3.
    destruct (d =? ch "}"); [cbn; lia|].
    destruct (d =? ch ","); [|exact I].
    pose proof (skip_ws_length s4) as L4.
    destruct (skip_ws s4) as [|q s5]; [exact I|]. cbn [length] in L4.
    destruct (q =? QUOTE); [|exact I].
    apply consumes_map.
    eapply consumes_longer; [apply IHp; lia | cbn [length]; lia].
Qed.

(** The fuel [loads] supplies never runs out. *)
Lemma scan_once_fuel (s : str) : scan_once (2 * length s + 2) (skip_ws s) <> NoFuel.
Proof.
  pose proof (skip_ws_length s) as L.
  pose proof (proj1 (scan_fuel_enough (2 * length s + 2)) (skip_ws s) ltac:(lia)) as H.
  intros E. now rewrite E in H.
Qed.

(** *** Strings *)

Ltac decide_tests :=
  repeat match goal with
         | |- context [?a <=? ?b] => destruct (N.leb_spec a b); try lia
         | |- context [?a <? ?b] => destruct (N.ltb_spec a b); try lia
         | |- context [?a =? ?b] => destruct (N.eqb_spec a b); try lia
         end;
  cbn [andb orb].

Lemma hexval_hexdigit (d : N) : d < 16 -> hexval (hexdigit d) = Some d.
Proof.
  intros H. unfold hexval, hexdigit, is_digit.
  destruct (N.ltb_spec d 10); decide_tests; f_equal; lia.
Qed.

Lemma hex_digits_value (n : N) :
  n < 0x10000 ->
  ((n / 4096 mod 16 * 16 + n / 256 mod 16) * 16 + n / 16 mod 16) * 16 + n mod 16 = n.
Proof.
  intros H.
  change 4096 with (16 * 16 * 16). change 256 with (16 * 16).
  rewrite <- !N.Div0.div_div.
  pose proof (N.div_mod n 16 ltac:(discriminate)).
  pose proof (N.div_mod (n / 16) 16 ltac:(discriminate)).
  pose proof (N.div_mod (n / 16 / 16) 16 ltac:(discriminate)).
  pose proof (N.div_mod (n / 16 / 16 / 16) 16 ltac:(discriminate)).
  assert (E : n / 16 / 16 / 16 / 16 = 0)
    by (rewrite !N.Div0.div_div; apply N.div_small; exact H).
  rewrite E in *. lia.
Qed.

Lemma decode_hex4 (n : N) (rest : str) :
  n < 0x10000 -> decode_uXXXX (hex4 n ++ rest) = Some (n, rest).
Proof.
  intros H. unfold hex4, decode_uXXXX. cbn [app].
  rewrite !hexval_hexdigit by (apply N.mod_lt; discriminate).
  now rewrite hex_digits_value.
Qed.

Lemma lor_high_low (k x : N) : x < 1024 -> N.lor (k * 1024) x = k * 1024 + x.
Proof.
  intros H.
  assert (Z : N.land (k * 1024) x = 0).
  { rewrite <- (N.mod_small x 1024) by assumption.
    change 1024 with (2 ^ 10).
    rewrite <- N.land_ones, (N.land_comm x), N.land_assoc, N.land_ones.
    rewrite N.Div0.mod_mul. apply N.land_0_l. }
  rewrite <- N.lxor_lor by assumption. symmetry. now apply N.add_nocarry_lxor.
Qed.

Lemma surrogates_join (c : N) :
  0x10000 <= c -> c < 0x110000 ->
  let n := c - 0x10000 in
  let hi := N.lor 0xd800 (N.land (N.shiftr n 10) 0x3ff) in
  let lo := N.lor 0xdc00 (N.land n 0x3ff) in
  is_high_surrogate hi = true /\ is_low_surrogate lo = true /\
  hi < 0x10000 /\ lo < 0x10000 /\ join_surrogates hi lo = c.
Proof.
  intros H1 H2. cbv zeta.
  remember (c - 0x10000) as n eqn:En.
  assert (Hn : n < 0x100000) by lia.
  assert (Hhi : N.lor 0xd800 (N.land (N.shiftr n 10) 0x3ff) = 0xd800 + n / 1024).
  { change 0x3ff with (N.ones 10). rewrite N.land_ones, N.shiftr_div_pow2.
    change (2 ^ 10) with 1024. rewrite (N.mod_small (n / 1024)) by div_lia.
    change 0xd800 with (54 * 1024). apply lor_high_low. div_lia. }
  assert (Hlo : N.lor 0xdc00 (N.land n 0x3ff) = 0xdc00 + n mod 1024).
  { change 0x3ff with (N.ones 10). rewrite N.land_ones.
    change (2 ^ 10) with 1024. change 0xdc00 with (55 * 1024).
    apply lor_high_low. div_lia. }
  unfold is_high_surrogate, is_low_surrogate, join_surrogates.
  rewrite Hhi, Hlo.
  rewrite (N.add_comm 0xd800), (N.add_comm 0xdc00), !N.add_sub.
  rewrite N.shiftl_mul_pow2. change (2 ^ 10) with 1024.
  rewrite lor_high_low by div_lia.
  repeat split; try (apply andb_true_iff; split; apply N.leb_le); div_lia.
Qed.

(** Scanning what the encoder wrote for one scalar value gives it back. *)
Lemma scan_escape_char (c : N) (fuel : nat) (rest : str) :
  scalar_value c ->
  scanstring_fuel (S fuel) (escape_char c ++ rest)
  = scan_map (cons c) (scanstring_fuel fuel rest).
Proof.
  intros Hc. unfold escape_char.
  destruct (N.eqb_spec c QUOTE) as [->|]; [reflexivity|].
  destruct (N.eqb_spec c BACKSLASH) as [->|]; [reflexivity|].
  destruct (N.eqb_spec c 8) as [->|]; [reflexivity|].
  destruct (N.eqb_spec c 12) as [->|]; [reflexivity|].
  destruct (N.eqb_spec c 10) as [->|]; [reflexivity|].
  destruct (N.eqb_spec c 13) as [->|]; [reflexivity|].
  destruct (N.eqb_spec c 9) as [->|]; [reflexivity|].
  unfold QUOTE, BACKSLASH in *.
  destruct ((32 <=? c) && (c <=? 126)) eqn:Hp.
  - apply andb_true_iff in Hp. destruct Hp as [H1 H2].
    apply N.leb_le in H1, H2. cbn [app scanstring_fuel].
    unfold QUOTE, BACKSLASH. decide_tests. reflexivity.
  - destruct (N.ltb_spec c 0x10000).
    + unfold u_escape. cbn [app scanstring_fuel]. cbn [N.eqb Pos.eqb QUOTE BACKSLASH ch N_of_ascii N_of_digits].
      rewrite decode_hex4 by assumption.
      assert (Hs : is_high_surrogate c = false).
      { unfold is_high_surrogate, scalar_value in *. decide_tests; reflexivity. }
      now rewrite Hs.
    + assert (H2 : c < 0x110000) by (unfold scalar_value in Hc; lia).
      destruct (surrogates_join c H H2) as (Hhi & Hlo & Bhi & Blo & Hj).
      cbv zeta in *. unfold u_escape. rewrite <- List.app_assoc.
      cbn [app scanstring_fuel].
      cbn [N.eqb Pos.eqb QUOTE BACKSLASH ch N_of_ascii N_of_digits].
      rewrite decode_hex4 by assumption. rewrite Hhi.
      cbn [N.eqb Pos.eqb QUOTE BACKSLASH ch N_of_ascii N_of_digits andb].
      rewrite decode_hex4 by assumption. now rewrite Hlo, Hj.
Qed.

Lemma scan_escaped (s : str) :
  string_ok s ->
  forall fuel rest,
    (length s < fuel)%nat ->
    scanstring_fuel fuel (flat_map escape_char s ++ QUOTE :: rest) = Scanned s rest.
Proof.
  induction 1 as [|c s Hc Hs IH]; intros fuel rest Hf;
    (destruct fuel as [|fuel]; [cbn in Hf; lia|]).
  - reflexivity.
  - cbn [flat_map]. rewrite <- List.app_assoc, scan_escape_char by assumption.
    rewrite IH by (cbn in Hf; lia). reflexivity.
Qed.

(** *** Numbers *)

Lemma uint_of_uint_chars (d : Decimal.uint) : uint_of_chars (uint_chars d) = d.
Proof. induction d; cbn [uint_chars uint_of_chars]; rewrite ?IHd; reflexivity. Qed.

Lemma span_uint_chars (d : Decimal.uint) (rest : str) :
  ends_value rest -> span_digits (uint_chars d ++ rest) = (uint_chars d, rest).
Proof.
  intros H.
  induction d; cbn [uint_chars app span_digits];
    try (change (is_digit (digit_char _)) with true; cbv iota; rewrite IHd; reflexivity).
  destruct rest as [|c rest]; [reflexivity|]. cbn [span_digits].
  replace (is_digit c) with false; [reflexivity|].
  unfold is_digit. cbn in H. destruct H as [-> | [-> | ->]]; reflexivity.
Qed.

Definition leading_nonzero (d : Decimal.uint) : Prop :=
  match d with
  | Decimal.Nil | Decimal.D0 _ => False
  | _ => True
  end.

Lemma nzhead_head (u : Decimal.uint) :
  match Decimal.nzhead u with
  | Decimal.D0 _ => False
  | _ => True
  end.
Proof. induction u; cbn; auto. Qed.

Lemma to_uint_leading (p : positive) : leading_nonzero (Pos.to_uint p).
Proof.
  assert (U : Decimal.unorm (Pos.to_uint p) = Pos.to_uint p).
  { rewrite <- (DecimalPos.Unsigned.to_of (Pos.to_uint p)).
    now rewrite DecimalPos.Unsigned.of_to. }
  pose proof (DecimalPos.Unsigned.to_uint_nonzero p) as Z.
  pose proof (DecimalPos.Unsigned.to_uint_nonnil p) as Nn.
  destruct (Pos.to_uint p) as [|d| | | | | | | | |]; cbn; auto.
  exfalso. rewrite DecimalFacts.unorm_D0 in U. unfold Decimal.unorm in U.
  pose proof (nzhead_head d) as Hh.
  destruct (Decimal.nzhead d); try contradiction; try discriminate U.
  injection U as <-. now apply Z.
Qed.

Lemma match_integer_uint (d : Decimal.uint) (rest : str) :
  leading_nonzero d -> ends_value rest ->
  match_integer (uint_chars d ++ rest) = Some (uint_chars d, rest) /\
  match_integer (ch "-" :: uint_chars d ++ rest) = Some (ch "-" :: uint_chars d, rest).
Proof.
  intros Hd Hr. unfold match_integer.
  destruct d; try contradiction; cbn [uint_chars app];
    change (ch "-" =? ch "-") with true; cbv iota;
    change (digit_char _ =? ch "-") with false;
    change (digit_char _ =? ch "0") with false;
    change (is_digit (digit_char _)) with true; cbv iota;
    rewrite span_uint_chars by assumption; split; reflexivity.
Qed.

Lemma ends_value_no_fraction (rest : str) :
  ends_value rest -> match_frac rest = ([], rest) /\ match_exp rest = ([], rest).
Proof.
  destruct rest as [|c rest]; [split; reflexivity|].
  intros [-> | [-> | ->]]; split; reflexivity.
Qed.

Lemma match_number_int (z : Z) (rest : str) :
  ends_value rest ->
  match_number (int_repr z ++ rest) = Some (int_repr z, [], [], rest).
Proof.
  intros Hr. unfold match_number, int_repr.
  destruct (ends_value_no_fraction rest Hr) as [Hf He].
  destruct z as [|p|p]; cbn [Z.to_int].
  - cbn [uint_chars app]. unfold match_integer.
    change (digit_char 0 =? ch "-") with false. cbv iota.
    change (digit_char 0 =? ch "0") with true. cbv iota.
    cbn [app]. now rewrite Hf, He.
  - destruct (match_integer_uint (Pos.to_uint p) rest (to_uint_leading p) Hr) as [-> _].
    now rewrite Hf, He.
  - cbn [app].
    destruct (match_integer_uint (Pos.to_uint p) rest (to_uint_leading p) Hr) as [_ ->].
    now rewrite Hf, He.
Qed.

Lemma uint_chars_head (d : Decimal.uint) :
  leading_nonzero d ->
  exists c s, uint_chars d = c :: s /\ is_digit c = true /\ (c =? ch "0") = false.
Proof.
  destruct d; try contradiction; intros _; cbn [uint_chars];
    eexists; eexists; repeat split.
Qed.

Lemma int_of_int_repr (z : Z) : int_of_str (int_repr z) = z.
Proof.
  unfold int_of_str, int_repr.
  pose proof (DecimalZ.of_to z) as E.
  destruct z as [|p|p]; cbn [Z.to_int] in *.
  - reflexivity.
  - destruct (uint_chars_head _ (to_uint_leading p)) as (c & s & Es & Hd & _).
    rewrite Es.
    replace (c =? ch "-") with false
      by (unfold is_digit in Hd; cbn [ch N_of_ascii N_of_digits]; symmetry;
          apply N.eqb_neq; intros ->; discriminate Hd).
    now rewrite <- Es, uint_of_uint_chars.
  - change (ch "-" =? ch "-") with true. cbv iota. now rewrite uint_of_uint_chars.
Qed.

(** *** Values *)

Lemma scan_once_number (fuel : nat) (c : N) (s : str) :
  is_digit c = true \/ c = ch "-" ->
  scan_once (S fuel) (c :: s) = scan_number (c :: s).
Proof.
  intros H. cbn [scan_once strip_prefix lit map list_ascii_of_string].
  assert (c = 45 \/ (48 <= c /\ c <= 57)) as Hc.
  { destruct H as [H | ->]; [right | now left].
    unfold is_digit in H. apply andb_true_iff in H. destruct H as [H1 H2].
    apply N.leb_le in H1, H2. now split. }
  cbn [ch N_of_ascii N_of_digits N.add N.mul Pos.add Pos.mul Pos.succ QUOTE].
  unfold QUOTE. decide_tests. reflexivity.
Qed.

Lemma scan_int (z : Z) (fuel : nat) (rest : str) :
  ends_value rest -> scan_once (S fuel) (int_repr z ++ rest) = Scanned (PyInt z) rest.
Proof.
  intros Hr.
  assert (H : exists c s, int_repr z = c :: s /\ (is_digit c = true \/ c = ch "-")).
  { unfold int_repr. destruct z as [|p|p]; cbn [Z.to_int].
    - now exists (digit_char 0), []; split; [|left].
    - destruct (uint_chars_head _ (to_uint_leading p)) as (c & s & Es & Hd & _).
      exists c, s. split; [assumption | now left].
    - eexists; eexists; split; [reflexivity | now right]. }
  destruct H as (c & s & E & Hc).
  rewrite E. cbn [app]. rewrite scan_once_number by assumption.
  change (c :: s ++ rest) with ((c :: s) ++ rest). rewrite <- E.
  unfold scan_number. rewrite match_number_int by assumption.
  now rewrite int_of_int_repr.
Qed.

Lemma escape_char_length (c : N) : (1 <= length (escape_char c))%nat.
Proof.
  unfold escape_char, u_escape.
  repeat match goal with
         | |- context [if ?b then _ else _] => destruct b
         end; cbn; try rewrite length_app; cbn; lia.
Qed.

Lemma escaped_length (s : str) : (length s <= length (flat_map escape_char s))%nat.
Proof.
  induction s as [|c s IH]; cbn [flat_map length]; [lia|].
  rewrite length_app. pose proof (escape_char_length c). lia.
Qed.

Lemma scan_basestring (s rest : str) :
  string_ok s ->
  scanstring (flat_map escape_char s ++ QUOTE :: rest) = Scanned s rest.
Proof.
  intros H. unfold scanstring. apply scan_escaped; [assumption|].
  rewrite length_app. pose proof (escaped_length s). cbn [length]. lia.
Qed.

Lemma scan_str (s : str) (fuel : nat) (rest : str) :
  string_ok s ->
  scan_once (S fuel) (encode_basestring_ascii s ++ rest) = Scanned (PyStr s) rest.
Proof.
  intros H. unfold encode_basestring_ascii.
  cbn [app scan_once]. change (QUOTE =? QUOTE) with true. cbv iota.
  rewrite <- List.app_assoc. cbn [app]. now rewrite scan_basestring.
Qed.

(** A character at which a value can start: neither white space nor a
    closing bracket. *)
Definition value_start (c : N) : Prop := is_ws c = false /\ (c =? ch "]") = false.

Lemma scan_once_value_start (fuel : nat) (c : N) (s : str) (v : pyval) (rest : str) :
  scan_once (S fuel) (c :: s) = Scanned v rest -> value_start c.
Proof.
  intros H. unfold value_start, is_ws.
  destruct (N.eqb_spec c 32) as [->|]; [discriminate H|].
  destruct (N.eqb_spec c 9) as [->|]; [discriminate H|].
  destruct (N.eqb_spec c 10) as [->|]; [discriminate H|].
  destruct (N.eqb_spec c 13) as [->|]; [discriminate H|].
  destruct (N.eqb_spec c (ch "]")) as [->|]; [discriminate H|].
  now split.
Qed.

Lemma dumps_head (v : pyval) :
  json_ok v -> exists c s, dumps v = c :: s /\ value_start c.
Proof.
  destruct v as [ |[|]|z|f|s|xs|kvs]; intros Hv; cbn [dumps];
    try (eexists; eexists; split; [reflexivity | split; reflexivity]).
  - pose proof (scan_int z 0 [] I) as H.
    destruct (int_repr z ++ []) as [|c s] eqn:E; [discriminate H|].
    rewrite List.app_nil_r in E. exists c, s. split; [assumption|].
    eapply scan_once_value_start. eassumption.
  - pose proof (Hv 0%nat [] I) as H.
    destruct (floatstr f ++ []) as [|c s] eqn:E; [discriminate H|].
    rewrite List.app_nil_r in E. exists c, s. split; [assumption|].
    eapply scan_once_value_start. eassumption.
Qed.

Lemma skip_ws_start (c : N) (s : str) : value_start c -> skip_ws (c :: s) = c :: s.
Proof. intros [H _]. cbn [skip_ws]. now rewrite H. Qed.

Lemma skip_ws_dumps (v : pyval) (rest : str) :
  json_ok v -> skip_ws (dumps v ++ rest) = dumps v ++ rest.
Proof.
  intros H. destruct (dumps_head v H) as (c & s & -> & Hc). now apply skip_ws_start.
Qed.

Definition weight (xs : list pyval) : nat :=
  (fix weight (xs : list pyval) : nat :=
     match xs with
     | [] => O
     | x :: xs' => S (size x + weight xs')
     end) xs.

Definition pairs_weight (kvs : list (str * pyval)) : nat :=
  (fix weight (kvs : list (str * pyval)) : nat :=
     match kvs with
     | [] => O
     | kv :: kvs' => S (size (snd kv) + weight kvs')
     end) kvs.

Definition all_ok (xs : list pyval) : Prop :=
  (fix all (xs : list pyval) : Prop :=
     match xs with
     | [] => True
     | x :: xs' => json_ok x /\ all xs'
     end) xs.

Definition pairs_ok (kvs : list (str * pyval)) : Prop :=
  (fix all (kvs : list (str * pyval)) : Prop :=
     match kvs with
     | [] => True
     | kv :: kvs' => string_ok (fst kv) /\ json_ok (snd kv) /\ all kvs'
     end) kvs.

(** The statement proved by induction on the value. *)
Definition reads_back (v : pyval) : Prop :=
  json_ok v ->
  forall fuel rest,
    (size v <= fuel)%nat -> ends_value rest ->
    scan_once fuel (dumps v ++ rest) = Scanned v rest.

Lemma items_read_back (xs : list pyval) :
  Forall reads_back xs -> all_ok xs -> xs <> [] ->
  forall fuel rest,
    (weight xs <= fuel)%nat ->
    parse_items fuel (join (lit ", ") (map dumps xs) ++ ch "]" :: rest) = Scanned xs rest.
Proof.
  induction 1 as [|x xs Hx Hxs IH]; intros Hok Hne fuel rest Hf; [congruence|].
  destruct Hok as [Hokx Hokxs].
  change (weight (x :: xs)) with (S (size x + weight xs)) in Hf.
  destruct fuel as [|fuel]; [lia|]. cbn [parse_items].
  destruct xs as [|y xs].
  - cbn [map join]. rewrite Hx; [|assumption|lia|now right; left].
    cbn [skip_ws is_ws]. reflexivity.
  - change (join (lit ", ") (map dumps (x :: y :: xs)))
      with (dumps x ++ lit ", " ++ join (lit ", ") (map dumps (y :: xs))).
    rewrite <- !List.app_assoc.
    rewrite Hx; [|assumption|lia|now left].
    cbn [lit list_ascii_of_string map app skip_ws is_ws].
    change (N_of_ascii ",") with (ch ","). cbn [ch N_of_ascii N_of_digits]. cbn -[join].
    change (map dumps (y :: xs)) with (dumps y :: map dumps xs) in *.
    assert (Hs : forall r, skip_ws (join (lit ", ") (dumps y :: map dumps xs) ++ r)
                           = join (lit ", ") (dumps y :: map dumps xs) ++ r).
    { intros r. destruct Hokxs as [Hy _].
      destruct (dumps_head y Hy) as (c & s & E & Hc).
      destruct (map dumps xs); cbn [join]; rewrite E; cbn [app]; now apply skip_ws_start. }
    rewrite Hs. rewrite IH; [reflexivity | assumption | discriminate |].
    change (weight (y :: xs)) with (S (size y + weight xs)) in *. lia.
Qed.

Definition pair_text (kv : str * pyval) : str :=
  encode_basestring_ascii (fst kv) ++ lit ": " ++ dumps (snd kv).

Lemma pairs_read_back (kvs : list (str * pyval)) :
  Forall (fun kv => reads_back (snd kv)) kvs -> pairs_ok kvs -> kvs <> [] ->
  forall fuel rest body,
    (pairs_weight kvs <= fuel)%nat ->
    join (lit ", ") (map pair_text kvs) ++ ch "}" :: rest = QUOTE :: body ->
    parse_pairs fuel body = Scanned kvs rest.
Proof.
  induction 1 as [|[k v] kvs Hv Hkvs IH]; intros Hok Hne fuel rest body Hf Hb; [congruence|].
  destruct Hok as (Hk & Hokv & Hokkvs). cbn [fst snd] in *.
  change (pairs_weight ((k, v) :: kvs)) with (S (size v + pairs_weight kvs)) in Hf.
  destruct fuel as [|fuel]; [lia|]. cbn [parse_pairs].
  assert (Hbody : exists tail,
             body = flat_map escape_char k ++ QUOTE :: ch ":" :: 32 :: dumps v ++ tail /\
             match kvs with
             | [] => tail = ch "}" :: rest
             | _ :: _ => tail = ch "," :: 32 :: join (lit ", ") (map pair_text kvs)
                                  ++ ch "}" :: rest
             end).
  { destruct kvs as [|kv kvs].
    - exists (ch "}" :: rest). split; [|reflexivity].
      cbn [map join] in Hb. unfold pair_text, encode_basestring_ascii in Hb.
      cbn [fst snd] in Hb. rewrite <- !List.app_assoc in Hb. cbn [app] in Hb.
      rewrite <- !List.app_assoc in Hb. now injection Hb as <-.
    - eexists. split; [|reflexivity].
      change (join (lit ", ") (map pair_text ((k, v) :: kv :: kvs)))
        with (pair_text (k, v) ++ lit ", " ++ join (lit ", ") (map pair_text (kv :: kvs)))
        in Hb.
      unfold pair_text at 1, encode_basestring_ascii in Hb.
      cbn [fst snd] in Hb. rewrite <- !List.app_assoc in Hb. cbn [app] in Hb.
      rewrite <- !List.app_assoc in Hb. now injection Hb as <-. }
  destruct Hbody as (tail & -> & Htail).
  rewrite scan_basestring by assumption.
  cbn [skip_ws is_ws ch N_of_ascii N_of_digits]. cbn -[dumps skip_ws scan_once parse_pairs].
  cbn [skip_ws is_ws]. cbn -[dumps skip_ws scan_once parse_pairs].
  rewrite skip_ws_dumps by assumption.
  destruct kvs as [|kv kvs].
  - subst tail. rewrite Hv; [|assumption|lia|now right; right].
    cbn [skip_ws is_ws]. reflexivity.
  - subst tail. rewrite Hv; [|assumption|lia|now left].
    cbn [skip_ws is_ws ch N_of_ascii N_of_digits].
    cbn -[join skip_ws scan_once parse_pairs map dumps].
    cbn [skip_ws is_ws]. cbn -[join skip_ws scan_once parse_pairs map dumps].
    assert (Hq : exists body', join (lit ", ") (map pair_text (kv :: kvs)) ++ ch "}" :: rest
                               = QUOTE :: body').
    { change (map pair_text (kv :: kvs)) with (pair_text kv :: map pair_text kvs).
      destruct (map pair_text kvs); cbn [join]; unfold pair_text at 1, encode_basestring_ascii;
        cbn [app]; eexists; reflexivity. }
    destruct Hq as (body' & Hq).
    change (125 :: rest) with (ch "}" :: rest). rewrite Hq.
    cbn [skip_ws is_ws QUOTE]. cbn -[join skip_ws scan_once parse_pairs map dumps].
    rewrite (IH Hokkvs ltac:(discriminate) fuel rest body'); [reflexivity | | exact Hq].
    change (pairs_weight (kv :: kvs)) with (S (size (snd kv) + pairs_weight kvs)) in *. lia.
Qed.

Lemma all_ok_forall (xs : list pyval) : json_ok (PyList xs) -> all_ok xs.
Proof. auto. Qed.

(** Scanning the text of a JSON-compatible value, followed by something
    that can follow a value, gives the value and leaves what follows. *)
Lemma scan_dumps (v : pyval) : reads_back v.
Proof.
  induction v as [ |b|z|f|s|xs IH|kvs IH] using pyval_induction;
    intros Hv fuel rest Hf Hr.
  - destruct fuel; [cbn in Hf; lia|]. reflexivity.
  - destruct fuel; [cbn in Hf; lia|]. destruct b; reflexivity.
  - destruct fuel; [cbn in Hf; lia|]. now apply scan_int.
  - destruct fuel; [cbn in Hf; lia|]. now apply Hv.
  - destruct fuel; [cbn in Hf; lia|]. now apply scan_str.
  - change (size (PyList xs)) with (S (weight xs)) in Hf.
    destruct fuel as [|fuel]; [lia|].
    destruct xs as [|x xs]; [reflexivity|].
    cbn [dumps app scan_once]. cbn [ch N_of_ascii N_of_digits QUOTE]. cbn -[join skip_ws parse_items map dumps].
    rewrite <- List.app_assoc.
    assert (Hh : exists c s, join (lit ", ") (map dumps (x :: xs)) ++ [93] ++ rest = c :: s
                             /\ value_start c).
    { destruct Hv as [Hx _]. destruct (dumps_head x Hx) as (c & s & E & Hc).
      cbn [map]. destruct (map dumps xs); cbn [join]; rewrite E; cbn [app];
        eexists; eexists; split; try reflexivity; assumption. }
    destruct Hh as (c & s & E & Hc). rewrite E, skip_ws_start by assumption.
    destruct Hc as [_ Hc]. cbn [ch N_of_ascii N_of_digits] in Hc.
    cbn -[parse_items] in Hc. rewrite Hc. rewrite <- E.
    change ([93] ++ rest) with (ch "]" :: rest).
    rewrite (items_read_back (x :: xs) IH Hv ltac:(discriminate) fuel rest); [reflexivity|].
    lia.
  - change (size (PyDict kvs)) with (S (pairs_weight kvs)) in Hf.
    destruct fuel as [|fuel]; [lia|].
    destruct kvs as [|kv kvs]; [reflexivity|].
    destruct Hv as [Hnd Hok].
    cbn [dumps app scan_once]. cbn [ch N_of_ascii N_of_digits QUOTE]. cbn -[join skip_ws parse_pairs map dumps].
    rewrite <- List.app_assoc.
    assert (Hq : exists body,
               join (lit ", ") (map pair_text (kv :: kvs)) ++ ch "}" :: rest = QUOTE :: body).
    { cbn [map]. destruct (map _ kvs); cbn [join];
        unfold pair_text at 1, encode_basestring_ascii; cbn [app]; eexists; reflexivity. }
    destruct Hq as (body & Hq).
    match goal with
    | |- context [skip_ws ?t] =>
        change t with (join (lit ", ") (map pair_text (kv :: kvs)) ++ ch "}" :: rest)
    end.
    rewrite Hq.
    cbn [skip_ws is_ws QUOTE]. cbn -[join skip_ws parse_pairs map dumps].
    rewrite (pairs_read_back (kv :: kvs) IH Hok ltac:(discriminate) fuel rest body);
      [|lia|exact Hq].
    cbn [scan_map]. now rewrite dict_of_distinct_pairs.
Qed.

(** The fuel [loads] supplies covers the size of the value. *)
Lemma size_bound (v : pyval) : json_ok v -> (size v <= 2 * length (dumps v))%nat.
Proof.
  induction v as [ |b|z|f|s|xs IH|kvs IH] using pyval_induction; intros Hv;
    try (destruct (dumps_head _ Hv) as (c & t & E & _); rewrite E; cbn [size length]; lia).
  - change (size (PyList xs)) with (S (weight xs)).
    cbn [dumps length]. rewrite length_app. cbn [length].
    assert (W : (weight xs <= 2 * length (join (lit ", ") (map dumps xs)) + 1)%nat).
    { apply all_ok_forall in Hv. clear -IH Hv.
      induction IH as [|x xs Hx Hxs IHxs]; [cbn; lia|].
      destruct Hv as [Hokx Hokxs]. specialize (Hx Hokx). specialize (IHxs Hokxs).
      change (weight (x :: xs)) with (S (size x + weight xs)).
      destruct xs as [|y xs]; [cbn [map join weight]; lia|].
      change (join (lit ", ") (map dumps (x :: y :: xs)))
        with (dumps x ++ lit ", " ++ join (lit ", ") (map dumps (y :: xs))).
      rewrite !length_app. cbn [lit list_ascii_of_string map length] in *. lia. }
    lia.
  - change (size (PyDict kvs)) with (S (pairs_weight kvs)).
    cbn [dumps length]. rewrite length_app. cbn [length].
    change (map _ kvs) with (map pair_text kvs).
    assert (W : (pairs_weight kvs <= 2 * length (join (lit ", ") (map pair_text kvs)) + 1)%nat).
    { destruct Hv as [_ Hv]. change (pairs_ok kvs) in Hv. clear -IH Hv.
      induction IH as [|[k v] kvs Hx Hxs IHxs]; [cbn; lia|].
      destruct Hv as (_ & Hokx & Hokxs). cbn [fst snd] in *.
      specialize (Hx Hokx). specialize (IHxs Hokxs).
      change (pairs_weight ((k, v) :: kvs)) with (S (size v + pairs_weight kvs)).
      assert (L : (length (dumps v) <= length (pair_text (k, v)))%nat).
      { unfold pair_text. cbn [fst snd]. rewrite !length_app. lia. }
      destruct kvs as [|kv kvs]; [cbn [map join pairs_weight]; lia|].
      change (join (lit ", ") (map pair_text ((k, v) :: kv :: kvs)))
        with (pair_text (k, v) ++ lit ", " ++ join (lit ", ") (map pair_text (kv :: kvs))).
      rewrite !length_app. cbn [lit list_ascii_of_string map length] in *. lia. }
    lia.
Qed.

(** Decoding what [dumps] wrote for a JSON-compatible value gives the
    value back. *)
Lemma loads_dumps (v : pyval) : json_ok v -> loads (dumps v) = Ok v.
Proof.
  intros Hv. unfold loads.
  rewrite <- (List.app_nil_r (dumps v)) at 2.
  rewrite skip_ws_dumps, scan_dumps; [reflexivity | assumption | | exact I | assumption].
  pose proof (size_bound v Hv). lia.
Qed.

(** Two surrogate code points that form a pair are written as one escaped
    pair, which reads back as a single code point: the round trip needs
    strings of scalar values. *)
Remark surrogate_pair_reads_back_as_one :
  loads (dumps (PyStr [0xd83d; 0xde00])) = Ok (PyStr [0x1f600]).
Proof. reflexivity. Qed.

(** The messages the scripts send are Envelopes, and decode to
    themselves. *)
Lemma script_messages_round_trip :
  get_snapshot_msg = envelope (lit "getSnapshot") None /\
  loads (dumps get_snapshot_msg) = Ok get_snapshot_msg /\
  loads (dumps CreateParticleDebug.create_msg) = Ok CreateParticleDebug.create_msg /\
  loads (dumps (CreateParticle.create_msg (lit "proton") 5 5 5))
    = Ok (CreateParticle.create_msg (lit "proton") 5 5 5) /\
  loads (dumps (CreateParticle.create_msg (lit "neutron") (-5) (-5) (-5)))
    = Ok (CreateParticle.create_msg (lit "neutron") (-5) (-5) (-5)).
Proof. repeat split; reflexivity. Qed.

(** *** Numerals of floats *)

(** Where a run of digits stops. *)
Definition stops (s : str) : Prop :=
  match s with
  | [] => True
  | c :: _ => is_digit c = false
  end.


Lemma stops_app (r rest : str) : stops r -> stops rest -> stops (r ++ rest).
Proof. destruct r; cbn; auto. Qed.










End Facts.
End JsonFacts.

(** ** Facts about [test-ws-simple.py] *)

Module WsSimpleFacts.
Import WsSimple.
Section Facts.
Context {FM : FloatModel}.
Implicit Types (w : world line) (count : nat) (message : str).

(** Handling a frame prints message lines only, touches neither the clock
    nor the inbox, and ends by counting the frame or by raising something
    other than a timeout. *)
Lemma on_message_spec message count w :
  exists acts,
    Forall listening acts /\ frames_got acts = 0%nat /\
    snd (on_message message count w) = World (now w) (inbox w) (trace w ++ acts) /\
    (fst (on_message message count w) = Return (S count) \/
     exists e, fst (on_message message count w) = Raise e /\ e <> TimeoutError).
Proof.
  destruct (on_message message count w) as [o w'] eqn:B.
  unfold on_message in B. repeat ws_step B.
  all: cbn [fst snd]; unfold WsFacts.logged; cbn [now inbox trace];
    repeat rewrite <- List.app_assoc; cbn [app].
  all: match goal with
       | |- context [World _ _ (_ ++ ?l) = _] => exists l
       | |- _ => exists []; rewrite List.app_nil_r; destruct w
       end.
  all: split; [repeat constructor | split; [reflexivity | split; [reflexivity | ]]].
  all: try exact I.
  all: try (left; reflexivity).
  all: right; eexists; split; [reflexivity|].
  all: repeat match goal with
              | H : Json.loads _ = Err _ |- _ => apply JsonFacts.loads_error in H; subst
              | H : Py.get ?a _ _ = Err _ |- _ => destruct a; try discriminate H; cbn in H;
                  repeat match type of H with
                         | match ?x with _ => _ end = _ => destruct x
                         end; try discriminate H; injection H as <-
              | H : Py.len ?a = Err _ |- _ => destruct a; try discriminate H; injection H as <-
              | H : Py.format_3f ?a = Err _ |- _ =>
                  destruct a; unfold Py.format_3f in H;
                  try match type of H with
                      | (if ?x then _ else _) = _ => destruct x
                      end; try discriminate H; injection H as <-
              end.
  all: discriminate.
Qed.

(** One turn of the loop: a second of silence leaves the counter and the
    inbox alone; otherwise the head of the inbox is consumed within the
    second, and the turn counts it or raises. *)
Lemma attempt_spec count w :
  exists acts,
    trace (snd (attempt count w)) = trace w ++ acts /\ Forall listening acts /\
    match fst (attempt count w) with
    | Return count' =>
        (count' = count /\ frames_got acts = 0%nat /\
         inbox (snd (attempt count w)) = inbox w /\
         now (snd (attempt count w)) = now w + 1000)
        \/
        (count' = S count /\ frames_got acts = 1%nat /\
         (exists tev, inbox w = tev :: inbox (snd (attempt count w))) /\
         now w <= now (snd (attempt count w)) < now w + 1000)
    | Raise e => e <> TimeoutError
    | _ => False
    end.
Proof.
  unfold attempt, try_except. rewrite WsFacts.bind_wait_for_recv.
  cbv zeta. rewrite N.mul_1_r.
  assert (Silent :
    exists acts,
      trace (World (now w + 1000) (inbox w) (trace w ++ [Await (Some 1) Expired; Print Dot]))
        = trace w ++ acts /\ Forall listening acts /\ frames_got acts = 0%nat).
  { exists silent_second. repeat split; repeat constructor. }
  destruct (inbox w) as [|[t [text|]] rest] eqn:E.
  - cbn. rewrite <- List.app_assoc. destruct Silent as (acts & ? & ? & ?).
    exists acts. repeat split; auto; left; repeat split; auto.
  - destruct (t <? now w + 1000) eqn:Ht.
    + apply N.ltb_lt in Ht.
      set (w1 := World (N.max (now w) t) rest (trace w ++ [Await (Some 1) (Got text)])).
      destruct (on_message_spec text count w1) as (acts & Hq & Hg & Hw & Ho).
      destruct (on_message text count w1) as [o w'] eqn:B. subst w1.
      cbn [fst snd now inbox trace] in *. subst w'.
      exists (Await (Some 1) (Got text) :: acts).
      destruct Ho as [-> | (e & -> & He)].
      * cbn [fst snd trace now inbox]. rewrite <- List.app_assoc.
        repeat split; [constructor; [now cbn | assumption]|].
        right. repeat split; [cbn; now rewrite Hg | now exists (t, Frame text) | lia | lia].
      * rewrite (WsFacts.exn_eqb_neq _ _ He). cbn [fst snd trace now inbox].
        rewrite <- List.app_assoc.
        repeat split; [constructor; [now cbn | assumption] | assumption].
    + cbn. rewrite <- List.app_assoc. destruct Silent as (acts & ? & ? & ?).
      exists acts. repeat split; auto; left; repeat split; auto.
  - destruct (t <? now w + 1000) eqn:Ht.
    + cbn. exists [Await (Some 1) Closed].
      repeat split; [repeat constructor | discriminate].
    + cbn. rewrite <- List.app_assoc. destruct Silent as (acts & ? & ? & ?).
      exists acts. repeat split; auto; left; repeat split; auto.
Qed.

Lemma frames_got_app (a b : list (action line)) :
  frames_got (a ++ b) = (frames_got a + frames_got b)%nat.
Proof.
  induction a as [|[text|bound [text| |]|ms|l|] a IH]; cbn; auto.
Qed.

(** The loop ends for every server: within the window each turn either
    consumes a frame or lets a whole second pass.  While it runs it only
    performs listening actions, and the counter it returns is the number of
    frames it received. *)
Lemma listen_spec (timeout start : N) :
  timeout < 86400 ->
  forall fuel count w,
    start <= now w ->
    (now w - start) / 1000 <= timeout ->
    (length (inbox w) + N.to_nat (timeout - (now w - start) / 1000) < fuel)%nat ->
    exists acts,
      trace (snd (listen fuel timeout start count w)) = trace w ++ acts /\
      Forall listening acts /\
      match fst (listen fuel timeout start count w) with
      | Return n => n = (count + frames_got acts)%nat
      | Raise e => e <> TimeoutError
      | _ => False
      end.
Proof.
  intros Ht fuel. induction fuel as [|fuel IH]; intros count w Hs He Hf; [lia|].
  cbn [listen]. rewrite WsFacts.bind_clock. unfold timedelta_seconds.
  rewrite (N.mod_small ((now w - start) / 1000) 86400) by lia.
  destruct ((now w - start) / 1000 <? timeout) eqn:C.
  - apply N.ltb_lt in C. unfold bind.
    destruct (attempt_spec count w) as (acts & Htr & Hq & Ho).
    destruct (attempt count w) as [[count'|e| |] w1]; cbn [fst snd] in *;
      try contradiction.
    + destruct (IH count' w1) as (acts' & Htr' & Hq' & Ho').
      * destruct Ho as [(_ & _ & _ & ->) | (_ & _ & _ & ?)]; lia.
      * destruct Ho as [(_ & _ & _ & ->) | (_ & _ & _ & ?)]; div_lia.
      * destruct Ho as [(_ & _ & -> & ->) | (_ & _ & (tev & Hi) & ?)].
        -- div_lia.
        -- rewrite Hi in Hf. cbn [length] in Hf. div_lia.
      * exists (acts ++ acts'). rewrite Htr', Htr, List.app_assoc.
        repeat split; [apply Forall_app; auto|].
        destruct (fst (listen fuel timeout start count' w1)); auto.
        rewrite frames_got_app.
        destruct Ho as [(-> & -> & _) | (-> & -> & _)]; lia.
    + exists acts. auto.
  - exists []. rewrite List.app_nil_r. cbn. repeat split; auto.
Qed.

(** Against a server from which nothing arrives before the window closes,
    the loop lets the remaining [k] seconds pass one by one and leaves the
    counter alone. *)
Lemma listen_silent (timeout start : N) :
  timeout < 86400 ->
  forall (k fuel count : nat) w,
    (k < fuel)%nat ->
    N.of_nat k <= timeout ->
    now w = start + 1000 * (timeout - N.of_nat k) ->
    (forall t ev, In (t, ev) (inbox w) -> start + 1000 * timeout <= t) ->
    listen fuel timeout start count w =
    (Return count,
     World (start + 1000 * timeout) (inbox w) (trace w ++ concat (repeat silent_second k))).
Proof.
  intros Ht k. induction k as [|k IH]; intros fuel count w Hf Hk Hn Hlate;
    (destruct fuel as [|fuel]; [lia|]);
    cbn [listen]; rewrite WsFacts.bind_clock; unfold timedelta_seconds.
  - assert (E : (now w - start) / 1000 = timeout) by div_lia. rewrite E.
    rewrite N.mod_small by lia. rewrite N.ltb_irrefl. unfold ret.
    cbn [repeat concat]. rewrite List.app_nil_r.
    destruct w as [n i tr]. cbn [now inbox trace] in *. f_equal. f_equal. lia.
  - assert (Es : (now w - start) / 1000 = timeout - N.of_nat (S k)) by div_lia. rewrite Es.
    rewrite N.mod_small by lia.
    assert (C : (timeout - N.of_nat (S k) <? timeout) = true) by (apply N.ltb_lt; lia).
    rewrite C.
    unfold bind, attempt, try_except. rewrite WsFacts.bind_wait_for_recv.
    cbv zeta. rewrite N.mul_1_r.
    assert (Late : match inbox w with
                   | [] => True
                   | (t, _) :: _ => (t <? now w + 1000) = false
                   end).
    { destruct (inbox w) as [|[t ev] rest] eqn:E; [exact I|].
      apply N.ltb_ge. specialize (Hlate t ev (or_introl eq_refl)). lia. }
    destruct (inbox w) as [|[t ev] rest] eqn:E; [|rewrite Late];
      cbn [exn_eqb]; rewrite WsFacts.bind_print; unfold ret;
      (rewrite IH;
       [ cbn [now inbox trace WsFacts.logged]; rewrite ?E;
         repeat rewrite <- List.app_assoc; reflexivity
       | lia | lia
       | cbn [now inbox trace WsFacts.logged]; lia
       | cbn [now inbox trace WsFacts.logged]; rewrite ?E; exact Hlate ]).
Qed.

(** A run against such a server, as a whole. *)
Lemma silent_run server :
  (forall t ev, In (t, ev) server -> 10000 <= t) ->
  run server =
  (Return tt,
   World 10000 server
     (preamble ++ concat (repeat silent_second 10)
        ++ [Print (ReceivedSummary 0 10); Disconnect])).
Proof.
  intros Hlate. unfold run, test_websocket, fresh.
  rewrite WsFacts.bind_print. unfold async_with.
  rewrite WsFacts.bind_print, WsFacts.bind_send.
  replace (connection_closed _) with false.
  2:{ symmetry. unfold connection_closed. cbn [now inbox WsFacts.logged].
      apply not_true_is_false. intros H. apply existsb_exists in H.
      destruct H as ([t ev] & Hin & H). apply andb_true_iff in H. destruct H as [_ H].
      apply N.leb_le in H. cbn in H. specialize (Hlate t ev Hin). lia. }
  rewrite WsFacts.bind_print. unfold try_except_Exception.
  rewrite WsFacts.bind_print, WsFacts.bind_clock. unfold bind at 1.
  rewrite (listen_silent 10 0 eq_refl 10);
    unfold turns; cbn [now inbox trace WsFacts.logged]; try lia; try reflexivity.
  intros t ev Hin. specialize (Hlate t ev Hin). lia.
Qed.

(** Every run ends in one of three ways: the request could not be sent;
    or the loop ran to the end of the window and the tally, which is the
    number of frames received, was printed; or a turn of the loop raised and
    the error was printed instead. *)
Lemma run_reports server :
  (outcome_of server = Raise ConnectionClosed /\
   trace_of server = [Print Connecting; Print Connected; Disconnect])
  \/
  (outcome_of server = Return tt /\
   exists acts,
     Forall listening acts /\
     (trace_of server =
        preamble ++ acts ++ [Print (ReceivedSummary (frames_got acts) 10); Disconnect]
      \/
      exists e, e <> TimeoutError /\
        trace_of server = preamble ++ acts ++ [Print (ErrorLine e); Disconnect])).
Proof.
  unfold outcome_of, trace_of, run, test_websocket, fresh.
  rewrite WsFacts.bind_print. unfold async_with.
  rewrite WsFacts.bind_print, WsFacts.bind_send.
  destruct (connection_closed _); [left; split; reflexivity|right].
  rewrite WsFacts.bind_print. unfold try_except_Exception.
  rewrite WsFacts.bind_print, WsFacts.bind_clock. unfold bind. cbv beta.
  cbn [now inbox trace app WsFacts.logged].
  match goal with
  | |- context [listen ?f 10 0 0 ?w] =>
      destruct (listen_spec 10 0 eq_refl f 0%nat w) as (acts & Htr & Hq & Ho);
        [ cbn; lia | cbn; lia | unfold turns; cbn; lia | ];
        destruct (listen f 10 0 0 w) as [[n|e| |] w1]
  end; cbn [fst snd] in *; try contradiction.
  - rewrite WsFacts.print_run. cbn [fst snd trace WsFacts.logged].
    split; [reflexivity|]. exists acts. split; [assumption|]. left.
    subst n. rewrite Htr. cbn [trace app]. repeat rewrite <- List.app_assoc. reflexivity.
  - rewrite WsFacts.print_run. cbn [fst snd trace WsFacts.logged].
    split; [reflexivity|]. exists acts. split; [assumption|]. right.
    exists e. split; [assumption|].
    rewrite Htr. cbn [trace app]. repeat rewrite <- List.app_assoc. reflexivity.
Qed.





Lemma listening_bounded (acts : list (action line)) :
  Forall listening acts -> Forall (bounded_by 1) acts.
Proof.
  apply Forall_impl. intros [text|bound arr|ms|l|]; cbn; auto.
Qed.

End Facts.
End WsSimpleFacts.

(** ** Facts about [test-create-particle-debug.py] *)

Module CreateParticleDebugFacts.
Import CreateParticleDebug.
Section Facts.
Context {FM : FloatModel}.
Implicit Types (w : world line) (response : str).

Lemma awaits_app (a b : list (action line)) : awaits (a ++ b) = (awaits a + awaits b)%nat.
Proof. induction a as [|[text|bound arr|ms|l|] a IH]; cbn; auto. Qed.

Lemma timeouts_app (a b : list (action line)) :
  timeouts (a ++ b) = (timeouts a + timeouts b)%nat.
Proof. induction a as [|[text|bound [text| |]|ms|l|] a IH]; cbn; auto. Qed.

Lemma examined_app (a b : list (action line)) :
  examined (a ++ b) = (examined a + examined b)%nat.
Proof. induction a as [|[text|bound arr|ms|[]|] a IH]; cbn; auto. Qed.

(** Examining a response prints at most its type and one more line,
    touches neither the clock nor the inbox, and ends normally or by raising
    something other than a timeout. *)
Lemma on_response_spec response w :
  exists acts,
    snd (on_response response w) = World (now w) (inbox w) (trace w ++ acts) /\
    awaits acts = 0%nat /\ (examined acts <= 1)%nat /\ Forall (bounded_by 1) acts /\
    (fst (on_response response w) = Return tt \/
     exists e, fst (on_response response w) = Raise e /\ e <> TimeoutError).
Proof.
  destruct (on_response response w) as [o w'] eqn:B.
  unfold on_response in B. repeat ws_step B.
  all: cbn [fst snd]; unfold WsFacts.logged; cbn [now inbox trace];
    repeat rewrite <- List.app_assoc; cbn [app].
  all: match goal with
       | |- context [World _ _ (_ ++ ?l) = _] => exists l
       | |- _ => exists []; rewrite List.app_nil_r; destruct w
       end.
  all: split; [reflexivity | split; [reflexivity | split; [cbn; lia | split; [repeat constructor|]]]].
  all: try exact I.
  all: try (left; reflexivity).
  all: right; eexists; split; [reflexivity|].
  all: repeat match goal with
              | H : Json.loads _ = Err _ |- _ => apply JsonFacts.loads_error in H; subst
              | H : Py.get ?a _ _ = Err _ |- _ => destruct a; try discriminate H; cbn in H;
                  repeat match type of H with
                         | match ?x with _ => _ end = _ => destruct x
                         end; try discriminate H; injection H as <-
              | H : Py.subscript ?a _ = Err _ |- _ => destruct a; cbn in H;
                  repeat match type of H with
                         | match ?x with _ => _ end = _ => destruct x
                         end; try discriminate H; injection H as <-
              | H : Py.len ?a = Err _ |- _ => destruct a; try discriminate H; injection H as <-
              end.
  all: discriminate.
Qed.

Lemma timeouts_le_awaits (a : list (action line)) : (timeouts a <= awaits a)%nat.
Proof. induction a as [|[text|bound [text| |]|ms|l|] a IH]; cbn; lia. Qed.

(** The loop over [xs]: at most one receive attempt and one examined
    response for each element, every wait bounded by a second, and no turn
    after one that timed out. *)
Lemma for_each_spec (xs : list nat) w :
  let r := for_each xs (fun _ => response <- wait_for_recv 1 ;; on_response response) w in
  exists acts,
    trace (snd r) = trace w ++ acts /\
    (awaits acts <= length xs)%nat /\ (examined acts <= length xs)%nat /\
    Forall (bounded_by 1) acts /\
    now w <= now (snd r) <= now w + 1000 * N.of_nat (length xs) /\
    match fst r with
    | Return _ => timeouts acts = 0%nat
    | Raise e =>
        if exn_eqb e TimeoutError
        then exists front, acts = front ++ [Await (Some 1) Expired] /\ timeouts front = 0%nat
        else timeouts acts = 0%nat
    | _ => False
    end.
Proof.
  revert w. induction xs as [|x xs IH]; intros w; cbv zeta.
  - exists []. cbn. rewrite List.app_nil_r. repeat split; auto; lia.
  - destruct (for_each (x :: xs) _ w) as [o w'] eqn:B. cbn [fst snd length].
    cbn [for_each] in B. unfold bind at 1 in B. rewrite WsFacts.bind_wait_for_recv in B.
    cbv zeta in B. rewrite N.mul_1_r in B.
    assert (Silent :
      (o, w') = (Raise TimeoutError,
                 World (now w + 1000) (inbox w) (trace w ++ [Await (Some 1) Expired])) ->
      exists acts,
        trace w' = trace w ++ acts /\
        (awaits acts <= S (length xs))%nat /\ (examined acts <= S (length xs))%nat /\
        Forall (bounded_by 1) acts /\
        now w <= now w' <= now w + 1000 * N.of_nat (S (length xs)) /\
        match o with
        | Return _ => timeouts acts = 0%nat
        | Raise e =>
            if exn_eqb e TimeoutError
            then exists front, acts = front ++ [Await (Some 1) Expired] /\
                               timeouts front = 0%nat
            else timeouts acts = 0%nat
        | _ => False
        end).
    { intros [= -> ->]. exists [Await (Some 1) Expired].
      repeat split; cbn; try lia; repeat constructor. now exists []. }
    destruct (inbox w) as [|[t [text|]] rest] eqn:E; [now apply Silent| |].
    + destruct (t <? now w + 1000) eqn:Ht; [apply N.ltb_lt in Ht|now apply Silent].
      clear Silent.
      set (w1 := World (N.max (now w) t) rest (trace w ++ [Await (Some 1) (Got text)])) in B.
      destruct (on_response_spec text w1) as (acts & Hw & Ha & Hx & Hb & Ho).
      destruct (on_response text w1) as [o2 w2]. subst w1.
      cbn [fst snd now inbox trace] in *. subst w2.
      pose proof (timeouts_le_awaits acts) as Hta.
      destruct Ho as [-> | (e & -> & He)].
      * specialize (IH (World (N.max (now w) t) rest
                               ((trace w ++ [Await (Some 1) (Got text)]) ++ acts))).
        cbv zeta in IH. rewrite B in IH. cbn [fst snd now inbox trace] in IH.
        destruct IH as (acts' & Htr & Ha' & Hx' & Hb' & Hn & Ho).
        exists (Await (Some 1) (Got text) :: acts ++ acts').
        rewrite Htr. repeat rewrite <- List.app_assoc. cbn [app].
        split; [reflexivity|].
        split; [cbn [awaits]; rewrite awaits_app; lia|].
        split; [cbn [examined]; rewrite examined_app; lia|].
        split; [constructor; [now cbn | apply Forall_app; auto]|].
        split; [lia|].
        destruct o as [[]|e| |]; auto.
        -- cbn [timeouts]. rewrite timeouts_app. lia.
        -- destruct (exn_eqb e TimeoutError).
           ++ destruct Ho as (front & -> & Hf).
              exists (Await (Some 1) (Got text) :: acts ++ front).
              split; [cbn [app]; now rewrite List.app_assoc|].
              cbn [timeouts]. rewrite timeouts_app. lia.
           ++ cbn [timeouts]. rewrite timeouts_app. lia.
      * injection B as <- <-. cbn [now inbox trace].
        exists (Await (Some 1) (Got text) :: acts).
        rewrite <- List.app_assoc. cbn [app].
        split; [reflexivity|].
        split; [cbn [awaits]; lia|].
        split; [cbn [examined]; lia|].
        split; [constructor; [now cbn | auto]|].
        split; [lia|].
        rewrite (WsFacts.exn_eqb_neq _ _ He). cbn [timeouts]. lia.
    + destruct (t <? now w + 1000) eqn:Ht; [apply N.ltb_lt in Ht|now apply Silent].
      injection B as <- <-. cbn [now inbox trace].
      exists [Await (Some 1) Closed].
      repeat split; cbn; try lia; repeat constructor.
Qed.

(** A run as a whole. *)
Lemma run_spec server :
  (awaits (trace_of server) <= 5)%nat /\
  (examined (trace_of server) <= 5)%nat /\
  Forall (bounded_by 1) (trace_of server) /\
  now (snd (run server)) <= 5000 /\
  ((exists e, outcome_of server = Raise e /\ e <> TimeoutError) \/
   outcome_of server = Return tt) /\
  (timeouts (trace_of server) = 0%nat \/
   exists front,
     timeouts front = 0%nat /\
     trace_of server = front ++ [Await (Some 1) Expired; Print NoMoreMessages; Disconnect] /\
     outcome_of server = Return tt).
Proof.
  unfold outcome_of, trace_of, run, test_create_particle, fresh.
  rewrite WsFacts.bind_print. unfold async_with.
  repeat rewrite WsFacts.bind_print. rewrite WsFacts.bind_send.
  destruct (connection_closed _).
  - cbn [fst snd now inbox trace app WsFacts.logged].
    split; [cbn; lia|]. split; [cbn; lia|]. split; [repeat constructor|].
    split; [lia|]. split; [|now left].
    left. exists ConnectionClosed. split; [reflexivity | discriminate].
  - rewrite WsFacts.bind_print. unfold try_except, drain.
    match goal with
    | |- context [for_each ?xs ?f ?w] =>
        destruct (for_each_spec xs w) as (acts & Htr & Ha & Hx & Hb & Hn & Ho);
          cbv zeta in *; destruct (for_each xs f w) as [[[]|e| |] w1]
    end; cbn [fst snd now inbox trace WsFacts.logged length seq] in *; try contradiction.
    + rewrite Htr. cbn [app].
      repeat split.
      * cbn [awaits]. rewrite awaits_app. cbn. lia.
      * cbn [examined]. rewrite examined_app. cbn. lia.
      * repeat (constructor; [now cbn|]). apply Forall_app. split; auto. repeat constructor.
      * lia.
      * now right.
      * left. cbn [timeouts]. rewrite timeouts_app. cbn. lia.
    + destruct (exn_eqb e TimeoutError) eqn:Ee.
      * destruct Ho as (front & -> & Hf).
        rewrite WsFacts.print_run. cbn [fst snd now inbox trace WsFacts.logged].
        rewrite Htr. cbn [app]. repeat rewrite <- List.app_assoc. cbn [app].
        rewrite awaits_app in Ha. rewrite examined_app in Hx.
        apply Forall_app in Hb. destruct Hb as [Hb _]. cbn in Ha, Hx.
        repeat split.
        -- cbn [awaits]. rewrite awaits_app. cbn. lia.
        -- cbn [examined]. rewrite examined_app. cbn. lia.
        -- repeat (constructor; [now cbn|]). apply Forall_app. split; auto.
           repeat constructor.
        -- lia.
        -- now right.
        -- right. exists (preamble ++ front). unfold preamble.
           rewrite timeouts_app. cbn [timeouts app]. repeat rewrite <- List.app_assoc.
           repeat split; auto.
      * cbn [fst snd now inbox trace]. rewrite Htr. cbn [app].
        repeat split.
        -- cbn [awaits]. rewrite awaits_app. cbn. lia.
        -- cbn [examined]. rewrite examined_app. cbn. lia.
        -- repeat (constructor; [now cbn|]). apply Forall_app. split; auto.
           repeat constructor.
        -- lia.
        -- left. exists e. split; [reflexivity|]. intros ->. discriminate.
        -- left. cbn [timeouts]. rewrite timeouts_app. cbn. lia.
Qed.





End Facts.
End CreateParticleDebugFacts.

(** ** Facts about [test-create-particle.py] *)

Module CreateParticleFacts.
Import CreateParticle.

(** Case analysis of a run: one case for each place where the script can
    stop, with the trace of the run written out. *)
Ltac run_step B :=
  autorewrite with ws in B; cbn [now inbox trace app fst snd WsFacts.logged] in B;
  match type of B with
  | match ?x with _ => _ end = _ =>
      first [ is_var x; destruct x as [|[? [?|]] ?]
            | destruct x eqn:? ]
  | (_, _) = (_, _) => injection B as <- <-
  end.

Ltac run_cases :=
  unfold outcome_of, trace_of, run, test_create_particle, fresh;
  autorewrite with ws; unfold async_with;
  match goal with
  | |- context [let (_, _) := ?X in _] =>
      let B := fresh "B" in
      destruct X as [? ?] eqn:B; repeat run_step B
  end;
  cbv beta iota delta [fst snd now inbox trace app WsFacts.logged].

(** Rewriting with what the case analysis has recorded about the replies. *)
Ltac count_known :=
  unfold particle_count, count_in in *;
  repeat match goal with
         | H : _ = Ok _ |- _ => rewrite H in *
         | H : _ = Err _ |- _ => rewrite H in *
         end.

(** Membership in a trace that is written out: as a hypothesis and as a
    goal. *)
Ltac split_in H :=
  cbn [In] in H;
  repeat match type of H with
         | _ \/ _ => destruct H as [H | H]
         end;
  try discriminate H; try contradiction H.

Ltac show_in := cbn [In]; repeat ((left; reflexivity) || right).

Section Facts.
Context {FM : FloatModel}.


(** No receive of the script has a bound. *)
Lemma waits_are_unbounded server : Forall unbounded (trace_of server).
Proof.
  run_cases; repeat constructor.
Qed.

(** A reply off which no count can be read ends the run with the
    exception raised while reading it. *)
Lemma bad_reply_is_fatal server s e :
  In (Await None (Got s)) (trace_of server) ->
  particle_count s = Err e ->
  outcome_of server = Raise e.
Proof.
  run_cases; intros H C; split_in H.
  all: injection H as <-; count_known; congruence.
Qed.

Lemma dict_lookup_set_other (d : list (str * pyval)) (k k' : str) (v : pyval) :
  str_eqb k k' = false -> dict_lookup (dict_set d k v) k' = dict_lookup d k'.
Proof.
  intros H. induction d as [|[k0 v0] d IH]; cbn [dict_set dict_lookup].
  - now rewrite H.
  - destruct (str_eqb k0 k) eqn:E; cbn [dict_lookup].
    + apply str_eqb_eq in E. subst k0. now rewrite H.
    + now rewrite IH.
Qed.

(** The count read off a reply does not depend on its [type]. *)
Lemma count_ignores_type (d : list (str * pyval)) (t : pyval) :
  count_in (PyDict (dict_set d (lit "type") t)) = count_in (PyDict d).
Proof.
  unfold count_in. cbn [Py.subscript].
  now rewrite dict_lookup_set_other by reflexivity.
Qed.

End Facts.
End CreateParticleFacts.

(** ** Facts about traces *)

Module TraceFacts.
Import Trace.
Section Facts.
Context {line : Type}.

Lemma released_last : released (line := line) [Disconnect].
Proof. exists []. split; [reflexivity | constructor]. Qed.

Lemma released_cons (a : action line) (acts : list (action line)) :
  on_connection a -> released acts -> released (a :: acts).
Proof.
  intros Ha (front & -> & Hf). exists (a :: front). split; [reflexivity|].
  now constructor.
Qed.

Lemma released_app (front acts : list (action line)) :
  Forall on_connection front -> released acts -> released (front ++ acts).
Proof.
  induction 1; cbn [app]; auto using released_cons.
Qed.

(** With the clock at 0, the close has reached the client when it is
    stamped 0. *)
Lemma closed_at_start (server : list (N * event)) (tr : list (action line)) :
  connection_closed (World 0 server tr) = true <-> In (0, Close) server.
Proof.
  unfold connection_closed. cbn [now inbox]. rewrite existsb_exists. split.
  - intros ([t ev] & Hin & H). apply andb_true_iff in H. destruct H as [Hc Ht].
    apply N.leb_le in Ht. cbn [fst snd] in *. destruct ev; [discriminate|].
    replace t with 0 in Hin by lia. exact Hin.
  - intros H. exists (0, Close). split; [exact H | reflexivity].
Qed.

Lemma open_at_start (server : list (N * event)) (tr : list (action line)) :
  ~ In (0, Close) server -> connection_closed (World 0 server tr) = false.
Proof.
  intros H. apply not_true_is_false. now rewrite closed_at_start.
Qed.

End Facts.
End TraceFacts.

(** ** More facts about [test-ws-simple.py] *)

Module WsSimpleRunFacts.
Import WsSimple Trace.
Section Facts.
Context {FM : FloatModel}.
Implicit Types (w : world line) (count : nat) (message : str).

Lemma expired_app (a b : list (action line)) :
  expired (a ++ b) = (expired a + expired b)%nat.
Proof.
  induction a as [|[text|bound [text| |]|ms|l|] a IH]; cbn; auto.
Qed.

Lemma expired_printed (acts : list (action line)) :
  Forall printed acts -> expired acts = 0%nat.
Proof.
  induction 1 as [|[text|bound arr|ms|l|] acts H _ IH]; cbn in *; auto; contradiction.
Qed.

Lemma on_message_prints message count w :
  exists acts,
    Forall printed acts /\
    snd (on_message message count w) = World (now w) (inbox w) (trace w ++ acts).
Proof.
  destruct (on_message message count w) as [o w'] eqn:B.
  unfold on_message in B. repeat ws_step B.
  all: cbn [fst snd]; unfold WsFacts.logged; cbn [now inbox trace];
    repeat rewrite <- List.app_assoc; cbn [app].
  all: match goal with
       | |- context [World _ _ (_ ++ ?l) = _] => exists l
       | |- _ => exists []; rewrite List.app_nil_r; destruct w
       end.
  all: split; [repeat constructor | reflexivity].
Qed.

Lemma attempt_clock count w :
  exists acts,
    trace (snd (attempt count w)) = trace w ++ acts /\
    now w + 1000 * N.of_nat (expired acts) <= now (snd (attempt count w)) /\
    now (snd (attempt count w)) <= now w + 1000.
Proof.
  unfold attempt, try_except. rewrite WsFacts.bind_wait_for_recv.
  cbv zeta. rewrite N.mul_1_r.
  assert (Silent :
    exists acts,
      trace (World (now w + 1000) (inbox w) (trace w ++ [Await (Some 1) Expired; Print Dot]))
        = trace w ++ acts /\ expired acts = 1%nat).
  { exists silent_second. split; reflexivity. }
  destruct (inbox w) as [|[t [text|]] rest] eqn:E.
  - cbn -[N.mul N.of_nat N.add]. rewrite <- List.app_assoc. destruct Silent as (acts & ? & Hx).
    exists acts. rewrite Hx. repeat split; auto; lia.
  - destruct (t <? now w + 1000) eqn:Ht.
    + apply N.ltb_lt in Ht.
      set (w1 := World (N.max (now w) t) rest (trace w ++ [Await (Some 1) (Got text)])).
      destruct (on_message_prints text count w1) as (acts & Hq & Hw).
      destruct (WsSimpleFacts.on_message_spec text count w1) as (_ & _ & _ & _ & Ho).
      destruct (on_message text count w1) as [o w'] eqn:B. subst w1.
      cbn [fst snd now inbox trace] in *. subst w'.
      exists (Await (Some 1) (Got text) :: acts).
      assert (Hx : expired (Await (Some 1) (Got text) :: acts) = 0%nat)
        by (cbn; now apply expired_printed).
      rewrite Hx.
      destruct Ho as [-> | (e & -> & He)].
      * cbn [fst snd trace now inbox]. rewrite <- List.app_assoc.
        repeat split; lia.
      * rewrite (WsFacts.exn_eqb_neq _ _ He). cbn [fst snd trace now inbox].
        rewrite <- List.app_assoc. repeat split; lia.
    + cbn -[N.mul N.of_nat N.add]. rewrite <- List.app_assoc. destruct Silent as (acts & ? & Hx).
      exists acts. rewrite Hx. repeat split; auto; lia.
  - destruct (t <? now w + 1000) eqn:Ht.
    + apply N.ltb_lt in Ht. cbn -[N.mul N.of_nat N.add]. exists [Await (Some 1) Closed].
      repeat split; cbn [expired]; lia.
    + cbn -[N.mul N.of_nat N.add]. rewrite <- List.app_assoc. destruct Silent as (acts & ? & Hx).
      exists acts. rewrite Hx. repeat split; auto; lia.
Qed.

Lemma listen_clock (timeout start : N) :
  timeout < 86400 ->
  forall fuel count w,
    start <= now w ->
    (now w - start) / 1000 <= timeout ->
    exists acts,
      trace (snd (listen fuel timeout start count w)) = trace w ++ acts /\
      now w + 1000 * N.of_nat (expired acts) <= now (snd (listen fuel timeout start count w)) /\
      (now (snd (listen fuel timeout start count w)) - start) / 1000 <= timeout /\
      (forall n, fst (listen fuel timeout start count w) = Return n ->
                 timeout <= (now (snd (listen fuel timeout start count w)) - start) / 1000).
Proof.
  intros Ht fuel. induction fuel as [|fuel IH]; intros count w Hs He.
  - exists []. cbn -[N.mul N.of_nat N.add N.div]. rewrite List.app_nil_r. repeat split; try lia. discriminate.
  - cbn [listen]. rewrite WsFacts.bind_clock. unfold timedelta_seconds.
    rewrite (N.mod_small ((now w - start) / 1000) 86400) by lia.
    destruct ((now w - start) / 1000 <? timeout) eqn:C.
    + apply N.ltb_lt in C. unfold bind.
      destruct (attempt_clock count w) as (acts & Htr & Hlo & Hhi).
      destruct (attempt count w) as [[count'|e| |] w1]; cbn [fst snd] in *.
      * destruct (IH count' w1) as (acts' & Htr' & Hlo' & Hhi' & Hr'); [lia | div_lia |].
        exists (acts ++ acts'). rewrite Htr', Htr, List.app_assoc, expired_app.
        repeat split; auto; lia.
      * exists acts. repeat split; auto; try div_lia. discriminate.
      * exists acts. repeat split; auto; try div_lia. discriminate.
      * exists acts. repeat split; auto; try div_lia. discriminate.
    + apply N.ltb_ge in C. exists []. rewrite List.app_nil_r. cbn -[N.mul N.of_nat N.add N.div].
      repeat split; auto; lia.
Qed.


Lemma listening_on_connection (acts : list (action line)) :
  Forall listening acts -> Forall on_connection acts.
Proof.
  apply Forall_impl. intros [text|bound arr|ms|l|]; cbn; auto.
Qed.

Lemma listening_no_tally (acts : list (action line)) n t :
  Forall listening acts -> ~ In (Print (ReceivedSummary n t)) acts.
Proof.
  intros H Hin. rewrite Forall_forall in H. apply (H _ Hin).
Qed.

Lemma run_clock server :
  now (snd (run server)) < 11000 /\
  (expired (trace_of server) <= 10)%nat /\
  (forall n, In (Print (ReceivedSummary n 10)) (trace_of server) ->
             10000 <= now (snd (run server))).
Proof.
  unfold outcome_of, trace_of, run, test_websocket, fresh.
  rewrite WsFacts.bind_print. unfold async_with.
  rewrite WsFacts.bind_print, WsFacts.bind_send.
  destruct (connection_closed _).
  { cbn [fst snd now inbox trace WsFacts.logged app expired].
    split; [lia|]. split; [lia|]. intros n H. cbn [In] in H.
    repeat (destruct H as [H | H]; [discriminate H|]). contradiction. }
  rewrite WsFacts.bind_print. unfold try_except_Exception.
  rewrite WsFacts.bind_print, WsFacts.bind_clock. unfold bind. cbv beta.
  cbn [now inbox trace app WsFacts.logged].
  match goal with
  | |- context [listen ?f 10 0 0 ?w] =>
      destruct (WsSimpleFacts.listen_spec 10 0 eq_refl f 0%nat w) as (acts & Htr & Hq & Ho);
        [ cbn; lia | cbn; lia | unfold turns; cbn; lia | ];
      destruct (listen_clock 10 0 eq_refl f 0%nat w) as (acts' & Htr' & Hlo & Hhi & Hr);
        [ cbn; lia | cbn; lia | ];
      destruct (listen f 10 0 0 w) as [[n|e| |] w1]
  end; cbn [fst snd now inbox trace WsFacts.logged app] in *; try contradiction.
  all: rewrite Htr in Htr'; injection Htr' as <-.
  all: rewrite N.sub_0_r in *.
  all: rewrite WsFacts.print_run; cbn [fst snd now inbox trace WsFacts.logged].
  all: rewrite Htr; cbn [expired]; repeat rewrite expired_app; cbn [expired].
  all: split; [div_lia|]; split; [div_lia|].
  - intros m _. specialize (Hr n eq_refl). div_lia.
  - intros m H. exfalso. cbn [In] in H.
    repeat (destruct H as [H | H]; [discriminate H|]).
    repeat rewrite in_app_iff in H. cbn [In] in H.
    destruct H as [[H | [H | []]] | [H | []]]; try discriminate H.
    exact (listening_no_tally acts m 10 Hq H).
Qed.


(** The request cannot be sent when the close has already reached the
    client: the [try] of the script starts after the request, so the error
    is not reported by the script. *)
Lemma listener_closed_at_start server :
  connection_closed (fresh (line := line) server) = true ->
  run server =
  (Raise ConnectionClosed, World 0 server [Print Connecting; Print Connected; Disconnect]).
Proof.
  intros H. unfold run, test_websocket.
  rewrite WsFacts.bind_print. unfold async_with.
  rewrite WsFacts.bind_print, WsFacts.bind_send.
  replace (connection_closed _) with true; reflexivity.
Qed.

(** A turn in which a frame arrives within the second and handling it
    raises. *)
Lemma attempt_frame_raises count w t message rest e :
  inbox w = (t, Frame message) :: rest ->
  t < now w + 1000 ->
  (forall w1, on_message message count w1 = (Raise e, w1)) ->
  e <> TimeoutError ->
  attempt count w =
  (Raise e, World (N.max (now w) t) rest (trace w ++ [Await (Some 1) (Got message)])).
Proof.
  intros E Ht Hm He. unfold attempt, try_except.
  rewrite WsFacts.bind_wait_for_recv. cbv zeta.
  apply N.ltb_lt in Ht. rewrite E, N.mul_1_r, Ht, Hm.
  now rewrite (WsFacts.exn_eqb_neq _ _ He).
Qed.

(** The first turn of the loop, when the first frame arrives within the
    first second and handling it raises. *)
Lemma run_first_frame_raises server t message rest e :
  server = (t, Frame message) :: rest ->
  t < 1000 ->
  connection_closed (fresh (line := line) server) = false ->
  (forall w, on_message message 0 w = (Raise e, w)) ->
  e <> TimeoutError ->
  run server =
  (Return tt,
   World t rest
     (preamble ++ [Await (Some 1) (Got message); Print (ErrorLine e); Disconnect])).
Proof.
  intros -> Ht Hc Hm He. unfold run, test_websocket.
  rewrite WsFacts.bind_print. unfold async_with.
  rewrite WsFacts.bind_print, WsFacts.bind_send.
  replace (connection_closed _) with false by (symmetry; exact Hc).
  rewrite WsFacts.bind_print. unfold try_except_Exception.
  rewrite WsFacts.bind_print, WsFacts.bind_clock. unfold bind at 1.
  unfold turns, fresh. cbn [now inbox trace WsFacts.logged length app].
  rewrite Nat.add_1_r. cbn [listen].
  rewrite WsFacts.bind_clock. cbn [now inbox trace WsFacts.logged app].
  replace (timedelta_seconds (0 - 0) <? 10) with true by reflexivity.
  unfold bind at 1.
  erewrite (attempt_frame_raises 0 _ t message rest e);
    [ | reflexivity | cbn [now]; lia | exact Hm | exact He ].
  rewrite WsFacts.print_run. cbn [fst snd now inbox trace WsFacts.logged app].
  rewrite N.max_0_l. reflexivity.
Qed.

(** A frame that decodes to something other than an object. *)
Lemma on_message_not_object message count w data :
  Json.loads message = Ok data ->
  (forall d, data <> PyDict d) ->
  on_message message count w = (Raise AttributeError, w).
Proof.
  intros H N. unfold on_message. rewrite WsFacts.bind_lift, H. cbv zeta.
  rewrite WsFacts.bind_lift.
  destruct data; try reflexivity. now destruct (N kvs).
Qed.

Lemma format_3f_zero : Py.format_3f (PyInt 0) = Ok (PyInt 0).
Proof. reflexivity. Qed.

(** A snapshot whose payload and whose three fields are read with their
    defaults. *)
Lemma on_message_defaults message count w d p :
  Json.loads message = Ok (PyDict d) ->
  dict_lookup d (lit "type") = Some (PyStr (lit "snapshot")) ->
  Py.get (PyDict d) (lit "payload") (PyDict []) = Ok (PyDict p) ->
  dict_lookup p (lit "particles") = None ->
  dict_lookup p (lit "metrics") = None ->
  dict_lookup p (lit "simulationTime") = None ->
  on_message message count w =
  (Return (S count),
   World (now w) (inbox w)
     (trace w ++ [Print SnapshotReceived; Print (ParticlesLine 0);
                  Print (SimulationTimeLine (PyInt 0)); Print (TotalEnergyLine (PyInt 0))])).
Proof.
  intros H T P Hp Hm Hs. unfold on_message. rewrite WsFacts.bind_lift, H. cbv zeta.
  assert (G : Py.get (PyDict d) (lit "type") PyNone = Ok (PyStr (lit "snapshot")))
    by (cbn [Py.get]; now rewrite T).
  rewrite WsFacts.bind_lift, G.
  replace (Py.eq_str (PyStr (lit "snapshot")) (lit "snapshot")) with true by reflexivity.
  rewrite WsFacts.bind_lift, P.
  repeat (rewrite ?WsFacts.bind_lift, ?WsFacts.bind_print;
          cbn [Py.get Py.len length dict_lookup];
          rewrite ?Hp, ?Hm, ?Hs, ?format_3f_zero).
  unfold ret, WsFacts.logged. cbn [now inbox trace].
  repeat rewrite <- List.app_assoc. reflexivity.
Qed.

(** A snapshot whose payload is present and is not an object. *)
Lemma on_message_payload_not_object message count w d p :
  Json.loads message = Ok (PyDict d) ->
  dict_lookup d (lit "type") = Some (PyStr (lit "snapshot")) ->
  dict_lookup d (lit "payload") = Some p ->
  (forall q, p <> PyDict q) ->
  on_message message count w = (Raise AttributeError, w).
Proof.
  intros H T P N. unfold on_message. rewrite WsFacts.bind_lift, H. cbv zeta.
  assert (G : Py.get (PyDict d) (lit "type") PyNone = Ok (PyStr (lit "snapshot")))
    by (cbn [Py.get]; now rewrite T).
  rewrite WsFacts.bind_lift, G.
  replace (Py.eq_str (PyStr (lit "snapshot")) (lit "snapshot")) with true by reflexivity.
  rewrite WsFacts.bind_lift. cbn [Py.get]. rewrite P.
  rewrite WsFacts.bind_lift.
  destruct p; try reflexivity. now destruct (N kvs).
Qed.


End Facts.
End WsSimpleRunFacts.

(** ** More facts about [test-create-particle-debug.py] *)

Module CreateParticleDebugRunFacts.
Import CreateParticleDebug Trace CreateParticleDebugFacts.
Section Facts.
Context {FM : FloatModel}.
Implicit Types (w : world line) (response : str).

(** What the loop does: it waits, and it reports on a response. *)
Definition drained (a : action line) : Prop :=
  match a with
  | Await _ _ => True
  | Print (ReceivedLine _) | Print (ErrorMessageLine _) | Print (SnapshotLine _) => True
  | _ => False
  end.

Lemma on_response_reports response w :
  exists acts,
    snd (on_response response w) = World (now w) (inbox w) (trace w ++ acts) /\
    Forall drained acts /\ awaits acts = 0%nat /\ timeouts acts = 0%nat /\
    (examined acts <= 1)%nat.
Proof.
  destruct (on_response response w) as [o w'] eqn:B.
  unfold on_response in B. repeat ws_step B.
  all: cbn [fst snd]; unfold WsFacts.logged; cbn [now inbox trace];
    repeat rewrite <- List.app_assoc; cbn [app].
  all: match goal with
       | |- context [World _ _ (_ ++ ?l) = _] => exists l
       | |- _ => exists []; rewrite List.app_nil_r; destruct w
       end.
  all: split; [reflexivity | split; [repeat constructor | cbn; lia]].
Qed.

Lemma drain_spec (xs : list nat) w :
  let r := for_each xs (fun _ => response <- wait_for_recv 1 ;; on_response response) w in
  exists acts,
    trace (snd r) = trace w ++ acts /\ Forall drained acts /\
    (examined acts + timeouts acts <= awaits acts)%nat.
Proof.
  revert w. induction xs as [|x xs IH]; intros w; cbv zeta.
  - exists []. cbn. rewrite List.app_nil_r. repeat split; auto.
  - destruct (for_each (x :: xs) _ w) as [o w'] eqn:B. cbn [fst snd].
    cbn [for_each] in B. unfold bind at 1 in B. rewrite WsFacts.bind_wait_for_recv in B.
    cbv zeta in B. rewrite N.mul_1_r in B.
    assert (Silent :
      (o, w') = (Raise TimeoutError,
                 World (now w + 1000) (inbox w) (trace w ++ [Await (Some 1) Expired])) ->
      exists acts,
        trace w' = trace w ++ acts /\ Forall drained acts /\
        (examined acts + timeouts acts <= awaits acts)%nat).
    { intros [= -> ->]. exists [Await (Some 1) Expired].
      repeat split; cbn; try lia; repeat constructor. }
    destruct (inbox w) as [|[t [text|]] rest] eqn:E; [now apply Silent| |].
    + destruct (t <? now w + 1000) eqn:Ht; [|now apply Silent].
      clear Silent.
      set (w1 := World (N.max (now w) t) rest (trace w ++ [Await (Some 1) (Got text)])) in B.
      destruct (on_response_reports text w1) as (acts & Hw & Hd & Ha & Ht0 & Hx).
      destruct (on_response_spec text w1) as (_ & _ & _ & _ & _ & Ho).
      destruct (on_response text w1) as [o2 w2]. subst w1.
      cbn [fst snd now inbox trace] in *. subst w2.
      destruct Ho as [-> | (e & -> & He)].
      * specialize (IH (World (N.max (now w) t) rest
                               ((trace w ++ [Await (Some 1) (Got text)]) ++ acts))).
        cbv zeta in IH. rewrite B in IH. cbn [fst snd now inbox trace] in IH.
        destruct IH as (acts' & Htr & Hd' & Hx').
        exists (Await (Some 1) (Got text) :: acts ++ acts').
        rewrite Htr. repeat rewrite <- List.app_assoc. cbn [app].
        split; [reflexivity|].
        split; [constructor; [exact I | apply Forall_app; auto]|].
        cbn [awaits examined timeouts].
        rewrite awaits_app, examined_app, timeouts_app. lia.
      * injection B as <- <-. cbn [now inbox trace].
        exists (Await (Some 1) (Got text) :: acts).
        rewrite <- List.app_assoc. cbn [app].
        split; [reflexivity|].
        split; [constructor; [exact I | auto]|].
        cbn [awaits examined timeouts]. lia.
    + destruct (t <? now w + 1000) eqn:Ht; [|now apply Silent].
      injection B as <- <-. cbn [now inbox trace].
      exists [Await (Some 1) Closed].
      repeat split; cbn; try lia; repeat constructor.
Qed.

Lemma drained_on_connection (acts : list (action line)) :
  Forall drained acts -> Forall on_connection acts.
Proof.
  apply Forall_impl. intros [text|bound arr|ms|l|]; cbn; auto.
Qed.

Lemma drained_not_done (acts : list (action line)) :
  Forall drained acts -> ~ In (Print NoMoreMessages) acts.
Proof.
  intros H Hin. rewrite Forall_forall in H. apply (H _ Hin).
Qed.

Lemma timeouts_expired (acts : list (action line)) bound :
  In (Await bound Expired) acts -> (0 < timeouts acts)%nat.
Proof.
  induction acts as [|a acts IH]; intros H; [contradiction|].
  destruct H as [-> | H]; [cbn; lia|]. specialize (IH H).
  destruct a as [text|b [text| |]|ms|l|]; cbn; lia.
Qed.

(** The shape of every run: the preamble, then what the loop did, then the
    closing line if and only if the loop was left by a timeout, then the
    release of the connection. *)
Lemma run_shape server :
  trace_of server = [Print Connecting; Print Connected; Print CreatingProton;
                     Print (Sending create_msg); Disconnect]
  \/
  exists acts,
    Forall drained acts /\
    (examined acts + timeouts acts <= awaits acts)%nat /\
    (awaits acts <= 5)%nat /\
    ((timeouts acts = 0%nat /\ trace_of server = preamble ++ acts ++ [Disconnect]) \/
     (In (Await (Some 1) Expired) acts /\
      trace_of server = preamble ++ acts ++ [Print NoMoreMessages; Disconnect])).
Proof.
  unfold outcome_of, trace_of, run, test_create_particle, fresh.
  rewrite WsFacts.bind_print. unfold async_with.
  repeat rewrite WsFacts.bind_print. rewrite WsFacts.bind_send.
  destruct (connection_closed _); [left; reflexivity | right].
  rewrite WsFacts.bind_print. unfold try_except, drain.
  match goal with
  | |- context [for_each ?xs ?f ?w] =>
      destruct (for_each_spec xs w) as (acts & Htr & Ha & _ & _ & _ & Ho);
      destruct (drain_spec xs w) as (acts' & Htr' & Hd & Hx);
      cbv zeta in *; destruct (for_each xs f w) as [[[]|e| |] w1]
  end; cbn [fst snd now inbox trace WsFacts.logged length seq app] in *; try contradiction.
  all: rewrite Htr in Htr'; injection Htr' as <-.
  all: exists acts; split; [assumption|]; split; [assumption|]; split; [assumption|].
  - left. split; [assumption|]. rewrite Htr. cbn [app]. reflexivity.
  - destruct (exn_eqb e TimeoutError) eqn:Ee.
    + right. destruct Ho as (front & -> & Hf).
      split; [apply in_or_app; right; now left|].
      rewrite WsFacts.print_run. cbn [fst snd now inbox trace WsFacts.logged].
      rewrite Htr. cbn [app]. repeat rewrite <- List.app_assoc. reflexivity.
    + left. split; [assumption|]. cbn [fst snd now inbox trace]. rewrite Htr. reflexivity.
Qed.


(** The request cannot be sent when the close has already reached the
    client. *)
Lemma debug_closed_at_start server :
  connection_closed (fresh (line := line) server) = true ->
  run server =
  (Raise ConnectionClosed,
   World 0 server [Print Connecting; Print Connected; Print CreatingProton;
                   Print (Sending create_msg); Disconnect]).
Proof.
  intros H. unfold run, test_create_particle.
  rewrite WsFacts.bind_print. unfold async_with.
  repeat rewrite WsFacts.bind_print. rewrite WsFacts.bind_send.
  replace (connection_closed _) with true; reflexivity.
Qed.

(** The first turn of the loop, when the first response arrives within the
    first second and examining it raises after printing [acts]. *)
Lemma run_first_response_raises server t response rest e acts :
  server = (t, Frame response) :: rest ->
  t < 1000 ->
  connection_closed (fresh (line := line) server) = false ->
  (forall w, on_response response w = (Raise e, World (now w) (inbox w) (trace w ++ acts))) ->
  e <> TimeoutError ->
  run server =
  (Raise e,
   World t rest (preamble ++ Await (Some 1) (Got response) :: acts ++ [Disconnect])).
Proof.
  intros -> Ht Hc Hm He. unfold run, test_create_particle.
  rewrite WsFacts.bind_print. unfold async_with.
  repeat rewrite WsFacts.bind_print. rewrite WsFacts.bind_send.
  replace (connection_closed _) with false by (symmetry; exact Hc).
  rewrite WsFacts.bind_print. unfold try_except, drain.
  cbn [seq for_each]. unfold bind at 1. rewrite WsFacts.bind_wait_for_recv. cbv zeta.
  unfold fresh. cbn [now inbox trace WsFacts.logged app].
  apply N.ltb_lt in Ht. rewrite N.add_0_l, N.mul_1_r, Ht, Hm.
  rewrite (WsFacts.exn_eqb_neq _ _ He). cbn [fst snd now inbox trace app].
  rewrite N.max_0_l. unfold preamble. cbn [app]. reflexivity.
Qed.

(** A response that decodes to something other than an object. *)
Lemma on_response_not_object response w data :
  Json.loads response = Ok data ->
  (forall d, data <> PyDict d) ->
  on_response response w = (Raise TypeError, w).
Proof.
  intros H N. unfold on_response. rewrite WsFacts.bind_lift, H.
  rewrite WsFacts.bind_lift.
  destruct data; try reflexivity. now destruct (N kvs).
Qed.

Ltac on_response_start H T :=
  unfold on_response; rewrite WsFacts.bind_lift, H;
  rewrite WsFacts.bind_lift; cbn [Py.subscript]; rewrite T;
  rewrite WsFacts.bind_print, WsFacts.bind_lift; cbn [Py.subscript]; rewrite ?T.

(** An [error] response without a message of its own. *)
Lemma on_response_unknown_error response w d p :
  Json.loads response = Ok (PyDict d) ->
  dict_lookup d (lit "type") = Some (PyStr (lit "error")) ->
  Py.get (PyDict d) (lit "payload") (PyDict []) = Ok (PyDict p) ->
  dict_lookup p (lit "message") = None ->
  on_response response w =
  (Return tt,
   World (now w) (inbox w)
     (trace w ++ [Print (ReceivedLine (PyStr (lit "error")));
                  Print (ErrorMessageLine (PyStr (lit "Unknown error")))])).
Proof.
  intros H T P Hm. on_response_start H T.
  replace (Py.eq_str (PyStr (lit "error")) (lit "error")) with true by reflexivity.
  rewrite WsFacts.bind_lift, P, WsFacts.bind_lift. cbn [Py.get]. rewrite Hm.
  rewrite WsFacts.print_run. unfold WsFacts.logged. cbn [now inbox trace].
  now rewrite <- List.app_assoc.
Qed.

(** An [error] response with a message of its own. *)
Lemma on_response_error_message response w d p m :
  Json.loads response = Ok (PyDict d) ->
  dict_lookup d (lit "type") = Some (PyStr (lit "error")) ->
  dict_lookup d (lit "payload") = Some (PyDict p) ->
  dict_lookup p (lit "message") = Some m ->
  on_response response w =
  (Return tt,
   World (now w) (inbox w)
     (trace w ++ [Print (ReceivedLine (PyStr (lit "error"))); Print (ErrorMessageLine m)])).
Proof.
  intros H T P Hm. on_response_start H T.
  replace (Py.eq_str (PyStr (lit "error")) (lit "error")) with true by reflexivity.
  rewrite WsFacts.bind_lift. cbn [Py.get]. rewrite P, WsFacts.bind_lift. cbn [Py.get].
  rewrite Hm.
  rewrite WsFacts.print_run. unfold WsFacts.logged. cbn [now inbox trace].
  now rewrite <- List.app_assoc.
Qed.

(** An [error] response whose payload is not an object. *)
Lemma on_response_error_payload_not_object response w d p :
  Json.loads response = Ok (PyDict d) ->
  dict_lookup d (lit "type") = Some (PyStr (lit "error")) ->
  dict_lookup d (lit "payload") = Some p ->
  (forall q, p <> PyDict q) ->
  on_response response w =
  (Raise AttributeError,
   World (now w) (inbox w) (trace w ++ [Print (ReceivedLine (PyStr (lit "error")))])).
Proof.
  intros H T P N. on_response_start H T.
  replace (Py.eq_str (PyStr (lit "error")) (lit "error")) with true by reflexivity.
  rewrite WsFacts.bind_lift. cbn [Py.get]. rewrite P. rewrite WsFacts.bind_lift.
  destruct p; try reflexivity. now destruct (N kvs).
Qed.

(** A [snapshot] response without a payload, or whose payload has no
    [particles]. *)
Lemma on_response_snapshot_lacking response w d :
  Json.loads response = Ok (PyDict d) ->
  dict_lookup d (lit "type") = Some (PyStr (lit "snapshot")) ->
  (dict_lookup d (lit "payload") = None \/
   exists p, dict_lookup d (lit "payload") = Some (PyDict p) /\
             dict_lookup p (lit "particles") = None) ->
  on_response response w =
  (Raise KeyError,
   World (now w) (inbox w) (trace w ++ [Print (ReceivedLine (PyStr (lit "snapshot")))])).
Proof.
  intros H T P. on_response_start H T.
  replace (Py.eq_str (PyStr (lit "snapshot")) (lit "error")) with false by reflexivity.
  rewrite WsFacts.bind_lift. cbn [Py.subscript]. rewrite ?T.
  replace (Py.eq_str (PyStr (lit "snapshot")) (lit "snapshot")) with true by reflexivity.
  rewrite WsFacts.bind_lift. cbn [Py.subscript].
  destruct P as [-> | (p & -> & Hp)]; [reflexivity|].
  rewrite WsFacts.bind_lift. cbn [Py.subscript]. now rewrite Hp.
Qed.

End Facts.
End CreateParticleDebugRunFacts.

(** ** More facts about [test-create-particle.py] *)

Module CreateParticleRunFacts.
Import CreateParticle Trace TraceFacts CreateParticleFacts.
Section Facts.
Context {FM : FloatModel}.

Lemma creation_closed_at_start server :
  connection_closed (fresh (line := line) server) = true ->
  run server =
  (Raise ConnectionClosed, World 0 server [Print Connecting; Print Connected; Disconnect]).
Proof.
  intros H. unfold run, test_create_particle.
  rewrite WsFacts.bind_print. unfold async_with.
  rewrite WsFacts.bind_print, WsFacts.bind_send.
  replace (connection_closed _) with true; reflexivity.
Qed.

(** A run that reaches its end has taken the first three events of the
    server, all of them frames, as the replies to its three requests; it has
    left the rest unread and has lasted at least the two settling waits. *)
Lemma completed_run_replies server :
  outcome_of server = Return tt ->
  exists t0 s0 t1 s1 t2 s2 rest c0 c1 c2,
    server = (t0, Frame s0) :: (t1, Frame s1) :: (t2, Frame s2) :: rest /\
    particle_count s0 = Ok c0 /\ particle_count s1 = Ok c1 /\ particle_count s2 = Ok c2 /\
    trace_of server = completed_trace s0 s1 s2 c0 c1 c2 /\
    inbox (snd (run server)) = rest /\
    1000 <= now (snd (run server)) /\ t2 <= now (snd (run server)).
Proof.
  run_cases; try discriminate.
  intros _.
  match goal with
  | |- context [[Print Connecting; Print Connected; _; Await None (Got ?s0); Print (InitialCount ?c0);
                 _; _; _; _; Await None (Got ?s1); Print (NewCount ?c1); _; _; _; _; _;
                 Await None (Got ?s2); Print (FinalCount ?c2); _; _]] =>
      match goal with
      | |- context [(?t0, Frame s0) :: (?t1, Frame s1) :: (?t2, Frame s2) :: ?rest] =>
          exists t0, s0, t1, s1, t2, s2, rest, c0, c1, c2
      end
  end.
  repeat split; try reflexivity; try lia; count_known; reflexivity.
Qed.

(** A run that does not block ends by releasing the connection; one that
    blocks still holds it. *)
Lemma run_releases server :
  (outcome_of server = Blocked /\ Forall on_connection (trace_of server)) \/
  (outcome_of server <> Blocked /\ released (trace_of server)).
Proof.
  run_cases.
  all: first [ left; split; [reflexivity | repeat constructor]
             | right; split; [discriminate|];
               repeat (apply released_cons; [exact I|]); apply released_last ].
Qed.

(** A reply that decodes to something other than an object. *)
Lemma particle_count_not_object response data :
  Json.loads response = Ok data ->
  (forall d, data <> PyDict d) ->
  particle_count response = Err TypeError.
Proof.
  intros H N. unfold particle_count, count_in. rewrite H.
  destruct data; try reflexivity. now destruct (N kvs).
Qed.

End Facts.
End CreateParticleRunFacts.

(** ** Replies that are missing *)

Module RepliesFacts.
Import CreateParticle.
Section Facts.
Context {FM : FloatModel}.

(** A frame off which a count can be read. *)
Definition reply (tev : N * event) : Prop :=
  exists text c, snd tev = Frame text /\ particle_count text = Ok c.

Lemma particle_count_ok (s : str) (c : nat) :
  particle_count s = Ok c ->
  exists data payload particles,
    Json.loads s = Ok data /\
    Py.subscript data (lit "payload") = Ok payload /\
    Py.subscript payload (lit "particles") = Ok particles /\
    Py.len particles = Ok c.
Proof.
  unfold particle_count, count_in.
  destruct (Json.loads s) as [data|] eqn:L; [|discriminate].
  destruct (Py.subscript data (lit "payload")) as [payload|] eqn:P; [|discriminate].
  destruct (Py.subscript payload (lit "particles")) as [particles|] eqn:X; [|discriminate].
  intros H. now exists data, payload, particles.
Qed.

Ltac reply_facts H :=
  let text := fresh "s" in
  let c := fresh "c" in
  let E := fresh "E" in
  let K := fresh "K" in
  destruct H as (text & c & E & K); cbn [snd] in E; subst;
  apply particle_count_ok in K;
  let data := fresh "data" in
  let payload := fresh "payload" in
  let particles := fresh "particles" in
  let L := fresh "L" in
  let P := fresh "P" in
  let X := fresh "X" in
  let N := fresh "N" in
  destruct K as (data & payload & particles & L & P & X & N).

Ltac run_on :=
  repeat (autorewrite with ws;
          cbn [now inbox trace WsFacts.logged connection_closed existsb is_close
               snd fst andb orb app];
          repeat match goal with
                 | H : _ = Ok _ |- _ => rewrite H
                 end).

Ltac run_step_closed :=
  repeat (autorewrite with ws;
          cbn [now inbox trace WsFacts.logged snd fst app];
          repeat match goal with
                 | H : _ = Ok _ |- _ => rewrite H
                 end;
          try match goal with
              | |- context [if connection_closed ?w then _ else _] =>
                  destruct (connection_closed w)
              end);
  reflexivity.

(** When the server sends fewer than three replies and then stays silent
    with the connection open, the run blocks on the receive that has no
    reply. *)
Lemma too_few_replies server :
  (length server < 3)%nat -> Forall reply server -> outcome_of server = Blocked.
Proof.
  intros Hl Hr. unfold outcome_of, run, test_create_particle, fresh, async_with.
  destruct server as [|[t0 e0] [|[t1 e1] [|[t2 e2] rest]]]; [| | |cbn in Hl; lia].
  - run_on. reflexivity.
  - inversion Hr as [|? ? H0 _]; subst. reply_facts H0. run_on. reflexivity.
  - inversion Hr as [|? ? H0 Hr']; subst. inversion Hr' as [|? ? H1 _]; subst.
    reply_facts H0. reply_facts H1. run_on. reflexivity.
Qed.

(** When the server closes the connection after fewer than three replies,
    the run ends with [ConnectionClosed], at the receive that finds the
    close or at a send before it. *)
Lemma close_after_few_replies replies t rest :
  (length replies < 3)%nat -> Forall reply replies ->
  outcome_of (replies ++ (t, Close) :: rest) = Raise ConnectionClosed.
Proof.
  intros Hl Hr. unfold outcome_of, run, test_create_particle, fresh, async_with.
  destruct replies as [|[t0 e0] [|[t1 e1] [|[t2 e2] more]]]; [| | |cbn in Hl; lia];
    cbn [app].
  - run_step_closed.
  - inversion Hr as [|? ? H0 _]; subst. reply_facts H0. run_step_closed.
  - inversion Hr as [|? ? H0 Hr']; subst. inversion Hr' as [|? ? H1 _]; subst.
    reply_facts H0. reply_facts H1. run_step_closed.
Qed.

End Facts.
End RepliesFacts.

(** ** What is taken from the connection *)

Module InboxFacts.
Section Facts.
Context {FM : FloatModel}.

(** What a run took from the connection: the events [consumed], in the
    order of their arrival, each of which arrived before [limit]. *)
Definition took {line : Type} (limit : N) (consumed : list (N * event))
    (w w' : world line) : Prop :=
  inbox w = consumed ++ inbox w' /\ Forall (fun tev => fst tev < limit) consumed.

Lemma took_nothing {line : Type} (limit : N) (w w' : world line) :
  inbox w' = inbox w -> took limit [] w w'.
Proof. intros E. split; [now rewrite E | constructor]. Qed.

Lemma took_trans {line : Type} (l1 l2 : N) (c1 c2 : list (N * event))
    (w w1 w2 : world line) :
  l1 <= l2 -> took l1 c1 w w1 -> took l2 c2 w1 w2 -> took l2 (c1 ++ c2) w w2.
Proof.
  intros Hl [E1 F1] [E2 F2]. split.
  - now rewrite E1, E2, List.app_assoc.
  - apply Forall_app. split; [|assumption].
    revert F1. apply Forall_impl. intros tev H. lia.
Qed.

(** One turn of the listener takes at most the head of the inbox, and
    only if it arrives within the second. *)
Lemma attempt_took count (w : world WsSimple.line) :
  exists consumed,
    took (now w + 1000) consumed w (snd (WsSimple.attempt count w)) /\
    (length consumed <= 1)%nat.
Proof.
  unfold WsSimple.attempt, try_except. rewrite WsFacts.bind_wait_for_recv.
  cbv zeta. rewrite N.mul_1_r.
  destruct (inbox w) as [|[t [text|]] rest] eqn:E.
  - exists []. cbn [exn_eqb]. rewrite WsFacts.bind_print. cbn [snd ret].
    split; [apply took_nothing; now rewrite E | cbn; lia].
  - destruct (t <? now w + 1000) eqn:Ht.
    + apply N.ltb_lt in Ht.
      set (w1 := World (N.max (now w) t) rest
                   (trace w ++ [Await (Some 1) (Got text)])).
      destruct (WsSimpleFacts.on_message_spec text count w1) as (acts & _ & _ & Hw & Ho).
      destruct (WsSimple.on_message text count w1) as [o w'] eqn:B.
      cbn [fst snd] in *. subst w'.
      exists [(t, Frame text)]. split; [|cbn; lia].
      destruct Ho as [-> | (e & -> & He)].
      * cbn [snd]. split; [now rewrite E | repeat constructor; cbn; lia].
      * rewrite (WsFacts.exn_eqb_neq _ _ He). cbn [snd].
        split; [now rewrite E | repeat constructor; cbn; lia].
    + exists []. cbn [exn_eqb]. rewrite WsFacts.bind_print. cbn [snd ret].
      split; [apply took_nothing; now rewrite E | cbn; lia].
  - destruct (t <? now w + 1000) eqn:Ht.
    + exists []. cbn [exn_eqb snd]. split; [apply took_nothing; now rewrite E | cbn; lia].
    + exists []. cbn [exn_eqb]. rewrite WsFacts.bind_print. cbn [snd ret].
      split; [apply took_nothing; now rewrite E | cbn; lia].
Qed.

Lemma listen_took (timeout start : N) :
  timeout < 86400 ->
  forall fuel count (w : world WsSimple.line),
    start <= now w ->
    (now w - start) / 1000 <= timeout ->
    exists consumed,
      took (start + 1000 * (timeout + 1)) consumed w
           (snd (WsSimple.listen fuel timeout start count w)).
Proof.
  intros Ht fuel. induction fuel as [|fuel IH]; intros count w Hs He.
  - exists []. now apply took_nothing.
  - cbn [WsSimple.listen]. rewrite WsFacts.bind_clock. unfold WsSimple.timedelta_seconds.
    rewrite (N.mod_small ((now w - start) / 1000) 86400) by lia.
    destruct ((now w - start) / 1000 <? timeout) eqn:C.
    + apply N.ltb_lt in C. unfold bind.
      destruct (attempt_took count w) as (c1 & T1 & _).
      destruct (WsSimpleRunFacts.attempt_clock count w) as (acts & _ & Hlo & Hhi).
      assert (L1 : now w + 1000 <= start + 1000 * (timeout + 1)) by div_lia.
      destruct (WsSimple.attempt count w) as [[count'|e| |] w1]; cbn [fst snd] in *.
      * destruct (IH count' w1) as (c2 & T2); [lia | div_lia |].
        exists (c1 ++ c2). eapply took_trans; eassumption.
      * exists c1. destruct T1 as [E F]. split; [assumption|].
        revert F. apply Forall_impl. intros tev H. lia.
      * exists c1. destruct T1 as [E F]. split; [assumption|].
        revert F. apply Forall_impl. intros tev H. lia.
      * exists c1. destruct T1 as [E F]. split; [assumption|].
        revert F. apply Forall_impl. intros tev H. lia.
    + exists []. now apply took_nothing.
Qed.

Lemma listener_took server :
  exists consumed, took 11000 consumed (fresh server) (snd (WsSimple.run server)).
Proof.
  unfold WsSimple.run, WsSimple.test_websocket.
  rewrite WsFacts.bind_print. unfold async_with.
  rewrite WsFacts.bind_print, WsFacts.bind_send.
  destruct (connection_closed _).
  { exists []. now apply took_nothing. }
  rewrite WsFacts.bind_print. unfold try_except_Exception.
  rewrite WsFacts.bind_print, WsFacts.bind_clock. unfold bind. cbv beta.
  cbn [now inbox trace app WsFacts.logged fresh].
  match goal with
  | |- context [WsSimple.listen ?f 10 0 0 ?w] =>
      destruct (listen_took 10 0 eq_refl f 0%nat w) as (consumed & [E F]);
        [ cbn; lia | cbn; lia | ];
      destruct (WsSimple.listen f 10 0 0 w) as [[n|e| |] w1]
  end; cbn [fst snd now inbox trace] in *.
  all: try rewrite WsFacts.print_run; cbn [fst snd now inbox trace WsFacts.logged].
  all: exists consumed; split; assumption.
Qed.

(** The drain loop takes at most one event for each turn, each within
    the second of its turn. *)
Lemma drain_took (xs : list nat) (w : world CreateParticleDebug.line) :
  let r := for_each xs (fun _ => response <- wait_for_recv 1 ;;
                                 CreateParticleDebug.on_response response) w in
  exists consumed,
    took (now w + 1000 * N.of_nat (length xs)) consumed w (snd r) /\
    (length consumed <= length xs)%nat.
Proof.
  revert w. induction xs as [|x xs IH]; intros w; cbv zeta.
  - exists []. split; [now apply took_nothing | cbn; lia].
  - destruct (for_each (x :: xs) _ w) as [o w'] eqn:B. cbn [fst snd length].
    cbn [for_each] in B. unfold bind at 1 in B. rewrite WsFacts.bind_wait_for_recv in B.
    cbv zeta in B. rewrite N.mul_1_r in B.
    destruct (inbox w) as [|[t [text|]] rest] eqn:E.
    + injection B as <- <-. exists []. split; [apply took_nothing; now rewrite E | cbn; lia].
    + destruct (t <? now w + 1000) eqn:Ht.
      * apply N.ltb_lt in Ht.
        set (w1 := World (N.max (now w) t) rest
                     (trace w ++ [Await (Some 1) (Got text)])) in B.
        destruct (CreateParticleDebugFacts.on_response_spec text w1)
          as (acts & Hw & _ & _ & _ & Ho).
        destruct (CreateParticleDebug.on_response text w1) as [o2 w2]. subst w1.
        cbn [fst snd now inbox trace] in *. subst w2.
        destruct Ho as [-> | (e & -> & He)].
        -- specialize (IH (World (N.max (now w) t) rest
                                 ((trace w ++ [Await (Some 1) (Got text)]) ++ acts))).
           cbv zeta in IH. rewrite B in IH. cbn [fst snd now inbox trace] in IH.
           destruct IH as (c2 & [E2 F2] & L2).
           exists ((t, Frame text) :: c2). split; [split|].
           ++ rewrite E. cbn [app]. now rewrite <- E2.
           ++ constructor; [cbn; lia|].
              revert F2. apply Forall_impl. intros tev H. lia.
           ++ cbn [length]. lia.
        -- injection B as <- <-. exists [(t, Frame text)]. split; [split|].
           ++ now rewrite E.
           ++ repeat constructor. cbn. lia.
           ++ cbn. lia.
      * injection B as <- <-. exists [].
        split; [apply took_nothing; now rewrite E | cbn; lia].
    + destruct (t <? now w + 1000) eqn:Ht.
      * injection B as <- <-. exists [].
        split; [apply took_nothing; now rewrite E | cbn; lia].
      * injection B as <- <-. exists [].
        split; [apply took_nothing; now rewrite E | cbn; lia].
Qed.

Lemma debug_took server :
  exists consumed,
    took 5000 consumed (fresh server) (snd (CreateParticleDebug.run server)) /\
    (length consumed <= 5)%nat.
Proof.
  unfold CreateParticleDebug.run, CreateParticleDebug.test_create_particle.
  rewrite WsFacts.bind_print. unfold async_with.
  repeat rewrite WsFacts.bind_print. rewrite WsFacts.bind_send.
  destruct (connection_closed _).
  { exists []. split; [now apply took_nothing | cbn; lia]. }
  rewrite WsFacts.bind_print. unfold try_except, CreateParticleDebug.drain.
  match goal with
  | |- context [for_each ?xs ?f ?w] =>
      destruct (drain_took xs w) as (consumed & [E F] & L);
      cbv zeta in *; destruct (for_each xs f w) as [[[]|e| |] w1]
  end; cbn [fst snd now inbox trace WsFacts.logged length seq fresh N.of_nat] in *.
  all: try (destruct (exn_eqb e TimeoutError); try rewrite WsFacts.print_run);
    cbn [fst snd now inbox trace WsFacts.logged].
  all: exists consumed; split; [split; assumption | assumption].
Qed.

End Facts.
End InboxFacts.

(** ** The particle count of a snapshot *)

Module SnapshotFacts.
Section Facts.
Context {FM : FloatModel}.

(** The listener reports the number of particles of a well-formed snapshot
    before it looks at the other fields. *)
Lemma on_message_particles message count (w : world WsSimple.line) d p xs :
  Json.loads message = Ok (PyDict d) ->
  dict_lookup d (lit "type") = Some (PyStr (lit "snapshot")) ->
  dict_lookup d (lit "payload") = Some (PyDict p) ->
  dict_lookup p (lit "particles") = Some (PyList xs) ->
  exists more,
    trace (snd (WsSimple.on_message message count w)) =
    trace w ++ [Print WsSimple.SnapshotReceived; Print (WsSimple.ParticlesLine (length xs))]
      ++ more.
Proof.
  intros H T P X.
  destruct (WsSimple.on_message message count w) as [o w'] eqn:B.
  unfold WsSimple.on_message in B. rewrite WsFacts.bind_lift, H in B. cbv zeta in B.
  assert (G : Py.get (PyDict d) (lit "type") PyNone = Ok (PyStr (lit "snapshot")))
    by (cbn [Py.get]; now rewrite T).
  rewrite WsFacts.bind_lift, G in B.
  replace (Py.eq_str (PyStr (lit "snapshot")) (lit "snapshot")) with true in B by reflexivity.
  rewrite WsFacts.bind_lift in B. cbn [Py.get] in B. rewrite P in B.
  rewrite WsFacts.bind_lift in B. cbn [Py.get] in B. rewrite X in B.
  rewrite WsFacts.bind_lift in B.
  destruct (dict_lookup p (lit "metrics")) as [m|];
    rewrite WsFacts.bind_print, WsFacts.bind_lift in B; cbn [Py.len] in B;
    rewrite WsFacts.bind_print in B.
  all: repeat ws_step B.
  all: cbn [snd]; unfold WsFacts.logged; cbn [now inbox trace];
    repeat rewrite <- List.app_assoc; cbn [app]; eexists; reflexivity.
Qed.

Lemma on_response_particles response (w : world CreateParticleDebug.line) d p xs :
  Json.loads response = Ok (PyDict d) ->
  dict_lookup d (lit "type") = Some (PyStr (lit "snapshot")) ->
  dict_lookup d (lit "payload") = Some (PyDict p) ->
  dict_lookup p (lit "particles") = Some (PyList xs) ->
  CreateParticleDebug.on_response response w =
  (Return tt,
   World (now w) (inbox w)
     (trace w ++ [Print (CreateParticleDebug.ReceivedLine (PyStr (lit "snapshot")));
                  Print (CreateParticleDebug.SnapshotLine (length xs))])).
Proof.
  intros H T P X. unfold CreateParticleDebug.on_response.
  rewrite WsFacts.bind_lift, H.
  rewrite WsFacts.bind_lift. cbn [Py.subscript]. rewrite T.
  rewrite WsFacts.bind_print, WsFacts.bind_lift. cbn [Py.subscript]. rewrite ?T.
  replace (Py.eq_str (PyStr (lit "snapshot")) (lit "error")) with false by reflexivity.
  rewrite WsFacts.bind_lift. cbn [Py.subscript]. rewrite ?T.
  replace (Py.eq_str (PyStr (lit "snapshot")) (lit "snapshot")) with true by reflexivity.
  rewrite WsFacts.bind_lift. cbn [Py.subscript]. rewrite P.
  rewrite WsFacts.bind_lift. cbn [Py.subscript]. rewrite X.
  rewrite WsFacts.bind_lift. cbn [Py.len].
  rewrite WsFacts.print_run. unfold WsFacts.logged. cbn [now inbox trace].
  now rewrite <- List.app_assoc.
Qed.

Lemma particle_count_particles response d p xs :
  Json.loads response = Ok (PyDict d) ->
  dict_lookup d (lit "payload") = Some (PyDict p) ->
  dict_lookup p (lit "particles") = Some (PyList xs) ->
  CreateParticle.particle_count response = Ok (length xs).
Proof.
  intros H P X. unfold CreateParticle.particle_count, CreateParticle.count_in.
  rewrite H. cbn [Py.subscript]. rewrite P. cbn [Py.subscript]. rewrite X. reflexivity.
Qed.

End Facts.
End SnapshotFacts.

(** ** The text of a value *)

Module WireFacts.
Import Json Wire JsonFacts.
Section Facts.
Context {FM : FloatModel}.

Ltac printable_char := unfold printable, QUOTE, BACKSLASH, digit_char; cbn; lia.

Lemma hexdigit_printable (d : N) : d < 16 -> printable (hexdigit d).
Proof.
  intros H. unfold hexdigit, printable. destruct (N.ltb_spec d 10); lia.
Qed.

Lemma u_escape_printable (n : N) : Forall printable (u_escape n).
Proof.
  unfold u_escape, hex4.
  repeat (apply Forall_cons || apply Forall_nil);
    try printable_char;
    apply hexdigit_printable; apply N.mod_lt; discriminate.
Qed.

Lemma escape_char_printable (c : N) : Forall printable (escape_char c).
Proof.
  unfold escape_char.
  repeat match goal with
         | |- context [if ?a =? ?b then _ else _] => destruct (a =? b)
         end;
    try (repeat (apply Forall_cons || apply Forall_nil); printable_char).
  destruct ((32 <=? c) && (c <=? 126)) eqn:Hp.
  - apply andb_true_iff in Hp. destruct Hp as [H1 H2].
    apply N.leb_le in H1, H2. repeat constructor; assumption.
  - destruct (c <? 0x10000).
    + apply u_escape_printable.
    + apply Forall_app. split; apply u_escape_printable.
Qed.

Lemma basestring_printable (s : str) : Forall printable (encode_basestring_ascii s).
Proof.
  unfold encode_basestring_ascii. constructor; [printable_char|].
  apply Forall_app. split.
  - apply Forall_flat_map. apply Forall_forall. intros c _. apply escape_char_printable.
  - repeat (apply Forall_cons || apply Forall_nil); printable_char.
Qed.

Lemma uint_chars_printable (d : Decimal.uint) : Forall printable (uint_chars d).
Proof.
  induction d; cbn [uint_chars]; constructor; auto; printable_char.
Qed.

Lemma int_repr_printable (z : Z) : Forall printable (int_repr z).
Proof.
  unfold int_repr. destruct (Z.to_int z).
  - apply uint_chars_printable.
  - constructor; [printable_char | apply uint_chars_printable].
Qed.

Lemma join_printable (sep : str) (parts : list str) :
  Forall printable sep -> Forall (Forall printable) parts ->
  Forall printable (join sep parts).
Proof.
  intros Hs. induction 1 as [|p parts Hp Hparts IH]; [constructor|].
  destruct parts as [|q parts]; [exact Hp|].
  change (join sep (p :: q :: parts)) with (p ++ sep ++ join sep (q :: parts)).
  apply Forall_app. split; [exact Hp|]. apply Forall_app. split; assumption.
Qed.

Lemma separator_printable : Forall printable (lit ", ") /\ Forall printable (lit ": ").
Proof. split; repeat (apply Forall_cons || apply Forall_nil); printable_char. Qed.

(** With [ensure_ascii] the text of a value is printable ASCII, whatever
    its strings hold, as long as the numerals of its floats are. *)
Lemma dumps_printable (v : pyval) :
  Forall (fun f => Forall printable (floatstr f)) (floats_in v) ->
  Forall printable (dumps v).
Proof.
  induction v as [ |b|z|f|s|xs IH|kvs IH] using pyval_induction; intros Hf.
  - repeat (apply Forall_cons || apply Forall_nil); printable_char.
  - destruct b; repeat (apply Forall_cons || apply Forall_nil); printable_char.
  - apply int_repr_printable.
  - cbn [floats_in] in Hf. now inversion Hf.
  - apply basestring_printable.
  - cbn [dumps]. constructor; [printable_char|].
    apply Forall_app. split; [|repeat (apply Forall_cons || apply Forall_nil); printable_char].
    apply join_printable; [apply separator_printable|].
    cbn [floats_in] in Hf. rewrite Forall_flat_map in Hf.
    apply Forall_map. rewrite Forall_forall in *. intros x Hx.
    apply (IH x Hx). apply (Hf x Hx).
  - cbn [dumps]. constructor; [printable_char|].
    apply Forall_app. split; [|repeat (apply Forall_cons || apply Forall_nil); printable_char].
    apply join_printable; [apply separator_printable|].
    cbn [floats_in] in Hf. rewrite Forall_flat_map in Hf.
    apply Forall_map. rewrite Forall_forall in *. intros [k x] Hx. cbn [fst snd].
    apply Forall_app. split; [apply basestring_printable|].
    apply Forall_app. split; [apply separator_printable|].
    apply (IH (k, x) Hx). apply (Hf (k, x) Hx).
Qed.

(** *** Surrogates *)

Lemma escape_surrogate (c : N) :
  0xd800 <= c -> c <= 0xdfff -> escape_char c = u_escape c.
Proof.
  intros H1 H2. unfold escape_char, QUOTE, BACKSLASH.
  repeat match goal with
         | |- context [?a <=? ?b] => destruct (N.leb_spec a b); try lia
         | |- context [?a <? ?b] => destruct (N.ltb_spec a b); try lia
         | |- context [?a =? ?b] => destruct (N.eqb_spec a b); try lia
         end; cbn [andb]; try reflexivity.
Qed.

(** A high surrogate followed by a low surrogate, each written as its own
    escape, is read as the one code point the pair denotes. *)
Lemma scan_surrogate_pair (hi lo : N) (fuel : nat) (rest : str) :
  is_high_surrogate hi = true -> is_low_surrogate lo = true ->
  scanstring_fuel (S fuel) (u_escape hi ++ u_escape lo ++ rest)
  = scan_map (cons (join_surrogates hi lo)) (scanstring_fuel fuel rest).
Proof.
  intros Hhi Hlo.
  assert (Bhi : hi < 0x10000).
  { unfold is_high_surrogate in Hhi. apply andb_true_iff in Hhi.
    destruct Hhi as [_ H]. apply N.leb_le in H. lia. }
  assert (Blo : lo < 0x10000).
  { unfold is_low_surrogate in Hlo. apply andb_true_iff in Hlo.
    destruct Hlo as [_ H]. apply N.leb_le in H. lia. }
  unfold u_escape. cbn [app scanstring_fuel].
  cbn [N.eqb Pos.eqb QUOTE BACKSLASH ch N_of_ascii N_of_digits].
  rewrite decode_hex4 by assumption. rewrite Hhi.
  cbn [N.eqb Pos.eqb QUOTE BACKSLASH ch N_of_ascii N_of_digits andb].
  rewrite decode_hex4 by assumption. now rewrite Hlo.
Qed.

Lemma scanstring_surrogate_pair (hi lo : N) (rest : str) :
  is_high_surrogate hi = true -> is_low_surrogate lo = true ->
  scanstring (u_escape hi ++ u_escape lo ++ QUOTE :: rest)
  = Scanned [join_surrogates hi lo] rest.
Proof.
  intros Hhi Hlo. unfold scanstring. rewrite scan_surrogate_pair by assumption.
  assert (E : exists n, length (u_escape hi ++ u_escape lo ++ QUOTE :: rest) = S n)
    by (unfold u_escape; cbn [app length]; eexists; reflexivity).
  destruct E as (n & ->). reflexivity.
Qed.

Lemma loads_surrogate_pair (hi lo : N) :
  is_high_surrogate hi = true -> is_low_surrogate lo = true ->
  loads (dumps (PyStr [hi; lo])) = Ok (PyStr [join_surrogates hi lo]).
Proof.
  intros Hhi Hlo.
  assert (Ehi : escape_char hi = u_escape hi).
  { unfold is_high_surrogate in Hhi. apply andb_true_iff in Hhi.
    destruct Hhi as [H1 H2]. apply N.leb_le in H1, H2. apply escape_surrogate; lia. }
  assert (Elo : escape_char lo = u_escape lo).
  { unfold is_low_surrogate in Hlo. apply andb_true_iff in Hlo.
    destruct Hlo as [H1 H2]. apply N.leb_le in H1, H2. apply escape_surrogate; lia. }
  assert (E : dumps (PyStr [hi; lo]) = QUOTE :: u_escape hi ++ u_escape lo ++ [QUOTE]).
  { cbn [dumps]. unfold encode_basestring_ascii. cbn [flat_map].
    now rewrite Ehi, Elo, List.app_nil_r, <- List.app_assoc. }
  unfold loads. rewrite E.
  replace (skip_ws (QUOTE :: u_escape hi ++ u_escape lo ++ [QUOTE]))
    with (QUOTE :: u_escape hi ++ u_escape lo ++ [QUOTE]) by reflexivity.
  rewrite Nat.add_comm. cbn [Nat.add scan_once].
  change (QUOTE =? QUOTE) with true. cbv iota.
  now rewrite scanstring_surrogate_pair.
Qed.

(** *** Objects that repeat a key *)

Lemma str_eqb_refl (k : str) : str_eqb k k = true.
Proof. now apply str_eqb_eq. Qed.

Lemma dict_lookup_set_same (d : list (str * pyval)) (k : str) (v : pyval) :
  dict_lookup (dict_set d k v) k = Some v.
Proof.
  induction d as [|[k0 v0] d IH]; cbn [dict_set dict_lookup].
  - now rewrite str_eqb_refl.
  - destruct (str_eqb k0 k) eqn:E; cbn [dict_lookup]; now rewrite E.
Qed.

Lemma dict_lookup_app (d e : list (str * pyval)) (k : str) :
  dict_lookup (d ++ e) k =
  match dict_lookup d k with
  | Some v => Some v
  | None => dict_lookup e k
  end.
Proof.
  induction d as [|[k0 v0] d IH]; cbn [app dict_lookup]; [reflexivity|].
  now destruct (str_eqb k0 k).
Qed.

Lemma dict_lookup_fold (kvs d : list (str * pyval)) (k : str) :
  dict_lookup (fold_left (fun d kv => dict_set d (fst kv) (snd kv)) kvs d) k =
  match dict_lookup (rev kvs) k with
  | Some v => Some v
  | None => dict_lookup d k
  end.
Proof.
  revert d. induction kvs as [|[k0 v0] kvs IH]; intros d; cbn [fold_left rev fst snd].
  - reflexivity.
  - rewrite IH, dict_lookup_app. destruct (dict_lookup (rev kvs) k); [reflexivity|].
    cbn [dict_lookup]. destruct (str_eqb k0 k) eqn:E.
    + apply str_eqb_eq in E. subst k0. apply dict_lookup_set_same.
    + now apply CreateParticleFacts.dict_lookup_set_other.
Qed.

(** Looking a key up in [dict(pairs)] gives the value of the last pair
    that has the key. *)
Lemma dict_of_pairs_lookup (kvs : list (str * pyval)) (k : str) :
  dict_lookup (dict_of_pairs kvs) k = dict_lookup (rev kvs) k.
Proof.
  unfold dict_of_pairs. rewrite dict_lookup_fold. now destruct (dict_lookup (rev kvs) k).
Qed.

Lemma dict_set_keys (d : list (str * pyval)) (k : str) (v : pyval) :
  map fst (dict_set d k v) = if existsb (fun k' => str_eqb k' k) (map fst d)
                             then map fst d else map fst d ++ [k].
Proof.
  induction d as [|[k0 v0] d IH]; cbn [dict_set map fst existsb app]; [reflexivity|].
  destruct (str_eqb k0 k) eqn:E; cbn [orb map fst]; [reflexivity|].
  rewrite IH. now destruct (existsb _ (map fst d)).
Qed.

Lemma dict_set_nodup (d : list (str * pyval)) (k : str) (v : pyval) :
  NoDup (map fst d) -> NoDup (map fst (dict_set d k v)).
Proof.
  intros H. rewrite dict_set_keys.
  destruct (existsb (fun k' => str_eqb k' k) (map fst d)) eqn:E; [assumption|].
  apply NoDup_app; [assumption | repeat constructor; intros [] |].
  intros k' Hin [-> | []].
  assert (existsb (fun k'' => str_eqb k'' k') (map fst d) = true).
  { apply existsb_exists. exists k'. split; [assumption | apply str_eqb_refl]. }
  congruence.
Qed.

Lemma dict_of_pairs_nodup (kvs : list (str * pyval)) : NoDup (map fst (dict_of_pairs kvs)).
Proof.
  unfold dict_of_pairs.
  assert (G : forall d, NoDup (map fst d) ->
                        NoDup (map fst (fold_left (fun d kv => dict_set d (fst kv) (snd kv)) kvs d))).
  { induction kvs as [|kv kvs IH]; intros d Hd; cbn [fold_left]; [assumption|].
    apply IH. now apply dict_set_nodup. }
  apply G. constructor.
Qed.

Lemma pairs_ok_forall (kvs : list (str * pyval)) :
  Forall (fun kv => string_ok (fst kv) /\ json_ok (snd kv)) kvs -> pairs_ok kvs.
Proof.
  induction 1 as [|kv kvs [Hk Hv] _ IH]; cbn; auto.
Qed.

(** The text of an object that lists the pairs [kvs], which may repeat
    keys, reads as [dict(kvs)]. *)
Lemma scan_object_text (kvs : list (str * pyval)) :
  pairs_ok kvs ->
  forall fuel rest,
    (S (pairs_weight kvs) <= fuel)%nat ->
    scan_once fuel (dumps (PyDict kvs) ++ rest) = Scanned (PyDict (dict_of_pairs kvs)) rest.
Proof.
  intros Hok fuel rest Hf.
  assert (IH : Forall (fun kv => reads_back (snd kv)) kvs).
  { apply Forall_forall. intros kv _. apply scan_dumps. }
  destruct fuel as [|fuel]; [lia|].
  destruct kvs as [|kv kvs]; [reflexivity|].
  cbn [dumps app scan_once]. cbn [ch N_of_ascii N_of_digits QUOTE].
  cbn -[join skip_ws parse_pairs map dumps dict_of_pairs].
  rewrite <- List.app_assoc.
  assert (Hq : exists body,
             join (lit ", ") (map pair_text (kv :: kvs)) ++ ch "}" :: rest = QUOTE :: body).
  { cbn [map]. destruct (map _ kvs); cbn [join];
      unfold pair_text at 1, encode_basestring_ascii; cbn [app]; eexists; reflexivity. }
  destruct Hq as (body & Hq).
  match goal with
  | |- context [skip_ws ?t] =>
      change t with (join (lit ", ") (map pair_text (kv :: kvs)) ++ ch "}" :: rest)
  end.
  rewrite Hq.
  cbn [skip_ws is_ws QUOTE]. cbn -[join skip_ws parse_pairs map dumps dict_of_pairs].
  rewrite (pairs_read_back (kv :: kvs) IH Hok ltac:(discriminate) fuel rest body);
    [reflexivity | lia | exact Hq].
Qed.

Lemma pairs_weight_bound (kvs : list (str * pyval)) :
  pairs_ok kvs ->
  (pairs_weight kvs <= 2 * length (join (lit ", ") (map pair_text kvs)) + 1)%nat.
Proof.
  induction kvs as [|[k v] kvs IH]; intros Hok; [cbn; lia|].
  destruct Hok as (_ & Hv & Hok). cbn [fst snd] in *.
  specialize (IH Hok). pose proof (size_bound v Hv) as Hs.
  change (pairs_weight ((k, v) :: kvs)) with (S (size v + pairs_weight kvs)).
  assert (L : (length (dumps v) <= length (pair_text (k, v)))%nat).
  { unfold pair_text. cbn [fst snd]. rewrite !length_app. lia. }
  destruct kvs as [|kv kvs]; [cbn [map join pairs_weight]; lia|].
  change (join (lit ", ") (map pair_text ((k, v) :: kv :: kvs)))
    with (pair_text (k, v) ++ lit ", " ++ join (lit ", ") (map pair_text (kv :: kvs))).
  rewrite !length_app. cbn [lit list_ascii_of_string map length] in *. lia.
Qed.

Lemma loads_object_text (kvs : list (str * pyval)) :
  pairs_ok kvs -> loads (dumps (PyDict kvs)) = Ok (PyDict (dict_of_pairs kvs)).
Proof.
  intros Hok. unfold loads.
  replace (skip_ws (dumps (PyDict kvs))) with (dumps (PyDict kvs) ++ []).
  2:{ rewrite List.app_nil_r. reflexivity. }
  rewrite scan_object_text; [reflexivity | assumption |].
  pose proof (pairs_weight_bound kvs Hok) as W.
  cbn [dumps length]. rewrite length_app. cbn [length].
  change (map _ kvs) with (map pair_text kvs). lia.
Qed.

End Facts.
End WireFacts.

(** ** Indented text *)

Module JsonIndentFacts.
Import Json Wire JsonFacts.
Section Facts.
Context {FM : FloatModel}.

(** *** Numbers before any character that cannot continue them *)

Definition stops_number (rest : str) : Prop :=
  match rest with
  | [] => True
  | c :: _ => is_digit c = false /\ (c =? ch ".") = false /\
              (c =? ch "e") = false /\ (c =? ch "E") = false
  end.

Lemma ends_item_stops (rest : str) : JsonIndent.ends_item rest -> stops_number rest.
Proof.
  destruct rest as [|c rest]; [trivial|].
  intros [-> | ->]; repeat split.
Qed.

Lemma span_uint_chars_stop (d : Decimal.uint) (rest : str) :
  stops_number rest -> span_digits (uint_chars d ++ rest) = (uint_chars d, rest).
Proof.
  intros H.
  induction d; cbn [uint_chars app span_digits];
    try (change (is_digit (digit_char _)) with true; cbv iota; rewrite IHd; reflexivity).
  destruct rest as [|c rest]; [reflexivity|]. cbn [span_digits].
  destruct H as (-> & _). reflexivity.
Qed.

Lemma match_integer_uint_stop (d : Decimal.uint) (rest : str) :
  leading_nonzero d -> stops_number rest ->
  match_integer (uint_chars d ++ rest) = Some (uint_chars d, rest) /\
  match_integer (ch "-" :: uint_chars d ++ rest) = Some (ch "-" :: uint_chars d, rest).
Proof.
  intros Hd Hr. unfold match_integer.
  destruct d; try contradiction; cbn [uint_chars app];
    change (ch "-" =? ch "-") with true; cbv iota;
    change (digit_char _ =? ch "-") with false;
    change (digit_char _ =? ch "0") with false;
    change (is_digit (digit_char _)) with true; cbv iota;
    rewrite span_uint_chars_stop by assumption; split; reflexivity.
Qed.

Lemma stop_no_fraction (rest : str) :
  stops_number rest -> match_frac rest = ([], rest) /\ match_exp rest = ([], rest).
Proof.
  destruct rest as [|c rest]; [split; reflexivity|].
  intros (_ & Hp & He & HE). cbn [match_frac match_exp]. now rewrite Hp, He, HE.
Qed.

Lemma match_number_int_stop (z : Z) (rest : str) :
  stops_number rest ->
  match_number (int_repr z ++ rest) = Some (int_repr z, [], [], rest).
Proof.
  intros Hr. unfold match_number, int_repr.
  destruct (stop_no_fraction rest Hr) as [Hf He].
  destruct z as [|p|p]; cbn [Z.to_int].
  - cbn [uint_chars app]. unfold match_integer.
    change (digit_char 0 =? ch "-") with false. cbv iota.
    change (digit_char 0 =? ch "0") with true. cbv iota.
    cbn [app]. now rewrite Hf, He.
  - destruct (match_integer_uint_stop (Pos.to_uint p) rest (to_uint_leading p) Hr) as [-> _].
    now rewrite Hf, He.
  - cbn [app].
    destruct (match_integer_uint_stop (Pos.to_uint p) rest (to_uint_leading p) Hr) as [_ ->].
    now rewrite Hf, He.
Qed.

Lemma scan_int_stop (z : Z) (fuel : nat) (rest : str) :
  stops_number rest -> scan_once (S fuel) (int_repr z ++ rest) = Scanned (PyInt z) rest.
Proof.
  intros Hr.
  assert (H : exists c s, int_repr z = c :: s /\ (is_digit c = true \/ c = ch "-")).
  { unfold int_repr. destruct z as [|p|p]; cbn [Z.to_int].
    - now exists (digit_char 0), []; split; [|left].
    - destruct (uint_chars_head _ (to_uint_leading p)) as (c & s & Es & Hd & _).
      exists c, s. split; [assumption | now left].
    - eexists; eexists; split; [reflexivity | now right]. }
  destruct H as (c & s & E & Hc).
  rewrite E. cbn [app]. rewrite scan_once_number by assumption.
  change (c :: s ++ rest) with ((c :: s) ++ rest). rewrite <- E.
  unfold scan_number. rewrite match_number_int_stop by assumption.
  now rewrite int_of_int_repr.
Qed.

(** *** Line breaks *)

Lemma skip_ws_blanks (n : nat) (s : str) : skip_ws (repeat 32 n ++ s) = skip_ws s.
Proof. induction n as [|n IH]; [reflexivity | exact IH]. Qed.

Lemma skip_ws_newline_indent (indent level : nat) (s : str) :
  skip_ws (JsonIndent.newline_indent indent level ++ s) = skip_ws s.
Proof.
  unfold JsonIndent.newline_indent. cbn [app skip_ws].
  change (is_ws 10) with true. cbv iota. apply skip_ws_blanks.
Qed.

Lemma ends_item_newline (indent level : nat) (s : str) :
  JsonIndent.ends_item (JsonIndent.newline_indent indent level ++ s).
Proof. right. reflexivity. Qed.

(** *** Values *)

Lemma indent_head (indent level : nat) (v : pyval) :
  json_ok v -> exists c s, JsonIndent.dumps indent level v = c :: s /\ value_start c.
Proof.
  intros Hv. destruct v as [ |b|z|f|s|xs|kvs];
    try exact (dumps_head _ Hv).
  - destruct xs; cbn [JsonIndent.dumps];
      eexists; eexists; split; try reflexivity; split; reflexivity.
  - destruct kvs; cbn [JsonIndent.dumps];
      eexists; eexists; split; try reflexivity; split; reflexivity.
Qed.

Lemma skip_ws_indent (indent level : nat) (v : pyval) (rest : str) :
  json_ok v ->
  skip_ws (JsonIndent.dumps indent level v ++ rest) = JsonIndent.dumps indent level v ++ rest.
Proof.
  intros H. destruct (indent_head indent level v H) as (c & s & -> & Hc).
  now apply skip_ws_start.
Qed.

Definition reads_back_indent (v : pyval) : Prop :=
  json_ok v -> Forall JsonIndent.float_ok (floats_in v) ->
  forall indent level fuel rest,
    (size v <= fuel)%nat -> JsonIndent.ends_item rest ->
    scan_once fuel (JsonIndent.dumps indent level v ++ rest) = Scanned v rest.

Definition separator (indent level : nat) : str :=
  ch "," :: JsonIndent.newline_indent indent level.

Lemma join_head (sep : str) (f : pyval -> str) (x : pyval) (xs : list pyval) (rest : str) :
  (exists c s, f x = c :: s /\ value_start c) ->
  exists c s, join sep (map f (x :: xs)) ++ rest = c :: s /\ value_start c.
Proof.
  intros (c & s & E & Hc). cbn [map].
  destruct (map f xs); cbn [join]; rewrite E; cbn [app];
    eexists; eexists; split; try reflexivity; assumption.
Qed.

Lemma items_read_back_indent (xs : list pyval) :
  Forall reads_back_indent xs -> all_ok xs ->
  Forall (fun x => Forall JsonIndent.float_ok (floats_in x)) xs -> xs <> [] ->
  forall indent level fuel rest,
    (weight xs <= fuel)%nat ->
    parse_items fuel
      (join (separator indent (S level)) (map (JsonIndent.dumps indent (S level)) xs)
         ++ JsonIndent.newline_indent indent level ++ ch "]" :: rest)
    = Scanned xs rest.
Proof.
  induction 1 as [|x xs Hx Hxs IH]; intros Hok Hfl Hne indent level fuel rest Hf;
    [congruence|].
  destruct Hok as [Hokx Hokxs]. inversion Hfl as [|? ? Hflx Hflxs]; subst.
  change (weight (x :: xs)) with (S (size x + weight xs)) in Hf.
  destruct fuel as [|fuel]; [lia|]. cbn [parse_items].
  destruct xs as [|y xs].
  - cbn [map join].
    rewrite Hx; [|assumption|assumption|lia|apply ends_item_newline].
    rewrite skip_ws_newline_indent. cbn [skip_ws is_ws]. reflexivity.
  - change (join (separator indent (S level))
              (map (JsonIndent.dumps indent (S level)) (x :: y :: xs)))
      with (JsonIndent.dumps indent (S level) x ++ separator indent (S level)
              ++ join (separator indent (S level))
                   (map (JsonIndent.dumps indent (S level)) (y :: xs))).
    rewrite <- !List.app_assoc.
    rewrite Hx; [|assumption|assumption|lia|now left].
    unfold separator at 1. cbn [app skip_ws]. change (is_ws (ch ",")) with false. cbv iota.
    change (ch "," =? ch "]") with false. change (ch "," =? ch ",") with true. cbv iota.
    rewrite skip_ws_newline_indent.
    destruct (join_head (separator indent (S level)) (JsonIndent.dumps indent (S level)) y xs
                (JsonIndent.newline_indent indent level ++ ch "]" :: rest)
                (indent_head indent (S level) y (proj1 Hokxs)))
      as (c & s & E & Hc).
    rewrite E, skip_ws_start by assumption. rewrite <- E.
    rewrite IH; [reflexivity | assumption | assumption | discriminate |].
    change (weight (y :: xs)) with (S (size y + weight xs)) in *. lia.
Qed.

Definition pair_text (indent level : nat) (kv : str * pyval) : str :=
  encode_basestring_ascii (fst kv) ++ lit ": " ++ JsonIndent.dumps indent level (snd kv).

Lemma pairs_head (indent level : nat) (kv : str * pyval) (kvs : list (str * pyval))
    (rest : str) :
  exists body,
    join (separator indent level) (map (pair_text indent level) (kv :: kvs)) ++ rest
    = QUOTE :: body.
Proof.
  cbn [map]. destruct (map _ kvs); cbn [join];
    unfold pair_text at 1, encode_basestring_ascii; cbn [app]; eexists; reflexivity.
Qed.

Lemma pairs_read_back_indent (kvs : list (str * pyval)) :
  Forall (fun kv => reads_back_indent (snd kv)) kvs -> pairs_ok kvs ->
  Forall (fun kv => Forall JsonIndent.float_ok (floats_in (snd kv))) kvs -> kvs <> [] ->
  forall indent level fuel rest body,
    (pairs_weight kvs <= fuel)%nat ->
    join (separator indent (S level)) (map (pair_text indent (S level)) kvs)
      ++ JsonIndent.newline_indent indent level ++ ch "}" :: rest = QUOTE :: body ->
    parse_pairs fuel body = Scanned kvs rest.
Proof.
  induction 1 as [|[k v] kvs Hv Hkvs IH];
    intros Hok Hfl Hne indent level fuel rest body Hf Hb; [congruence|].
  destruct Hok as (Hk & Hokv & Hokkvs). inversion Hfl as [|? ? Hflv Hflkvs]; subst.
  cbn [fst snd] in *.
  change (pairs_weight ((k, v) :: kvs)) with (S (size v + pairs_weight kvs)) in Hf.
  destruct fuel as [|fuel]; [lia|]. cbn [parse_pairs].
  assert (Hbody : exists tail,
             body = flat_map escape_char k ++ QUOTE :: ch ":" :: 32
                      :: JsonIndent.dumps indent (S level) v ++ tail /\
             match kvs with
             | [] => tail = JsonIndent.newline_indent indent level ++ ch "}" :: rest
             | _ :: _ =>
                 tail = separator indent (S level)
                          ++ join (separator indent (S level))
                               (map (pair_text indent (S level)) kvs)
                          ++ JsonIndent.newline_indent indent level ++ ch "}" :: rest
             end).
  { destruct kvs as [|kv kvs].
    - eexists. split; [|reflexivity].
      cbn [map join] in Hb. unfold pair_text, encode_basestring_ascii in Hb.
      cbn [fst snd] in Hb. rewrite <- !List.app_assoc in Hb. cbn [app] in Hb.
      rewrite <- !List.app_assoc in Hb. now injection Hb as <-.
    - eexists. split; [|reflexivity].
      change (join (separator indent (S level))
                (map (pair_text indent (S level)) ((k, v) :: kv :: kvs)))
        with (pair_text indent (S level) (k, v) ++ separator indent (S level)
                ++ join (separator indent (S level))
                     (map (pair_text indent (S level)) (kv :: kvs)))
        in Hb.
      unfold pair_text at 1, encode_basestring_ascii in Hb.
      cbn [fst snd] in Hb. rewrite <- !List.app_assoc in Hb. cbn [app] in Hb.
      rewrite <- !List.app_assoc in Hb. now injection Hb as <-. }
  destruct Hbody as (tail & -> & Htail).
  rewrite scan_basestring by assumption.
  cbn [skip_ws]. change (is_ws (ch ":")) with false. cbv iota.
  change (ch ":" =? ch ":") with true. cbv iota.
  cbn [skip_ws]. change (is_ws 32) with true. cbv iota.
  rewrite skip_ws_indent by assumption.
  destruct kvs as [|kv kvs].
  - subst tail. rewrite Hv; [|assumption|assumption|lia|apply ends_item_newline].
    rewrite skip_ws_newline_indent. cbn [skip_ws is_ws]. reflexivity.
  - subst tail. rewrite Hv; [|assumption|assumption|lia|now left].
    unfold separator at 1. cbn [app skip_ws]. change (is_ws (ch ",")) with false. cbv iota.
    change (ch "," =? ch "}") with false. change (ch "," =? ch ",") with true. cbv iota.
    rewrite skip_ws_newline_indent.
    destruct (pairs_head indent (S level) kv kvs
                (JsonIndent.newline_indent indent level ++ ch "}" :: rest)) as (body' & Hq).
    rewrite Hq. cbn [skip_ws]. change (is_ws QUOTE) with false. cbv iota.
    change (QUOTE =? QUOTE) with true. cbv iota.
    rewrite (IH Hokkvs Hflkvs ltac:(discriminate) indent level fuel rest body');
      [reflexivity | | exact Hq].
    change (pairs_weight (kv :: kvs)) with (S (size (snd kv) + pairs_weight kvs)) in *. lia.
Qed.

Lemma floats_in_items (xs : list pyval) :
  Forall JsonIndent.float_ok (floats_in (PyList xs)) ->
  Forall (fun x => Forall JsonIndent.float_ok (floats_in x)) xs.
Proof. cbn [floats_in]. now rewrite Forall_flat_map. Qed.

Lemma floats_in_pairs (kvs : list (str * pyval)) :
  Forall JsonIndent.float_ok (floats_in (PyDict kvs)) ->
  Forall (fun kv => Forall JsonIndent.float_ok (floats_in (snd kv))) kvs.
Proof. cbn [floats_in]. now rewrite Forall_flat_map. Qed.

(** Scanning the indented text of a value, followed by something that can
    follow a value there, gives the value and leaves what follows. *)
Lemma scan_indent (v : pyval) : reads_back_indent v.
Proof.
  induction v as [ |b|z|f|s|xs IH|kvs IH] using pyval_induction;
    intros Hv Hfl indent level fuel rest Hf Hr.
  - destruct fuel; [cbn in Hf; lia|]. reflexivity.
  - destruct fuel; [cbn in Hf; lia|]. destruct b; reflexivity.
  - destruct fuel; [cbn in Hf; lia|]. apply scan_int_stop. now apply ends_item_stops.
  - destruct fuel; [cbn in Hf; lia|]. cbn [floats_in] in Hfl.
    inversion Hfl as [|? ? Hfo _]; subst. now apply Hfo.
  - destruct fuel; [cbn in Hf; lia|]. now apply scan_str.
  - change (size (PyList xs)) with (S (weight xs)) in Hf.
    destruct fuel as [|fuel]; [lia|].
    destruct xs as [|x xs]; [reflexivity|].
    cbn [JsonIndent.dumps app scan_once].
    change (ch "[" =? QUOTE) with false. change (ch "[" =? ch "{") with false.
    change (ch "[" =? ch "[") with true. cbv iota.
    rewrite <- !List.app_assoc. rewrite skip_ws_newline_indent.
    change (ch "," :: JsonIndent.newline_indent indent (S level))
      with (separator indent (S level)).
    destruct (join_head (separator indent (S level)) (JsonIndent.dumps indent (S level)) x xs
                (JsonIndent.newline_indent indent level ++ [ch "]"] ++ rest)
                (indent_head indent (S level) x (proj1 Hv)))
      as (c & s & E & Hc).
    rewrite E, skip_ws_start by assumption.
    destruct Hc as [_ Hc]. rewrite Hc. rewrite <- E.
    change ([ch "]"] ++ rest) with (ch "]" :: rest).
    rewrite (items_read_back_indent (x :: xs) IH Hv (floats_in_items _ Hfl)
               ltac:(discriminate) indent level fuel rest); [reflexivity | lia].
  - change (size (PyDict kvs)) with (S (pairs_weight kvs)) in Hf.
    destruct fuel as [|fuel]; [lia|].
    destruct kvs as [|kv kvs]; [reflexivity|].
    destruct Hv as [Hnd Hok].
    cbn [JsonIndent.dumps app scan_once].
    change (ch "{" =? QUOTE) with false. change (ch "{" =? ch "{") with true. cbv iota.
    rewrite <- !List.app_assoc. rewrite skip_ws_newline_indent.
    change (ch "," :: JsonIndent.newline_indent indent (S level))
      with (separator indent (S level)).
    change (map _ (kv :: kvs)) with (map (pair_text indent (S level)) (kv :: kvs)).
    change ([ch "}"] ++ rest) with (ch "}" :: rest).
    destruct (pairs_head indent (S level) kv kvs
                (JsonIndent.newline_indent indent level ++ ch "}" :: rest)) as (body & Hq).
    rewrite Hq. cbn [skip_ws]. change (is_ws QUOTE) with false. cbv iota.
    change (QUOTE =? ch "}") with false. change (QUOTE =? QUOTE) with true. cbv iota.
    rewrite (pairs_read_back_indent (kv :: kvs) IH Hok (floats_in_pairs _ Hfl)
               ltac:(discriminate) indent level fuel rest body); [|lia|exact Hq].
    cbn [scan_map]. now rewrite dict_of_distinct_pairs.
Qed.

(** *** Fuel *)

Lemma weight_join (sep : str) (f : pyval -> str) (xs : list pyval) :
  (1 <= length sep)%nat ->
  Forall (fun x => (size x <= 2 * length (f x))%nat) xs ->
  (weight xs <= 2 * length (join sep (map f xs)) + 1)%nat.
Proof.
  intros Hsep. induction 1 as [|x xs Hx Hxs IH]; [cbn; lia|].
  change (weight (x :: xs)) with (S (size x + weight xs)).
  destruct xs as [|y xs]; [cbn [map join weight]; lia|].
  change (join sep (map f (x :: y :: xs))) with (f x ++ sep ++ join sep (map f (y :: xs))).
  rewrite !length_app. lia.
Qed.

Lemma pairs_weight_join (sep : str) (f : str * pyval -> str) (kvs : list (str * pyval)) :
  (1 <= length sep)%nat ->
  Forall (fun kv => (size (snd kv) <= 2 * length (f kv))%nat) kvs ->
  (pairs_weight kvs <= 2 * length (join sep (map f kvs)) + 1)%nat.
Proof.
  intros Hsep. induction 1 as [|x xs Hx Hxs IH]; [cbn; lia|].
  change (pairs_weight (x :: xs)) with (S (size (snd x) + pairs_weight xs)).
  destruct xs as [|y xs]; [cbn [map join pairs_weight]; lia|].
  change (join sep (map f (x :: y :: xs))) with (f x ++ sep ++ join sep (map f (y :: xs))).
  rewrite !length_app. lia.
Qed.

Lemma size_bound_indent (indent level : nat) (v : pyval) :
  json_ok v -> (size v <= 2 * length (JsonIndent.dumps indent level v))%nat.
Proof.
  revert level.
  induction v as [ |b|z|f|s|xs IH|kvs IH] using pyval_induction; intros level Hv;
    try (destruct (indent_head indent level _ Hv) as (c & t & E & _); rewrite E;
         cbn [size length]; lia).
  - change (size (PyList xs)) with (S (weight xs)).
    destruct xs as [|x xs]; [cbn; lia|].
    cbn [JsonIndent.dumps length]. rewrite !length_app.
    pose proof (weight_join (ch "," :: JsonIndent.newline_indent indent (S level))
                  (JsonIndent.dumps indent (S level)) (x :: xs) ltac:(cbn; lia)) as W.
    assert (Hall : Forall (fun x => (size x <= 2 * length (JsonIndent.dumps indent (S level) x))%nat)
                     (x :: xs)).
    { apply all_ok_forall in Hv. clear -IH Hv. revert Hv.
      induction IH as [|y ys Hy Hys IHys]; intros Hv; constructor.
      - apply Hy. apply Hv.
      - apply IHys. apply Hv. }
    specialize (W Hall). lia.
  - change (size (PyDict kvs)) with (S (pairs_weight kvs)).
    destruct kvs as [|kv kvs]; [cbn; lia|].
    cbn [JsonIndent.dumps length]. rewrite !length_app.
    pose proof (pairs_weight_join (ch "," :: JsonIndent.newline_indent indent (S level))
                  (pair_text indent (S level)) (kv :: kvs) ltac:(cbn; lia)) as W.
    assert (Hall : Forall (fun kv => (size (snd kv)
                                      <= 2 * length (pair_text indent (S level) kv))%nat)
                     (kv :: kvs)).
    { destruct Hv as [_ Hv]. change (pairs_ok (kv :: kvs)) in Hv. clear -IH Hv. revert Hv.
      induction IH as [|y ys Hy Hys IHys]; intros Hv; constructor.
      - unfold pair_text. rewrite !length_app.
        pose proof (Hy (S level) (proj1 (proj2 Hv))). lia.
      - apply IHys. apply Hv. }
    specialize (W Hall). change (map _ (kv :: kvs)) with (map (pair_text indent (S level)) (kv :: kvs)).
    lia.
Qed.

(** Decoding the indented text of a JSON-compatible value gives the value
    back. *)
Lemma loads_indent (indent level : nat) (v : pyval) :
  json_ok v -> Forall JsonIndent.float_ok (floats_in v) ->
  loads (JsonIndent.dumps indent level v) = Ok v.
Proof.
  intros Hv Hfl. unfold loads.
  rewrite <- (List.app_nil_r (JsonIndent.dumps indent level v)) at 2.
  rewrite skip_ws_indent, scan_indent; [reflexivity | assumption | assumption | | exact I | assumption].
  pose proof (size_bound_indent indent level v Hv). lia.
Qed.

End Facts.
End JsonIndentFacts.

(** ** White space around a document *)

Module BlankFacts.
Import Json JsonFacts Wire.
Section Facts.
Context {FM : FloatModel}.

(** The result of a scan of a text, when the text is followed by [ws]. *)
Definition followed_by {A : Type} (ws : str) (r : scan A) : scan A :=
  match r with
  | Scanned a rest => Scanned a (rest ++ ws)
  | Malformed => Malformed
  | NoFuel => NoFuel
  end.

Lemma followed_map {A B : Type} (g : A -> B) (ws : str) (r : scan A) :
  scan_map g (followed_by ws r) = followed_by ws (scan_map g r).
Proof. now destruct r. Qed.

Lemma is_ws_cases (c : N) : is_ws c = true -> c = 32 \/ c = 9 \/ c = 10 \/ c = 13.
Proof.
  unfold is_ws.
  destruct (N.eqb_spec c 32); [auto|].
  destruct (N.eqb_spec c 9); [auto|].
  destruct (N.eqb_spec c 10); [auto|].
  destruct (N.eqb_spec c 13); [auto|]. discriminate.
Qed.

Ltac blank_head H :=
  apply is_ws_cases in H; destruct H as [-> | [-> | [-> | ->]]].

Lemma skip_ws_blank (ws : str) : blank ws -> skip_ws ws = [].
Proof. induction 1 as [|c ws Hc _ IH]; [reflexivity|]. cbn [skip_ws]. now rewrite Hc. Qed.

Lemma skip_ws_blank_app (ws s : str) : blank ws -> skip_ws (ws ++ s) = skip_ws s.
Proof. induction 1 as [|c ws Hc _ IH]; [reflexivity|]. cbn [app skip_ws]. now rewrite Hc. Qed.

Lemma skip_ws_app (s ws : str) :
  blank ws ->
  skip_ws (s ++ ws) = match skip_ws s with
                      | [] => []
                      | c :: r => c :: r ++ ws
                      end.
Proof.
  intros H. induction s as [|c s IH]; cbn [app skip_ws].
  - now apply skip_ws_blank.
  - destruct (is_ws c); [exact IH | reflexivity].
Qed.

(** *** Strings *)

Lemma scanstring_blank (ws : str) :
  blank ws -> forall g, (length ws < g)%nat -> scanstring_fuel g ws = Malformed.
Proof.
  induction 1 as [|w ws Hw _ IH]; intros g Hg; (destruct g as [|g]; [cbn in Hg; lia|]).
  - reflexivity.
  - cbn [length] in Hg. blank_head Hw; cbn [scanstring_fuel]; try reflexivity.
    change (32 =? QUOTE) with false. change (32 =? BACKSLASH) with false.
    change (32 <? 32) with false. cbv iota. rewrite IH by lia. reflexivity.
Qed.

Lemma hexval_blank (w : N) : is_ws w = true -> hexval w = None.
Proof. intros H. blank_head H; reflexivity. Qed.

Lemma escape_blank (w : N) :
  is_ws w = true -> (w =? ch "u") = false /\ unescape w = None /\ (w =? BACKSLASH) = false.
Proof. intros H. blank_head H; repeat split. Qed.

Lemma decode_app (s rest ws : str) (u : N) :
  decode_uXXXX s = Some (u, rest) -> decode_uXXXX (s ++ ws) = Some (u, rest ++ ws).
Proof.
  unfold decode_uXXXX. destruct s as [|h1 [|h2 [|h3 [|h4 s]]]]; try discriminate.
  cbn [app]. destruct (hexval h1), (hexval h2), (hexval h3), (hexval h4); try discriminate.
  now intros [= <- <-].
Qed.

Lemma decode_app_none (s ws : str) :
  blank ws -> decode_uXXXX s = None -> decode_uXXXX (s ++ ws) = None.
Proof.
  intros Hws. unfold decode_uXXXX.
  destruct s as [|h1 [|h2 [|h3 [|h4 s]]]]; cbn [app].
  - intros _. destruct Hws as [|w1 ws H1 Hws]; [reflexivity|].
    rewrite (hexval_blank w1 H1). now destruct ws as [|? [|? [|? ?]]].
  - intros _. destruct Hws as [|w1 ws H1 Hws]; [reflexivity|].
    rewrite (hexval_blank w1 H1). destruct ws as [|? [|? ?]]; try reflexivity;
      now destruct (hexval h1).
  - intros _. destruct Hws as [|w1 ws H1 Hws]; [reflexivity|].
    rewrite (hexval_blank w1 H1). destruct ws as [|? ?]; try reflexivity;
      now destruct (hexval h1), (hexval h2).
  - intros _. destruct Hws as [|w1 ws H1 Hws]; [reflexivity|].
    rewrite (hexval_blank w1 H1). now destruct (hexval h1), (hexval h2), (hexval h3).
  - now destruct (hexval h1), (hexval h2), (hexval h3), (hexval h4).
Qed.

(** Scanning a string literal is not affected by white space after the
    text: a literal that is closed leaves it unread, one that is not stays
    malformed. *)
Lemma scanstring_fuel_app (ws : str) :
  blank ws ->
  forall f s f',
    (length s < f)%nat -> (length s + length ws < f')%nat ->
    scanstring_fuel f' (s ++ ws) = followed_by ws (scanstring_fuel f s).
Proof.
  intros Hws f. induction f as [|f IH]; intros s f' Hf Hf'; [lia|].
  destruct f' as [|f']; [lia|]. destruct s as [|c s1].
  - cbn [app]. rewrite scanstring_blank by (cbn in *; auto; lia). reflexivity.
  - cbn [length] in Hf, Hf'. cbn [app scanstring_fuel].
    destruct (c =? QUOTE); [reflexivity|]. destruct (c =? BACKSLASH).
    + destruct s1 as [|esc s2]; cbn [app].
      * destruct Hws as [|w ws Hw Hws]; [reflexivity|].
        destruct (escape_blank w Hw) as (-> & -> & _). reflexivity.
      * cbn [length] in Hf, Hf'. destruct (esc =? ch "u").
        -- destruct (decode_uXXXX s2) as [[uni s3]|] eqn:D.
           ++ pose proof (decode_uXXXX_length _ _ _ D) as L.
              rewrite (decode_app _ _ ws _ D). cbv zeta.
              assert (Hsingle :
                scan_map (cons uni) (scanstring_fuel f' (s3 ++ ws))
                = followed_by ws (scan_map (cons uni) (scanstring_fuel f s3))).
              { rewrite (IH s3 f') by lia. apply followed_map. }
              destruct (is_high_surrogate uni); [|exact Hsingle].
              destruct s3 as [|b [|u s4]]; cbn [app].
              ** destruct Hws as [|w1 ws H1 Hws]; [exact Hsingle|].
                 destruct Hws as [|w2 ws H2 Hws]; [exact Hsingle|].
                 destruct (escape_blank w1 H1) as (_ & _ & ->). exact Hsingle.
              ** destruct Hws as [|w1 ws H1 Hws]; [exact Hsingle|].
                 destruct (escape_blank w1 H1) as (-> & _ & _).
                 rewrite andb_false_r. exact Hsingle.
              ** destruct ((b =? BACKSLASH) && (u =? ch "u")); [|exact Hsingle].
                 destruct (decode_uXXXX s4) as [[uni2 s5]|] eqn:D2.
                 --- pose proof (decode_uXXXX_length _ _ _ D2) as L2.
                     rewrite (decode_app _ _ ws _ D2).
                     destruct (is_low_surrogate uni2); [|exact Hsingle].
                     cbn [length] in L. rewrite (IH s5 f') by lia. apply followed_map.
                 --- now rewrite (decode_app_none _ ws Hws D2).
           ++ now rewrite (decode_app_none _ ws Hws D).
        -- destruct (unescape esc); [|reflexivity].
           rewrite (IH s2 f') by lia. apply followed_map.
    + destruct (c <? 32); [reflexivity|].
      rewrite (IH s1 f') by lia. apply followed_map.
Qed.

Lemma scanstring_app (s ws : str) :
  blank ws -> scanstring (s ++ ws) = followed_by ws (scanstring s).
Proof.
  intros H. unfold scanstring. apply scanstring_fuel_app; [assumption | lia |].
  rewrite length_app. lia.
Qed.

(** *** Numbers and constants *)

Lemma is_digit_blank (w : N) : is_ws w = true -> is_digit w = false.
Proof. intros H. blank_head H; reflexivity. Qed.

Lemma span_digits_blank (ws : str) : blank ws -> span_digits ws = ([], ws).
Proof.
  destruct 1 as [|w ws Hw _]; [reflexivity|]. cbn [span_digits].
  now rewrite (is_digit_blank w Hw).
Qed.

Lemma span_digits_app (s ws : str) :
  blank ws ->
  span_digits (s ++ ws) = (fst (span_digits s), snd (span_digits s) ++ ws).
Proof.
  intros H. induction s as [|c s IH]; cbn [app span_digits].
  - now rewrite span_digits_blank.
  - destruct (is_digit c); [|reflexivity].
    rewrite IH. now destruct (span_digits s).
Qed.

Definition with_rest2 (ws : str) (r : option (str * str)) : option (str * str) :=
  match r with
  | Some (a, rest) => Some (a, rest ++ ws)
  | None => None
  end.

Lemma match_integer_blank (ws : str) : blank ws -> match_integer ws = None.
Proof.
  destruct 1 as [|w ws Hw _]; [reflexivity|]. unfold match_integer.
  blank_head Hw; reflexivity.
Qed.

Lemma match_integer_digits (sign s ws : str) :
  blank ws ->
  match s ++ ws with
  | c :: s1 =>
      if c =? ch "0" then Some (sign ++ [c], s1)
      else if is_digit c then let (ds, rest) := span_digits s1 in Some (sign ++ c :: ds, rest)
      else None
  | [] => None
  end
  = with_rest2 ws
      match s with
      | c :: s1 =>
          if c =? ch "0" then Some (sign ++ [c], s1)
          else if is_digit c then let (ds, rest) := span_digits s1 in Some (sign ++ c :: ds, rest)
          else None
      | [] => None
      end.
Proof.
  intros H. destruct s as [|c s1]; cbn [app].
  - destruct H as [|w ws Hw _]; [reflexivity|]. blank_head Hw; reflexivity.
  - destruct (c =? ch "0"); [reflexivity|]. destruct (is_digit c); [|reflexivity].
    rewrite span_digits_app by assumption. now destruct (span_digits s1).
Qed.

Lemma match_integer_app (s ws : str) :
  blank ws -> match_integer (s ++ ws) = with_rest2 ws (match_integer s).
Proof.
  intros H. unfold match_integer. destruct s as [|c s1].
  - cbn [app]. fold (match_integer ws). now rewrite match_integer_blank.
  - cbn [app]. destruct (c =? ch "-").
    + apply (match_integer_digits [c] s1 ws H).
    + apply (match_integer_digits [] (c :: s1) ws H).
Qed.

Lemma match_frac_app (s ws : str) :
  blank ws ->
  match_frac (s ++ ws) = (fst (match_frac s), snd (match_frac s) ++ ws).
Proof.
  intros H. unfold match_frac. destruct s as [|c s1]; cbn [app].
  - destruct H as [|w ws Hw _]; [reflexivity|]. blank_head Hw; reflexivity.
  - destruct (c =? ch "."); [|reflexivity].
    rewrite span_digits_app by assumption.
    destruct (span_digits s1) as [[|d ds] rest]; reflexivity.
Qed.

Lemma match_exp_app (s ws : str) :
  blank ws ->
  match_exp (s ++ ws) = (fst (match_exp s), snd (match_exp s) ++ ws).
Proof.
  intros H. unfold match_exp. destruct s as [|c s1]; cbn [app].
  - destruct H as [|w ws Hw _]; [reflexivity|]. blank_head Hw; reflexivity.
  - destruct ((c =? ch "e") || (c =? ch "E")); [|reflexivity].
    destruct s1 as [|g s2]; cbn [app].
    + destruct H as [|w ws Hw Hws]; [reflexivity|].
      assert (Hg : (w =? ch "-") || (w =? ch "+") = false) by (blank_head Hw; reflexivity).
      rewrite Hg. cbn [span_digits]. rewrite (is_digit_blank w Hw). reflexivity.
    + destruct ((g =? ch "-") || (g =? ch "+")).
      * rewrite span_digits_app by assumption.
        destruct (span_digits s2) as [[|d ds] rest]; reflexivity.
      * change (g :: s2 ++ ws) with ((g :: s2) ++ ws).
        rewrite span_digits_app by assumption.
        destruct (span_digits (g :: s2)) as [[|d ds] rest]; reflexivity.
Qed.

Lemma match_number_app (s ws : str) :
  blank ws ->
  match_number (s ++ ws) =
  match match_number s with
  | Some (integer, frac, exp, rest) => Some (integer, frac, exp, rest ++ ws)
  | None => None
  end.
Proof.
  intros H. unfold match_number. rewrite match_integer_app by assumption.
  destruct (match_integer s) as [[integer s1]|]; [|reflexivity]. cbn [with_rest2].
  rewrite match_frac_app by assumption. destruct (match_frac s1) as [frac s2]. cbn [fst snd].
  rewrite match_exp_app by assumption. now destruct (match_exp s2) as [exp s3].
Qed.

Definition no_blank (p : str) : Prop := Forall (fun c => is_ws c = false) p.

Lemma strip_prefix_app_some (p s rest ws : str) :
  strip_prefix p s = Some rest -> strip_prefix p (s ++ ws) = Some (rest ++ ws).
Proof.
  revert s. induction p as [|x p IH]; intros s; cbn [strip_prefix].
  - now intros [= ->].
  - destruct s as [|y s]; [discriminate|]. cbn [app].
    destruct (x =? y); [apply IH | discriminate].
Qed.

Lemma strip_prefix_app_none (p s ws : str) :
  no_blank p -> blank ws ->
  strip_prefix p s = None -> strip_prefix p (s ++ ws) = None.
Proof.
  intros Hp Hws. revert s. induction Hp as [|x p Hx Hp IH]; intros s; cbn [strip_prefix].
  - discriminate.
  - destruct s as [|y s]; cbn [app].
    + intros _. destruct Hws as [|w ws Hw _]; [reflexivity|].
      replace (x =? w) with false; [reflexivity|].
      symmetry. apply N.eqb_neq. intros ->. congruence.
    + destruct (x =? y); [apply IH | reflexivity].
Qed.

Lemma strip_prefix_app (p s ws : str) :
  no_blank p -> blank ws ->
  strip_prefix p (s ++ ws) = match strip_prefix p s with
                             | Some rest => Some (rest ++ ws)
                             | None => None
                             end.
Proof.
  intros Hp Hws. destruct (strip_prefix p s) as [rest|] eqn:E.
  - now apply strip_prefix_app_some.
  - now apply strip_prefix_app_none.
Qed.

Lemma literals_no_blank :
  no_blank (lit "null") /\ no_blank (lit "true") /\ no_blank (lit "false") /\
  no_blank (lit "NaN") /\ no_blank (lit "Infinity") /\ no_blank (lit "-Infinity").
Proof. repeat split; repeat constructor. Qed.

Lemma scan_number_app (s ws : str) :
  blank ws -> scan_number (s ++ ws) = followed_by ws (scan_number s).
Proof.
  intros H. unfold scan_number. rewrite match_number_app by assumption.
  destruct literals_no_blank as (_ & _ & _ & Hn & Hi & Hm).
  destruct (match_number s) as [[[[integer frac] exp] rest]|].
  - destruct frac, exp; reflexivity.
  - rewrite !strip_prefix_app by assumption.
    destruct (strip_prefix (lit "NaN") s); [reflexivity|].
    destruct (strip_prefix (lit "Infinity") s); [reflexivity|].
    destruct (strip_prefix (lit "-Infinity") s); reflexivity.
Qed.

(** *** Values *)

Lemma scan_once_blank (ws : str) (f : nat) :
  blank ws -> scan_once (S f) ws = Malformed.
Proof.
  destruct 1 as [|w ws Hw _]; [reflexivity|]. blank_head Hw; reflexivity.
Qed.

Lemma scan_once_nil (f : nat) : scan_once f [] = Malformed \/ scan_once f [] = NoFuel.
Proof. destruct f; [right | left]; reflexivity. Qed.

Lemma parse_items_nil (f : nat) : parse_items f [] = Malformed \/ parse_items f [] = NoFuel.
Proof.
  destruct f as [|f]; [now right|]. cbn [parse_items].
  destruct (scan_once_nil f) as [-> | ->]; [now left | now right].
Qed.

Lemma scan_app (ws : str) :
  blank ws ->
  forall f,
    (forall s, scan_once f (s ++ ws) = followed_by ws (scan_once f s)) /\
    (forall s, s <> [] -> parse_items f (s ++ ws) = followed_by ws (parse_items f s)) /\
    (forall s, parse_pairs f (s ++ ws) = followed_by ws (parse_pairs f s)).
Proof.
  intros Hws. destruct literals_no_blank as (Hnull & Htrue & Hfalse & _).
  induction f as [|f (IHo & IHi & IHp)]; [repeat split; reflexivity|].
  split; [|split].
  - intros [|c s1].
    + cbn [app]. now rewrite scan_once_blank.
    + change ((c :: s1) ++ ws) with (c :: (s1 ++ ws)). cbn [scan_once].
      destruct (c =? QUOTE).
      { rewrite scanstring_app by assumption. apply followed_map. }
      destruct (c =? ch "{").
      { rewrite skip_ws_app by assumption. destruct (skip_ws s1) as [|c2 s2]; [reflexivity|].
        destruct (c2 =? ch "}"); [reflexivity|]. destruct (c2 =? QUOTE); [|reflexivity].
        rewrite IHp. apply followed_map. }
      destruct (c =? ch "[").
      { rewrite skip_ws_app by assumption. destruct (skip_ws s1) as [|c2 s2]; [reflexivity|].
        destruct (c2 =? ch "]"); [reflexivity|].
        change (c2 :: s2 ++ ws) with ((c2 :: s2) ++ ws).
        rewrite IHi by discriminate. apply followed_map. }
      change (c :: s1 ++ ws) with ((c :: s1) ++ ws).
      rewrite !strip_prefix_app by assumption.
      destruct (strip_prefix (lit "null") (c :: s1)); [reflexivity|].
      destruct (strip_prefix (lit "true") (c :: s1)); [reflexivity|].
      destruct (strip_prefix (lit "false") (c :: s1)); [reflexivity|].
      now apply scan_number_app.
  - intros s Hs. cbn [parse_items]. rewrite IHo.
    destruct (scan_once f s) as [v s1| |]; try reflexivity. cbn [followed_by].
    rewrite skip_ws_app by assumption. destruct (skip_ws s1) as [|c s2]; [reflexivity|].
    destruct (c =? ch "]"); [reflexivity|]. destruct (c =? ch ","); [|reflexivity].
    rewrite skip_ws_app by assumption. destruct (skip_ws s2) as [|c3 s3].
    + destruct (parse_items_nil f) as [-> | ->]; reflexivity.
    + change (c3 :: s3 ++ ws) with ((c3 :: s3) ++ ws).
      rewrite IHi by discriminate. apply followed_map.
  - intros s. cbn [parse_pairs]. rewrite scanstring_app by assumption.
    destruct (scanstring s) as [key s1| |]; try reflexivity. cbn [followed_by].
    rewrite skip_ws_app by assumption. destruct (skip_ws s1) as [|c s2]; [reflexivity|].
    destruct (c =? ch ":"); [|reflexivity].
    rewrite skip_ws_app by assumption. destruct (skip_ws s2) as [|c3 s3].
    + destruct (scan_once_nil f) as [-> | ->]; reflexivity.
    + change (c3 :: s3 ++ ws) with ((c3 :: s3) ++ ws). rewrite IHo.
      destruct (scan_once f (c3 :: s3)) as [v s4| |]; try reflexivity. cbn [followed_by].
      rewrite skip_ws_app by assumption. destruct (skip_ws s4) as [|d s5]; [reflexivity|].
      destruct (d =? ch "}"); [reflexivity|]. destruct (d =? ch ","); [|reflexivity].
      rewrite skip_ws_app by assumption. destruct (skip_ws s5) as [|q s6]; [reflexivity|].
      destruct (q =? QUOTE); [|reflexivity].
      rewrite IHp. apply followed_map.
Qed.

(** *** Fuel *)

Lemma scan_map_fuel {A B : Type} (g : A -> B) (r : scan A) :
  scan_map g r <> NoFuel -> r <> NoFuel.
Proof. destruct r; cbn; congruence. Qed.

(** More fuel than a scan needs does not change its result. *)
Lemma scan_more_fuel (f : nat) :
  (forall s f', (f <= f')%nat -> scan_once f s <> NoFuel -> scan_once f' s = scan_once f s) /\
  (forall s f', (f <= f')%nat -> parse_items f s <> NoFuel ->
                parse_items f' s = parse_items f s) /\
  (forall s f', (f <= f')%nat -> parse_pairs f s <> NoFuel ->
                parse_pairs f' s = parse_pairs f s).
Proof.
  induction f as [|f (IHo & IHi & IHp)]; [repeat split; intros s f' _ H; now destruct H|].
  split; [|split]; intros s f' Hf H; (destruct f' as [|f']; [lia|]);
    assert (Hf0 : (f <= f')%nat) by lia.
  - destruct s as [|c s1]; [reflexivity|]. cbn [scan_once] in *.
    destruct (c =? QUOTE); [reflexivity|].
    destruct (c =? ch "{").
    { destruct (skip_ws s1) as [|c2 s2]; [reflexivity|].
      destruct (c2 =? ch "}"); [reflexivity|]. destruct (c2 =? QUOTE); [|reflexivity].
      apply scan_map_fuel in H. now rewrite (IHp s2 f' Hf0 H). }
    destruct (c =? ch "[").
    { destruct (skip_ws s1) as [|c2 s2]; [reflexivity|].
      destruct (c2 =? ch "]"); [reflexivity|].
      apply scan_map_fuel in H. now rewrite (IHi _ f' Hf0 H). }
    reflexivity.
  - cbn [parse_items] in *.
    assert (Ho : scan_once f s <> NoFuel) by (intros E; rewrite E in H; now apply H).
    rewrite (IHo s f' Hf0 Ho).
    destruct (scan_once f s) as [v s1| |]; try reflexivity.
    destruct (skip_ws s1) as [|c s2]; [reflexivity|].
    destruct (c =? ch "]"); [reflexivity|]. destruct (c =? ch ","); [|reflexivity].
    apply scan_map_fuel in H. now rewrite (IHi _ f' Hf0 H).
  - cbn [parse_pairs] in *.
    destruct (scanstring s) as [key s1| |]; try reflexivity.
    destruct (skip_ws s1) as [|c s2]; [reflexivity|].
    destruct (c =? ch ":"); [|reflexivity].
    assert (Ho : scan_once f (skip_ws s2) <> NoFuel) by (intros E; rewrite E in H; now apply H).
    rewrite (IHo _ f' Hf0 Ho).
    destruct (scan_once f (skip_ws s2)) as [v s3| |]; try reflexivity.
    destruct (skip_ws s3) as [|d s4]; [reflexivity|].
    destruct (d =? ch "}"); [reflexivity|]. destruct (d =? ch ","); [|reflexivity].
    destruct (skip_ws s4) as [|q s5]; [reflexivity|].
    destruct (q =? QUOTE); [|reflexivity].
    apply scan_map_fuel in H. now rewrite (IHp _ f' Hf0 H).
Qed.

(** *** Documents *)

(** White space around a document is ignored. *)
Lemma loads_blank (ws1 s ws2 : str) :
  blank ws1 -> blank ws2 -> loads (ws1 ++ s ++ ws2) = loads s.
Proof.
  intros H1 H2. unfold loads.
  rewrite skip_ws_blank_app by assumption. rewrite skip_ws_app by assumption.
  pose proof (scan_once_fuel s) as Hfuel.
  set (F := (2 * length s + 2)%nat) in *.
  set (F' := (2 * length (ws1 ++ s ++ ws2) + 2)%nat).
  assert (HF : (F <= F')%nat) by (subst F F'; rewrite !length_app; lia).
  destruct (skip_ws s) as [|c r].
  - replace F with (S (2 * length s + 1)) by (subst F; lia).
    replace F' with (S (2 * length (ws1 ++ s ++ ws2) + 1)) by (subst F'; lia).
    reflexivity.
  - change (c :: r ++ ws2) with ((c :: r) ++ ws2).
    rewrite (proj1 (scan_app ws2 H2 F')).
    rewrite (proj1 (scan_more_fuel F) (c :: r) F' HF Hfuel).
    destruct (scan_once F (c :: r)) as [v rest| |]; try reflexivity. cbn [followed_by].
    rewrite skip_ws_app by assumption. now destruct (skip_ws rest).
Qed.

End Facts.
End BlankFacts.

(** * The properties of the specification *)

Ltac in_list := vm_compute; repeat ((left; reflexivity) || right).

Section Claims.
Context {FM : FloatModel}.

(** C1 (as amended): the two-creation scenario does not stop at a failed
    check.  Whenever the first check is reached, one of its two verdicts is
    printed and, whichever it is, the run goes on to the neutron steps: it
    announces the neutron creation and sends the neutron [createParticle],
    unless the connection has been closed meanwhile. *)
Theorem run_goes_on_after_first_check (server : list (N * event)) (c1 : nat) :
  In (Print (CreateParticle.NewCount c1)) (CreateParticle.trace_of server) ->
  (In (Print CreateParticle.ProtonCreated) (CreateParticle.trace_of server) \/
   In (Print CreateParticle.ProtonFailed) (CreateParticle.trace_of server)) /\
  In (Print CreateParticle.CreatingNeutron) (CreateParticle.trace_of server) /\
  (In CreateParticle.create_neutron (CreateParticle.trace_of server) \/
   CreateParticle.outcome_of server = Raise ConnectionClosed).
Proof.
  CreateParticleFacts.run_cases; intros H; CreateParticleFacts.split_in H.
  all: repeat split;
    try (CreateParticleFacts.show_in; fail);
    try (right; reflexivity);
    try (left; CreateParticleFacts.show_in; fail).
  all: match goal with
       | |- context [if ?c then CreateParticle.ProtonCreated else CreateParticle.ProtonFailed] =>
           destruct c; [left | right]; CreateParticleFacts.show_in
       end.
Qed.



(** C4 (as amended): every receive of the passive listener and of the
    debug scenario is a wait bounded by one second, which resolves within its
    bound to a message, a timeout or the close, so that neither script can
    block; the receives of the two-creation scenario have no bound. *)
Theorem listener_and_drain_receives_are_bounded (server : list (N * event)) :
  (WsSimple.outcome_of server <> Blocked /\
   Forall (bounded_by 1) (WsSimple.trace_of server)) /\
  (CreateParticleDebug.outcome_of server <> Blocked /\
   Forall (bounded_by 1) (CreateParticleDebug.trace_of server)) /\
  Forall unbounded (CreateParticle.trace_of server) /\
  (forall (line : Type) (w : world line) (seconds : N),
      ((exists text, fst (wait_for_recv seconds w) = Return text) \/
       fst (wait_for_recv seconds w) = Raise TimeoutError \/
       fst (wait_for_recv seconds w) = Raise ConnectionClosed) /\
      now (snd (wait_for_recv seconds w)) <= now w + 1000 * seconds).
Proof.
  split; [|split; [|split]].
  - destruct (WsSimpleFacts.run_reports server) as [[Ho Ht] | [Ho (acts & Hq & Ht)]];
      rewrite Ho; (split; [discriminate|]).
    + rewrite Ht. repeat constructor.
    + apply WsSimpleFacts.listening_bounded in Hq.
      destruct Ht as [-> | (e & _ & ->)];
        (apply Forall_app; split; [repeat constructor|]);
        (apply Forall_app; split; [assumption | repeat constructor]).
  - destruct (CreateParticleDebugFacts.run_spec server) as (_ & _ & Hb & _ & Ho & _).
    split; [|assumption].
    destruct Ho as [(e & -> & _) | ->]; discriminate.
  - apply CreateParticleFacts.waits_are_unbounded.
  - intros line w seconds. apply WsFacts.wait_for_recv_resolves.
Qed.



(** C7: the passive listener, run against a server from which nothing
    arrives during the ten-second window, terminates normally after ten
    attempts that all time out, reports a total of 0 messages for the
    configured 10 seconds, and has then listened for exactly 10 seconds of
    the model's clock. *)
Theorem silent_server_listen_summary (server : list (N * event)) :
  (forall t ev, In (t, ev) server -> 10000 <= t) ->
  WsSimple.outcome_of server = Return tt /\
  WsSimple.trace_of server =
    WsSimple.preamble ++ concat (repeat WsSimple.silent_second 10)
      ++ [Print (WsSimple.ReceivedSummary 0 10); Disconnect] /\
  WsSimple.frames_got (WsSimple.trace_of server) = 0%nat /\
  now (snd (WsSimple.run server)) = 10000.
Proof.
  intros H. unfold WsSimple.outcome_of, WsSimple.trace_of.
  rewrite (WsSimpleFacts.silent_run server H). repeat split.
Qed.


(** C9: the two-creation scenario reads every reply as a snapshot without
    looking at its [type]: the count read off a reply is the same whatever
    the [type] says, and a reply whose payload has no [particles] entry (an
    [error] Envelope, for one) ends the run with an uncaught [KeyError]. *)
Theorem reply_lacking_particles_is_fatal (server : list (N * event)) (s : str) :
  In (Await None (Got s)) (CreateParticle.trace_of server) ->
  (forall data p,
      Json.loads s = Ok data ->
      Py.subscript data (lit "payload") = Ok (PyDict p) ->
      dict_lookup p (lit "particles") = None ->
      CreateParticle.outcome_of server = Raise KeyError) /\
  (forall e,
      CreateParticle.particle_count s = Err e ->
      CreateParticle.outcome_of server = Raise e) /\
  (forall d t,
      CreateParticle.count_in (PyDict (dict_set d (lit "type") t))
      = CreateParticle.count_in (PyDict d)).
Proof.
  intros Hin. split; [|split].
  - intros data p Hl Hp Hk.
    apply (CreateParticleFacts.bad_reply_is_fatal server s KeyError Hin).
    unfold CreateParticle.particle_count, CreateParticle.count_in.
    rewrite Hl, Hp. cbn [Py.subscript]. now rewrite Hk.
  - intros e. now apply CreateParticleFacts.bad_reply_is_fatal.
  - apply CreateParticleFacts.count_ignores_type.
Qed.

(** C10: the drain loop of the debug scenario makes at most five receive
    attempts, each bounded by one second, and so examines at most five
    responses and ends within five seconds; an attempt that times out is the
    last one: after it the run only reports that there are no more messages
    and releases the connection. *)
Theorem drain_makes_at_most_five_attempts (server : list (N * event)) :
  (CreateParticleDebug.awaits (CreateParticleDebug.trace_of server) <= 5)%nat /\
  (CreateParticleDebug.examined (CreateParticleDebug.trace_of server) <= 5)%nat /\
  Forall (bounded_by 1) (CreateParticleDebug.trace_of server) /\
  now (snd (CreateParticleDebug.run server)) <= 5000 /\
  ((exists e, CreateParticleDebug.outcome_of server = Raise e /\ e <> TimeoutError) \/
   CreateParticleDebug.outcome_of server = Return tt) /\
  (CreateParticleDebug.timeouts (CreateParticleDebug.trace_of server) = 0%nat \/
   exists front,
     CreateParticleDebug.timeouts front = 0%nat /\
     CreateParticleDebug.trace_of server =
       front ++ [Await (Some 1) Expired; Print CreateParticleDebug.NoMoreMessages; Disconnect] /\
     CreateParticleDebug.outcome_of server = Return tt).
Proof. apply CreateParticleDebugFacts.run_spec. Qed.

End Claims.

(** * Further properties of the scripts and of the codec *)

Section Further.
Context {FM : FloatModel}.

(** X1: whatever the server sends, the passive listener stops within
    eleven seconds of its start: at most ten of its waits time out, and when
    it prints its tally at least ten seconds have passed. *)
Theorem listener_keeps_to_its_window (server : list (N * event)) :
  now (snd (WsSimple.run server)) < 11000 /\
  (Trace.expired (WsSimple.trace_of server) <= 10)%nat /\
  (forall n, In (Print (WsSimple.ReceivedSummary n 10)) (WsSimple.trace_of server) ->
             10000 <= now (snd (WsSimple.run server))).
Proof. apply WsSimpleRunFacts.run_clock. Qed.

(** X2: the bounded scripts read nothing that arrives after their
    window.  What the passive listener has taken from the connection when it
    ends is an initial part of what the server sent, all of it arrived less
    than eleven seconds after the start, and the rest is left unread; for the
    debug scenario the same holds with five seconds, and it takes at most
    five events. *)
Theorem nothing_is_read_after_the_window (server : list (N * event)) :
  (exists consumed,
      server = consumed ++ inbox (snd (WsSimple.run server)) /\
      Forall (fun tev => fst tev < 11000) consumed) /\
  (exists consumed,
      server = consumed ++ inbox (snd (CreateParticleDebug.run server)) /\
      Forall (fun tev => fst tev < 5000) consumed /\
      (length consumed <= 5)%nat).
Proof.
  split.
  - destruct (InboxFacts.listener_took server) as (consumed & E & F). now exists consumed.
  - destruct (InboxFacts.debug_took server) as (consumed & [E F] & L). now exists consumed.
Qed.

(** X3: the passive listener reads a snapshot with defaults: when the
    payload is missing, or is an object with none of [particles], [metrics]
    and [simulationTime], it reports 0 particles, a simulation time of 0 and
    a total energy of 0, and counts the message. *)
Theorem listener_reads_missing_snapshot_fields_as_zero
    (message : str) (count : nat) (w : world WsSimple.line) (d p : list (str * pyval)) :
  Json.loads message = Ok (PyDict d) ->
  dict_lookup d (lit "type") = Some (PyStr (lit "snapshot")) ->
  Py.get (PyDict d) (lit "payload") (PyDict []) = Ok (PyDict p) ->
  dict_lookup p (lit "particles") = None ->
  dict_lookup p (lit "metrics") = None ->
  dict_lookup p (lit "simulationTime") = None ->
  WsSimple.on_message message count w =
  (Return (S count),
   World (now w) (inbox w)
     (trace w ++ [Print WsSimple.SnapshotReceived; Print (WsSimple.ParticlesLine 0);
                  Print (WsSimple.SimulationTimeLine (PyInt 0));
                  Print (WsSimple.TotalEnergyLine (PyInt 0))])).
Proof. apply WsSimpleRunFacts.on_message_defaults. Qed.

(** X4: a snapshot whose payload is present but is not an object ends
    the listening at once: when it is the first frame and arrives within the
    first second, the run reports [AttributeError], prints no tally and
    leaves the later frames unread. *)
Theorem listener_stops_on_payload_that_is_no_object
    (t : N) (message : str) (rest : list (N * event)) (d : list (str * pyval)) (p : pyval) :
  t < 1000 ->
  ~ In (0, Close) ((t, Frame message) :: rest) ->
  Json.loads message = Ok (PyDict d) ->
  dict_lookup d (lit "type") = Some (PyStr (lit "snapshot")) ->
  dict_lookup d (lit "payload") = Some p ->
  (forall q, p <> PyDict q) ->
  WsSimple.run ((t, Frame message) :: rest) =
  (Return tt,
   World t rest
     (WsSimple.preamble
        ++ [Await (Some 1) (Got message); Print (WsSimple.ErrorLine AttributeError);
            Disconnect])).
Proof.
  intros Ht Hc H T P N.
  apply (WsSimpleRunFacts.run_first_frame_raises _ t message rest AttributeError eq_refl Ht).
  - now apply TraceFacts.open_at_start.
  - intros w. now apply (WsSimpleRunFacts.on_message_payload_not_object message 0 w d p).
  - discriminate.
Qed.

(** X5: how the debug scenario reports an [error] response: the message
    of the payload when there is one that can be written to the output (on
    a UTF-8 output every message but a string holding a surrogate code
    point, for which [print] raises [UnicodeEncodeError]); [Unknown error]
    when the payload is missing or has no message; and [AttributeError],
    after the response has been announced, when the payload is not an
    object. *)
Theorem debug_reports_error_responses
    (response : str) (w : world CreateParticleDebug.line) (d : list (str * pyval)) :
  Json.loads response = Ok (PyDict d) ->
  dict_lookup d (lit "type") = Some (PyStr (lit "error")) ->
  let announced := trace w ++ [Print (CreateParticleDebug.ReceivedLine (PyStr (lit "error")))] in
  (forall p m,
      dict_lookup d (lit "payload") = Some (PyDict p) ->
      dict_lookup p (lit "message") = Some m ->
      Wire.writable m ->
      CreateParticleDebug.on_response response w =
      (Return tt,
       World (now w) (inbox w) (announced ++ [Print (CreateParticleDebug.ErrorMessageLine m)]))) /\
  (forall p,
      Py.get (PyDict d) (lit "payload") (PyDict []) = Ok (PyDict p) ->
      dict_lookup p (lit "message") = None ->
      CreateParticleDebug.on_response response w =
      (Return tt,
       World (now w) (inbox w)
         (announced
            ++ [Print (CreateParticleDebug.ErrorMessageLine (PyStr (lit "Unknown error")))]))) /\
  (forall p,
      dict_lookup d (lit "payload") = Some p ->
      (forall q, p <> PyDict q) ->
      CreateParticleDebug.on_response response w =
      (Raise AttributeError, World (now w) (inbox w) announced)).
Proof.
  intros H T announced. subst announced. split; [|split].
  - intros p m P Hm _.
    rewrite (CreateParticleDebugRunFacts.on_response_error_message response w d p m H T P Hm).
    now rewrite <- List.app_assoc.
  - intros p P Hm.
    rewrite (CreateParticleDebugRunFacts.on_response_unknown_error response w d p H T P Hm).
    now rewrite <- List.app_assoc.
  - intros p P N.
    apply (CreateParticleDebugRunFacts.on_response_error_payload_not_object response w d p H T P N).
Qed.

(** X6: unlike the listener, the debug scenario does not survive a
    [snapshot] response without a payload or without [particles]: when it is
    the first response and arrives within the first second, the run announces
    it and ends with an uncaught [KeyError], without its closing line. *)
Theorem debug_stops_on_snapshot_without_particles
    (t : N) (response : str) (rest : list (N * event)) (d : list (str * pyval)) :
  t < 1000 ->
  ~ In (0, Close) ((t, Frame response) :: rest) ->
  Json.loads response = Ok (PyDict d) ->
  dict_lookup d (lit "type") = Some (PyStr (lit "snapshot")) ->
  (dict_lookup d (lit "payload") = None \/
   exists p, dict_lookup d (lit "payload") = Some (PyDict p) /\
             dict_lookup p (lit "particles") = None) ->
  CreateParticleDebug.run ((t, Frame response) :: rest) =
  (Raise KeyError,
   World t rest
     (CreateParticleDebug.preamble
        ++ [Await (Some 1) (Got response);
            Print (CreateParticleDebug.ReceivedLine (PyStr (lit "snapshot")));
            Disconnect])).
Proof.
  intros Ht Hc H T P.
  apply (CreateParticleDebugRunFacts.run_first_response_raises _ t response rest KeyError
           [Print (CreateParticleDebug.ReceivedLine (PyStr (lit "snapshot")))] eq_refl Ht).
  - now apply TraceFacts.open_at_start.
  - intros w. now apply (CreateParticleDebugRunFacts.on_response_snapshot_lacking response w d).
  - discriminate.
Qed.

(** X7: the debug scenario prints its closing line exactly when one of
    its waits timed out.  Every response examined and every timeout has a
    wait of its own among the at most five, so that after five responses the
    run ends without the closing line. *)
Theorem debug_closing_line_means_timeout (server : list (N * event)) :
  (In (Print CreateParticleDebug.NoMoreMessages) (CreateParticleDebug.trace_of server) <->
   In (Await (Some 1) Expired) (CreateParticleDebug.trace_of server)) /\
  (CreateParticleDebug.examined (CreateParticleDebug.trace_of server)
   + CreateParticleDebug.timeouts (CreateParticleDebug.trace_of server)
   <= CreateParticleDebug.awaits (CreateParticleDebug.trace_of server))%nat /\
  (CreateParticleDebug.awaits (CreateParticleDebug.trace_of server) <= 5)%nat.
Proof.
  destruct (CreateParticleDebugRunFacts.run_shape server)
    as [-> | (acts & Hd & Hx & Ha & [[Ht ->] | [He ->]])].
  - split; [|cbn; lia]. split; intros H; cbn [In] in H;
      repeat (destruct H as [H | H]; [discriminate H|]); contradiction.
  - unfold CreateParticleDebug.preamble. cbn [app].
    cbn [CreateParticleDebug.examined CreateParticleDebug.timeouts CreateParticleDebug.awaits].
    rewrite CreateParticleDebugFacts.examined_app, CreateParticleDebugFacts.timeouts_app,
      CreateParticleDebugFacts.awaits_app.
    split; [|cbn; lia]. split; intros H; exfalso; cbn [In] in H;
      repeat (destruct H as [H | H]; [discriminate H|]);
      apply in_app_or in H; destruct H as [H | H].
    + exact (CreateParticleDebugRunFacts.drained_not_done acts Hd H).
    + cbn [In] in H. destruct H as [H | []]. discriminate H.
    + apply CreateParticleDebugRunFacts.timeouts_expired in H. lia.
    + cbn [In] in H. destruct H as [H | []]. discriminate H.
  - unfold CreateParticleDebug.preamble. cbn [app].
    cbn [CreateParticleDebug.examined CreateParticleDebug.timeouts CreateParticleDebug.awaits].
    rewrite CreateParticleDebugFacts.examined_app, CreateParticleDebugFacts.timeouts_app,
      CreateParticleDebugFacts.awaits_app.
    split; [|cbn; lia]. split; intros _; repeat right; apply in_or_app.
    + now left.
    + right. now left.
Qed.

(** X8: the two-creation scenario pairs replies with requests by
    position alone: a run that reaches its end has taken the first three
    events of the server, all of them frames, as the three replies, has left
    every later event unread, and has lasted at least the two settling waits
    of half a second. *)
Theorem replies_are_the_first_three_frames (server : list (N * event)) :
  CreateParticle.outcome_of server = Return tt ->
  exists t0 s0 t1 s1 t2 s2 rest c0 c1 c2,
    server = (t0, Frame s0) :: (t1, Frame s1) :: (t2, Frame s2) :: rest /\
    CreateParticle.particle_count s0 = Ok c0 /\
    CreateParticle.particle_count s1 = Ok c1 /\
    CreateParticle.particle_count s2 = Ok c2 /\
    CreateParticle.trace_of server = CreateParticle.completed_trace s0 s1 s2 c0 c1 c2 /\
    inbox (snd (CreateParticle.run server)) = rest /\
    1000 <= now (snd (CreateParticle.run server)) /\
    t2 <= now (snd (CreateParticle.run server)).
Proof. apply CreateParticleRunFacts.completed_run_replies. Qed.

(** X9: the two-creation scenario needs three replies: when the server
    sends fewer than three frames, each one a reply off which a count can be
    read, and then stays silent with the connection open, the run blocks for
    ever on the receive that gets no reply. *)
Theorem too_few_replies_block_the_run (server : list (N * event)) :
  (length server < 3)%nat ->
  Forall (fun tev => exists text c,
              snd tev = Frame text /\ CreateParticle.particle_count text = Ok c) server ->
  CreateParticle.outcome_of server = Blocked.
Proof. apply RepliesFacts.too_few_replies. Qed.

(** X10: when the server closes the connection after fewer than three
    such replies, the run of the two-creation scenario ends with an uncaught
    [ConnectionClosed], raised by the receive that finds the close or by a
    send made after the close arrived. *)
Theorem close_before_the_third_reply_ends_the_run
    (replies : list (N * event)) (t : N) (rest : list (N * event)) :
  (length replies < 3)%nat ->
  Forall (fun tev => exists text c,
              snd tev = Frame text /\ CreateParticle.particle_count text = Ok c) replies ->
  CreateParticle.outcome_of (replies ++ (t, Close) :: rest) = Raise ConnectionClosed.
Proof. apply RepliesFacts.close_after_few_replies. Qed.

(** X11: a run that ends releases its connection, as its last action and
    only then, whether it ends normally or with an exception.  The listener
    and the debug scenario always end; the two-creation scenario, when it
    blocks on a receive, keeps holding the connection. *)
Theorem finished_runs_release_the_connection (server : list (N * event)) :
  Trace.released (WsSimple.trace_of server) /\
  Trace.released (CreateParticleDebug.trace_of server) /\
  ((CreateParticle.outcome_of server = Blocked /\
    Forall Trace.on_connection (CreateParticle.trace_of server)) \/
   (CreateParticle.outcome_of server <> Blocked /\
    Trace.released (CreateParticle.trace_of server))).
Proof.
  split; [|split].
  - destruct (WsSimpleFacts.run_reports server)
      as [[_ ->] | [_ (acts & Hq & [-> | (e & _ & ->)])]].
    + repeat (apply TraceFacts.released_cons; [exact I|]). apply TraceFacts.released_last.
    + apply TraceFacts.released_app; [repeat constructor|].
      apply TraceFacts.released_app; [now apply WsSimpleRunFacts.listening_on_connection|].
      apply TraceFacts.released_cons; [exact I|]. apply TraceFacts.released_last.
    + apply TraceFacts.released_app; [repeat constructor|].
      apply TraceFacts.released_app; [now apply WsSimpleRunFacts.listening_on_connection|].
      apply TraceFacts.released_cons; [exact I|]. apply TraceFacts.released_last.
  - destruct (CreateParticleDebugRunFacts.run_shape server)
      as [-> | (acts & Hd & _ & _ & [[_ ->] | [_ ->]])].
    + repeat (apply TraceFacts.released_cons; [exact I|]). apply TraceFacts.released_last.
    + apply TraceFacts.released_app; [repeat constructor|].
      apply TraceFacts.released_app; [now apply CreateParticleDebugRunFacts.drained_on_connection|].
      apply TraceFacts.released_last.
    + apply TraceFacts.released_app; [repeat constructor|].
      apply TraceFacts.released_app; [now apply CreateParticleDebugRunFacts.drained_on_connection|].
      apply TraceFacts.released_cons; [exact I|]. apply TraceFacts.released_last.
  - apply CreateParticleRunFacts.run_releases.
Qed.

(** X12: when the close has already reached the client at the start, the
    first send raises [ConnectionClosed] in every script and ends the run:
    nothing is sent, and the listener, whose [try] only starts after the
    request, does not report the error. *)
Theorem request_on_closed_connection_ends_the_run (server : list (N * event)) :
  In (0, Close) server ->
  WsSimple.run server =
    (Raise ConnectionClosed,
     World 0 server [Print WsSimple.Connecting; Print WsSimple.Connected; Disconnect]) /\
  CreateParticleDebug.run server =
    (Raise ConnectionClosed,
     World 0 server
       [Print CreateParticleDebug.Connecting; Print CreateParticleDebug.Connected;
        Print CreateParticleDebug.CreatingProton;
        Print (CreateParticleDebug.Sending CreateParticleDebug.create_msg); Disconnect]) /\
  CreateParticle.run server =
    (Raise ConnectionClosed,
     World 0 server [Print CreateParticle.Connecting; Print CreateParticle.Connected;
                     Disconnect]).
Proof.
  intros H. split; [|split].
  - apply WsSimpleRunFacts.listener_closed_at_start. now apply TraceFacts.closed_at_start.
  - apply CreateParticleDebugRunFacts.debug_closed_at_start. now apply TraceFacts.closed_at_start.
  - apply CreateParticleRunFacts.creation_closed_at_start. now apply TraceFacts.closed_at_start.
Qed.

(** X13: a frame that is valid JSON but not an object (an array, a
    number, a string, [null]) is an error in every script, of a different
    kind in each: [AttributeError] in the listener, which reads it with
    [get], and [TypeError] in the two creation scenarios, which subscript
    it. *)
Theorem frame_that_is_no_object_raises
    (message : str) (data : pyval) (count : nat)
    (w1 : world WsSimple.line) (w2 : world CreateParticleDebug.line) :
  Json.loads message = Ok data ->
  (forall d, data <> PyDict d) ->
  WsSimple.on_message message count w1 = (Raise AttributeError, w1) /\
  CreateParticleDebug.on_response message w2 = (Raise TypeError, w2) /\
  CreateParticle.particle_count message = Err TypeError.
Proof.
  intros H N. split; [|split].
  - now apply (WsSimpleRunFacts.on_message_not_object message count w1 data).
  - now apply (CreateParticleDebugRunFacts.on_response_not_object message w2 data).
  - now apply (CreateParticleRunFacts.particle_count_not_object message data).
Qed.

(** X14: the three scripts read the same particle count off a
    well-formed snapshot, the length of its list of particles: the listener
    reports it first of all, the debug scenario reports it after announcing
    the response, and the two-creation scenario takes it as its count. *)
Theorem scripts_agree_on_the_particle_count
    (message : str) (d p : list (str * pyval)) (xs : list pyval) (count : nat)
    (w1 : world WsSimple.line) (w2 : world CreateParticleDebug.line) :
  Json.loads message = Ok (PyDict d) ->
  dict_lookup d (lit "type") = Some (PyStr (lit "snapshot")) ->
  dict_lookup d (lit "payload") = Some (PyDict p) ->
  dict_lookup p (lit "particles") = Some (PyList xs) ->
  (exists more,
     trace (snd (WsSimple.on_message message count w1)) =
     trace w1 ++ [Print WsSimple.SnapshotReceived; Print (WsSimple.ParticlesLine (length xs))]
       ++ more) /\
  CreateParticleDebug.on_response message w2 =
    (Return tt,
     World (now w2) (inbox w2)
       (trace w2 ++ [Print (CreateParticleDebug.ReceivedLine (PyStr (lit "snapshot")));
                     Print (CreateParticleDebug.SnapshotLine (length xs))])) /\
  CreateParticle.particle_count message = Ok (length xs).
Proof.
  intros H T P X. split; [|split].
  - now apply (SnapshotFacts.on_message_particles message count w1 d p xs).
  - now apply (SnapshotFacts.on_response_particles message w2 d p xs).
  - now apply (SnapshotFacts.particle_count_particles message d p xs).
Qed.

(** X15: decoding the text [json.dumps] writes for any JSON-compatible
    value, of whatever shape and nesting, gives the value back. *)
Theorem json_text_round_trip (v : pyval) :
  Json.json_ok v -> Json.loads (Json.dumps v) = Ok v.
Proof. apply JsonFacts.loads_dumps. Qed.

(** X16: two JSON-compatible values that are written as the same text
    are the same value: the text on the wire determines the message. *)
Theorem json_text_determines_value (v1 v2 : pyval) :
  Json.json_ok v1 -> Json.json_ok v2 ->
  Json.dumps v1 = Json.dumps v2 -> v1 = v2.
Proof.
  intros H1 H2 E.
  pose proof (JsonFacts.loads_dumps v1 H1) as L1.
  pose proof (JsonFacts.loads_dumps v2 H2) as L2.
  rewrite E in L1. congruence.
Qed.

(** X17: a string that holds a high surrogate followed by a low
    surrogate does not survive the round trip: each is written as its own
    escape, and the decoder reads the two escapes as the single code point
    the pair denotes. *)
Theorem surrogate_pair_is_read_back_joined (hi lo : N) :
  Json.is_high_surrogate hi = true ->
  Json.is_low_surrogate lo = true ->
  Json.loads (Json.dumps (PyStr [hi; lo])) = Ok (PyStr [Json.join_surrogates hi lo]) /\
  Json.join_surrogates hi lo = 0x10000 + (hi - 0xd800) * 1024 + (lo - 0xdc00).
Proof.
  intros Hhi Hlo. split; [now apply WireFacts.loads_surrogate_pair|].
  unfold Json.join_surrogates. rewrite N.shiftl_mul_pow2. change (2 ^ 10) with 1024.
  rewrite JsonFacts.lor_high_low; [lia|].
  unfold Json.is_low_surrogate in Hlo. apply andb_true_iff in Hlo.
  destruct Hlo as [H1 H2]. apply N.leb_le in H1, H2. lia.
Qed.

(** X18: the text [json.dumps] writes is printable ASCII, whatever code
    points the strings of the value hold, provided the numerals of its
    floats are. *)
Theorem json_text_is_printable_ascii (v : pyval) :
  Forall (fun f => Forall Wire.printable (floatstr f)) (Wire.floats_in v) ->
  Forall Wire.printable (Json.dumps v).
Proof. apply WireFacts.dumps_printable. Qed.

(** X19: an object text that repeats a key decodes to a dictionary in
    which the key has the value given last (and stands where it was first
    given): a frame with two [type] entries is read by its last. *)
Theorem repeated_key_reads_as_its_last_value (kvs : list (str * pyval)) :
  Forall (fun kv => Json.string_ok (fst kv) /\ Json.json_ok (snd kv)) kvs ->
  Json.loads (Json.dumps (PyDict kvs)) = Ok (PyDict (dict_of_pairs kvs)) /\
  (forall k, dict_lookup (dict_of_pairs kvs) k = dict_lookup (rev kvs) k) /\
  NoDup (map fst (dict_of_pairs kvs)).
Proof.
  intros H. split; [|split].
  - apply WireFacts.loads_object_text. now apply WireFacts.pairs_ok_forall.
  - apply WireFacts.dict_of_pairs_lookup.
  - apply WireFacts.dict_of_pairs_nodup.
Qed.

(** X20: [json.loads] ignores white space around a document: a frame
    decodes, or fails to decode, exactly as it does without the blanks, tabs
    and line breaks before and after it. *)
Theorem surrounding_white_space_is_ignored (ws1 s ws2 : str) :
  Wire.blank ws1 -> Wire.blank ws2 ->
  Json.loads (ws1 ++ s ++ ws2) = Json.loads s.
Proof. apply BlankFacts.loads_blank. Qed.

(** X21: the indented text that the debug scenario prints for its
    request ([json.dumps] with [indent]) decodes to the same value as the
    compact text it sends, for every JSON-compatible value, indentation and
    nesting level. *)
Theorem indented_text_round_trip (indent level : nat) (v : pyval) :
  Json.json_ok v ->
  Forall JsonIndent.float_ok (Wire.floats_in v) ->
  Json.loads (JsonIndent.dumps indent level v) = Ok v /\
  Json.loads (JsonIndent.dumps indent level v) = Json.loads (Json.dumps v).
Proof.
  intros Hv Hfl.
  rewrite (JsonIndentFacts.loads_indent indent level v Hv Hfl).
  now rewrite (JsonFacts.loads_dumps v Hv).
Qed.

End Further.

(** ** Closed instances *)

#[local] Existing Instance numeral_floats.

(** C1, counterexample: on [stalled_server] the first check fails, and
    yet the neutron creation is announced and sent and the run goes on to its
    end. *)
Lemma failed_check_does_not_stop_the_run :
  In (Print CreateParticle.ProtonFailed)
     (CreateParticle.trace_of (FM := numeral_floats) stalled_server) /\
  In (Print CreateParticle.CreatingNeutron)
     (CreateParticle.trace_of (FM := numeral_floats) stalled_server) /\
  In CreateParticle.create_neutron
     (CreateParticle.trace_of (FM := numeral_floats) stalled_server) /\
  CreateParticle.outcome_of (FM := numeral_floats) stalled_server = Return tt.
Proof. split; [in_list | split; [in_list | split; [in_list | vm_compute; reflexivity]]]. Qed.

Lemma run_goes_on_after_first_check_witness :
  In (Print (CreateParticle.NewCount 1))
     (CreateParticle.trace_of (FM := numeral_floats) stalled_server) /\
  In (Print CreateParticle.CreatingNeutron)
     (CreateParticle.trace_of (FM := numeral_floats) stalled_server).
Proof.
  assert (H : In (Print (CreateParticle.NewCount 1))
                 (CreateParticle.trace_of (FM := numeral_floats) stalled_server))
    by in_list.
  split; [exact H|].
  exact (proj1 (proj2 (run_goes_on_after_first_check stalled_server 1 H))).
Defined.


Lemma quarter_reads_back : Json.float_ok (lit "0.25").
Proof.
  intros fuel rest H. destruct rest as [|c rest]; [reflexivity|].
  destruct H as [-> | [-> | ->]]; reflexivity.
Qed.




(** C4, counterexample: against a server that sends nothing and keeps the
    connection open, the two-creation scenario blocks on its first receive,
    right after its request. *)
Lemma unbounded_receive_blocks_on_silent_server :
  CreateParticle.outcome_of [] = Blocked /\
  CreateParticle.trace_of [] =
    [Print CreateParticle.Connecting; Print CreateParticle.Connected; CreateParticle.ask].
Proof. split; reflexivity. Qed.



Lemma silent_server_listen_summary_witness :
  WsSimple.outcome_of late_server = Return tt /\
  now (snd (WsSimple.run late_server)) = 10000.
Proof.
  assert (H : forall t ev, In (t, ev) late_server -> 10000 <= t).
  { intros t ev [[= <- <-] | []]. lia. }
  destruct (silent_server_listen_summary late_server H) as (Ho & _ & _ & Hn).
  split; assumption.
Defined.



Lemma reply_lacking_particles_is_fatal_witness :
  In (Await None (Got error_frame)) (CreateParticle.trace_of [(10, Frame error_frame)]) /\
  CreateParticle.outcome_of [(10, Frame error_frame)] = Raise KeyError.
Proof.
  assert (H : In (Await None (Got error_frame))
                 (CreateParticle.trace_of [(10, Frame error_frame)])) by in_list.
  split; [exact H|].
  refine (proj1 (reply_lacking_particles_is_fatal [(10, Frame error_frame)] error_frame H)
            (Json.envelope (lit "error") (Some (PyDict [(lit "message", PyStr (lit "boom"))])))
            [(lit "message", PyStr (lit "boom"))] _ _ _);
    vm_compute; reflexivity.
Defined.

(** ** Closed instances of the further properties *)

Lemma listener_reads_missing_snapshot_fields_as_zero_witness :
  WsSimple.on_message bare_snapshot_frame 0 (fresh []) =
  (Return 1%nat,
   World 0 []
     [Print WsSimple.SnapshotReceived; Print (WsSimple.ParticlesLine 0);
      Print (WsSimple.SimulationTimeLine (PyInt 0));
      Print (WsSimple.TotalEnergyLine (PyInt 0))]).
Proof.
  apply (listener_reads_missing_snapshot_fields_as_zero
           bare_snapshot_frame 0 (fresh [])
           [(lit "type", PyStr (lit "snapshot"))] []);
    vm_compute; reflexivity.
Defined.

Lemma listener_stops_on_payload_that_is_no_object_witness :
  WsSimple.run [(100, Frame null_snapshot_frame); (200, Frame null_snapshot_frame)] =
  (Return tt,
   World 100 [(200, Frame null_snapshot_frame)]
     (WsSimple.preamble
        ++ [Await (Some 1) (Got null_snapshot_frame);
            Print (WsSimple.ErrorLine AttributeError); Disconnect])).
Proof.
  apply (listener_stops_on_payload_that_is_no_object
           100 null_snapshot_frame [(200, Frame null_snapshot_frame)]
           [(lit "type", PyStr (lit "snapshot")); (lit "payload", PyNone)] PyNone).
  - lia.
  - intros [H | [H | []]]; discriminate H.
  - vm_compute. reflexivity.
  - reflexivity.
  - reflexivity.
  - discriminate.
Defined.

Lemma debug_reports_error_responses_witness :
  CreateParticleDebug.on_response error_frame (fresh []) =
  (Return tt,
   World 0 []
     [Print (CreateParticleDebug.ReceivedLine (PyStr (lit "error")));
      Print (CreateParticleDebug.ErrorMessageLine (PyStr (lit "boom")))]).
Proof.
  assert (H : Json.loads error_frame
              = Ok (PyDict [(lit "type", PyStr (lit "error"));
                            (lit "payload", PyDict [(lit "message", PyStr (lit "boom"))])]))
    by (vm_compute; reflexivity).
  assert (W : Wire.writable (PyStr (lit "boom"))).
  { cbn [Wire.writable]. repeat constructor. }
  exact (proj1 (debug_reports_error_responses error_frame (fresh []) _ H eq_refl)
           [(lit "message", PyStr (lit "boom"))] (PyStr (lit "boom")) eq_refl eq_refl W).
Defined.

Lemma debug_stops_on_snapshot_without_particles_witness :
  CreateParticleDebug.run [(100, Frame bare_snapshot_frame)] =
  (Raise KeyError,
   World 100 []
     (CreateParticleDebug.preamble
        ++ [Await (Some 1) (Got bare_snapshot_frame);
            Print (CreateParticleDebug.ReceivedLine (PyStr (lit "snapshot")));
            Disconnect])).
Proof.
  apply (debug_stops_on_snapshot_without_particles
           100 bare_snapshot_frame [] [(lit "type", PyStr (lit "snapshot"))]).
  - lia.
  - intros [H | []]. discriminate H.
  - vm_compute. reflexivity.
  - reflexivity.
  - left. reflexivity.
Defined.

Lemma replies_are_the_first_three_frames_witness :
  exists t0 s0 t1 s1 t2 s2 rest c0 c1 c2,
    growing_server = (t0, Frame s0) :: (t1, Frame s1) :: (t2, Frame s2) :: rest /\
    CreateParticle.particle_count s0 = Ok c0 /\
    CreateParticle.particle_count s1 = Ok c1 /\
    CreateParticle.particle_count s2 = Ok c2 /\
    CreateParticle.trace_of growing_server = CreateParticle.completed_trace s0 s1 s2 c0 c1 c2 /\
    inbox (snd (CreateParticle.run growing_server)) = rest /\
    1000 <= now (snd (CreateParticle.run growing_server)) /\
    t2 <= now (snd (CreateParticle.run growing_server)).
Proof.
  apply (replies_are_the_first_three_frames growing_server). vm_compute. reflexivity.
Defined.

Lemma too_few_replies_block_the_run_witness :
  CreateParticle.outcome_of [(10, Frame (snapshot_frame 1)); (600, Frame (snapshot_frame 2))]
  = Blocked.
Proof.
  apply (too_few_replies_block_the_run
           [(10, Frame (snapshot_frame 1)); (600, Frame (snapshot_frame 2))]).
  - cbn. lia.
  - repeat constructor.
    + exists (snapshot_frame 1), 1%nat. split; [reflexivity | vm_compute; reflexivity].
    + exists (snapshot_frame 2), 2%nat. split; [reflexivity | vm_compute; reflexivity].
Defined.

Lemma close_before_the_third_reply_ends_the_run_witness :
  CreateParticle.outcome_of [(10, Frame (snapshot_frame 1)); (700, Close)]
  = Raise ConnectionClosed.
Proof.
  apply (close_before_the_third_reply_ends_the_run [(10, Frame (snapshot_frame 1))] 700 []).
  - cbn. lia.
  - repeat constructor.
    exists (snapshot_frame 1), 1%nat. split; [reflexivity | vm_compute; reflexivity].
Defined.

Lemma request_on_closed_connection_ends_the_run_witness :
  WsSimple.outcome_of [(0, Close)] = Raise ConnectionClosed /\
  CreateParticleDebug.outcome_of [(0, Close)] = Raise ConnectionClosed /\
  CreateParticle.outcome_of [(0, Close)] = Raise ConnectionClosed.
Proof.
  assert (H : In (0, Close) [(0, Close)]) by (left; reflexivity).
  destruct (request_on_closed_connection_ends_the_run [(0, Close)] H) as (H1 & H2 & H3).
  unfold WsSimple.outcome_of, CreateParticleDebug.outcome_of, CreateParticle.outcome_of.
  rewrite H1, H2, H3. repeat split.
Defined.

Lemma frame_that_is_no_object_raises_witness :
  WsSimple.on_message (lit "[1, 2]") 0 (fresh []) = (Raise AttributeError, fresh []) /\
  CreateParticleDebug.on_response (lit "[1, 2]") (fresh []) = (Raise TypeError, fresh []) /\
  CreateParticle.particle_count (lit "[1, 2]") = Err TypeError.
Proof.
  apply (frame_that_is_no_object_raises (lit "[1, 2]") (PyList [PyInt 1; PyInt 2])).
  - vm_compute. reflexivity.
  - discriminate.
Defined.

Lemma scripts_agree_on_the_particle_count_witness :
  CreateParticleDebug.on_response (snapshot_frame 2) (fresh []) =
    (Return tt,
     World 0 []
       [Print (CreateParticleDebug.ReceivedLine (PyStr (lit "snapshot")));
        Print (CreateParticleDebug.SnapshotLine 2)]) /\
  CreateParticle.particle_count (snapshot_frame 2) = Ok 2%nat.
Proof.
  refine (proj2 (scripts_agree_on_the_particle_count
                   (snapshot_frame 2)
                   [(lit "type", PyStr (lit "snapshot"));
                    (lit "payload",
                     PyDict [(lit "particles", PyList [PyDict []; PyDict []]);
                             (lit "simulationTime", @PyFloat numeral_floats (lit "0.25"))])]
                   [(lit "particles", PyList [PyDict []; PyDict []]);
                    (lit "simulationTime", @PyFloat numeral_floats (lit "0.25"))]
                   [PyDict []; PyDict []] 0 (fresh []) (fresh []) _ _ _ _));
    vm_compute; reflexivity.
Defined.

Lemma mixed_value_ok : Json.json_ok mixed_value.
Proof.
  cbn [Json.json_ok mixed_value map fst snd].
  repeat split; try exact quarter_reads_back;
    try (repeat constructor; fail);
    repeat constructor; cbn; intuition (discriminate || lia).
Qed.

Lemma json_text_round_trip_witness :
  Json.loads (Json.dumps mixed_value) = Ok mixed_value.
Proof. apply (json_text_round_trip mixed_value). exact mixed_value_ok. Defined.

Lemma json_text_determines_value_witness :
  mixed_value = mixed_value.
Proof.
  apply (json_text_determines_value mixed_value mixed_value);
    [exact mixed_value_ok | exact mixed_value_ok | reflexivity].
Defined.

Lemma surrogate_pair_is_read_back_joined_witness :
  Json.loads (Json.dumps (PyStr [0xd83d; 0xde00])) = Ok (PyStr [0x1f600]).
Proof.
  exact (proj1 (surrogate_pair_is_read_back_joined 0xd83d 0xde00 eq_refl eq_refl)).
Defined.

Lemma json_text_is_printable_ascii_witness :
  Forall Wire.printable (Json.dumps mixed_value).
Proof.
  apply (json_text_is_printable_ascii mixed_value).
  cbn. repeat (apply Forall_cons || apply Forall_nil); unfold Wire.printable; lia.
Defined.

Lemma repeated_key_reads_as_its_last_value_witness :
  Json.loads (Json.dumps (PyDict [(lit "type", PyStr (lit "error"));
                                  (lit "type", PyStr (lit "snapshot"))]))
  = Ok (PyDict [(lit "type", PyStr (lit "snapshot"))]).
Proof.
  refine (proj1 (repeated_key_reads_as_its_last_value
                   [(lit "type", PyStr (lit "error")); (lit "type", PyStr (lit "snapshot"))] _)).
  repeat constructor.
Defined.

Lemma surrounding_white_space_is_ignored_witness :
  Json.loads ([32; 9] ++ lit "[1, 2]" ++ [13; 10]) = Json.loads (lit "[1, 2]").
Proof.
  apply (surrounding_white_space_is_ignored [32; 9] (lit "[1, 2]") [13; 10]);
    repeat constructor.
Defined.

Lemma indented_text_round_trip_witness :
  Json.loads (JsonIndent.dumps 2 0 CreateParticleDebug.create_msg)
  = Ok CreateParticleDebug.create_msg.
Proof.
  refine (proj1 (indented_text_round_trip 2 0 CreateParticleDebug.create_msg _ _)).
  - cbn [Json.json_ok CreateParticleDebug.create_msg map fst snd].
    repeat split; try (repeat constructor; fail);
      repeat constructor; cbn; intuition discriminate.
  - constructor.
Defined.
